(** * Refresh-token lifecycle of the express_jwt auth layer

    A shallow embedding of the token codec wrapper ([verifyToken]), the
    refresh-token repository (createRefreshToken, getRefreshToken,
    updateRefreshTokenLastUsed, revokeRefreshToken, revokeAllUserTokens,
    limitUserTokens), the [authenticateRequest] middleware and the
    POST /auth/refresh route, followed by the properties established
    about them.

    Conventions.
    - Instants (JS [Date] values and the ISO-8601 strings produced by
      [toISOString]) are integers: milliseconds since the epoch.  An
      absent or unparsable date ([new Date(undefined)], the Invalid Date)
      is [None].  The one place where the code compares the strings
      themselves, the Scan filter of cleanExpiredTokens, compares the
      images under [toISOString].
    - The DynamoDB table, [crypto], [Date.now], [crypto.randomUUID] and the
      [jsonwebtoken] library are the environment.  The table is a finite
      map, the clock and the identifier supply are fields of the [World],
      the digest and the JWT primitives are section variables.
    - A rejected [dbClient.send] is driven by the [faults] schedule of the
      world: every call consumes one entry, [true] meaning that this call
      rejects.  An exhausted schedule means a healthy store.  A rejected
      call has no effect on the table.
    - A query returns the whole partition of user_id-index in one page,
      and the index is read as consistent with the table.
    - The clock stands still while a handler runs from one [await] to the
      next: two reads in the same stretch ([new Date()] and [Date.now()]
      in createRefreshToken) give the same instant, which is the
      instant [fresh_attrs] refers to.  The clock moves between requests
      and at the [Tick]s of an interleaving. *)

From Stdlib Require Import ZArith String Ascii DecimalString List Lia Permutation
  Sorted.
From stdpp Require Import base option list gmap strings.

Local Open Scope string_scope.
Local Open Scope Z_scope.

(** ** Items of the HQ_RefreshTokens table *)

(** The non-key attributes that createRefreshToken writes. *)
Record Attrs := mkAttrs {
  id : N;
  user_id : string;
  expires_at : Z;
  ttl : Z;
  revoked : bool;
  created_at : Z;
  last_used_at : Z
}.

(** The object [newToken] of createRefreshToken: the primary key
    [token_hash] together with the other attributes. *)
Record RefreshTokenRecord := mkRecord {
  token_hash : string;
  attrs : Attrs
}.

(** What the table stores under a primary key.  A [Complete] row was
    written by a PutCommand.  A [Sparse] row is what an UpdateCommand
    leaves when its key was absent: UpdateItem adds a new item holding the
    key and the attributes of its SET clause only, so such a row carries
    at most [revoked] and [last_used_at]. *)
Inductive Row :=
| Complete (a : Attrs)
| Sparse (rv : option bool) (lu : option Z).

(** The item handed back by a GetCommand or by ReturnValues ALL_NEW. *)
Record Item := mkItem {
  item_hash : string;
  item_row : Row
}.

(** [item.revoked] : the attribute, [None] when the item has none. *)
Definition row_revoked (r : Row) : option bool :=
  match r with
  | Complete a => Some (revoked a)
  | Sparse rv _ => rv
  end.

(** [item.expires_at]. *)
Definition row_expires_at (r : Row) : option Z :=
  match r with
  | Complete a => Some (expires_at a)
  | Sparse _ _ => None
  end.

(** JS truthiness of an optional boolean attribute. *)
Definition truthy (v : option bool) : bool :=
  match v with
  | Some true => true
  | _ => false
  end.

Definition set_revoked (v : bool) (a : Attrs) : Attrs :=
  {| id := id a; user_id := user_id a; expires_at := expires_at a;
     ttl := ttl a; revoked := v; created_at := created_at a;
     last_used_at := last_used_at a |}.

Definition set_last_used_at (t : Z) (a : Attrs) : Attrs :=
  {| id := id a; user_id := user_id a; expires_at := expires_at a;
     ttl := ttl a; revoked := revoked a; created_at := created_at a;
     last_used_at := t |}.

(** ** Exceptions, outcomes and the world *)

Inductive Exn :=
| StoreError                (* a rejected dbClient.send *)
| TypeError                 (* a property read on null or undefined *)
| SignError (name : string) (* an exception thrown by jwt.sign *).

Inductive Outcome (A : Type) :=
| Ok (a : A)
| Throw (e : Exn).
Arguments Ok {A} a.
Arguments Throw {A} e.

Record World := mkWorld {
  table : gmap string Row;
  faults : list bool;
  clock : Z;
  next_uuid : N
}.

Definition with_table (t : gmap string Row) (w : World) : World :=
  {| table := t; faults := faults w; clock := clock w;
     next_uuid := next_uuid w |}.

Definition with_faults (f : list bool) (w : World) : World :=
  {| table := table w; faults := f; clock := clock w;
     next_uuid := next_uuid w |}.

Definition with_clock (c : Z) (w : World) : World :=
  {| table := table w; faults := faults w; clock := c;
     next_uuid := next_uuid w |}.

(** Computations that read and write the world and may throw. *)
Definition M (A : Type) : Type := World -> Outcome A * World.

Definition ret {A} (a : A) : M A := fun w => (Ok a, w).

Definition throw {A} (e : Exn) : M A := fun w => (Throw e, w).

Definition bind {A B} (m : M A) (k : A -> M B) : M B := fun w =>
  match m w with
  | (Ok a, w') => k a w'
  | (Throw e, w') => (Throw e, w')
  end.

(** [try { m } catch (error) { h error }]. *)
Definition try_catch {A} (m : M A) (h : Exn -> M A) : M A := fun w =>
  match m w with
  | (Ok a, w') => (Ok a, w')
  | (Throw e, w') => h e w'
  end.

Declare Scope js_scope.
Delimit Scope js_scope with js.
Notation "'let*' x := m 'in' k" := (bind m (fun x => k))
  (at level 10, x name, m at level 100, k at level 200) : js_scope.
Notation "m ;; k" := (bind m (fun _ => k))
  (at level 100, k at level 200, right associativity) : js_scope.
Local Open Scope js_scope.

(** [new Date()] / [Date.now()]. *)
Definition now : M Z := fun w => (Ok (clock w), w).

(** [crypto.randomUUID()]: a fresh identifier. *)
Definition randomUUID : M N := fun w =>
  (Ok (next_uuid w),
   {| table := table w; faults := faults w; clock := clock w;
      next_uuid := N.succ (next_uuid w) |}).

(** ** The document client *)

(** [await dbClient.send(command)]: consumes one entry of the fault
    schedule; a faulted call rejects and leaves the table as it was. *)
Definition send {A} (command : gmap string Row -> A * gmap string Row) : M A :=
  fun w =>
    match faults w with
    | true :: fs => (Throw StoreError, with_faults fs w)
    | false :: fs =>
        let '(a, t) := command (table w) in
        (Ok a, with_table t (with_faults fs w))
    | [] =>
        let '(a, t) := command (table w) in (Ok a, with_table t w)
    end.

(** PutCommand without a ConditionExpression: the item replaces whatever
    was stored under its key. *)
Definition PutCommand (it : RefreshTokenRecord) (t : gmap string Row)
  : unit * gmap string Row :=
  (tt, <[token_hash it := Complete (attrs it)]> t).

(** GetCommand: [response.Item], undefined when the key is absent. *)
Definition GetCommand (key : string) (t : gmap string Row)
  : option Item * gmap string Row :=
  (mkItem key <$> t !! key, t).

(** The effect of [SET revoked = :revoked] on the row under a key. *)
Definition row_set_revoked (v : bool) (r : option Row) : Row :=
  match r with
  | Some (Complete a) => Complete (set_revoked v a)
  | Some (Sparse _ lu) => Sparse (Some v) lu
  | None => Sparse (Some v) None
  end.

(** The effect of [SET last_used_at = :timestamp]. *)
Definition row_set_last_used_at (ts : Z) (r : option Row) : Row :=
  match r with
  | Some (Complete a) => Complete (set_last_used_at ts a)
  | Some (Sparse rv _) => Sparse rv (Some ts)
  | None => Sparse None (Some ts)
  end.

(** UpdateCommand with [UpdateExpression: 'SET revoked = :revoked'];
    the response carries the new item (ReturnValues ALL_NEW). *)
Definition UpdateCommand_revoked (key : string) (v : bool)
  (t : gmap string Row) : Item * gmap string Row :=
  let r := row_set_revoked v (t !! key) in
  (mkItem key r, <[key := r]> t).

(** UpdateCommand with [UpdateExpression: 'SET last_used_at = :timestamp']. *)
Definition UpdateCommand_last_used_at (key : string) (ts : Z)
  (t : gmap string Row) : Item * gmap string Row :=
  let r := row_set_last_used_at ts (t !! key) in
  (mkItem key r, <[key := r]> t).

(** The items of user_id-index under a partition key.  The index is
    sparse: only rows that have a [user_id] are in it. *)
Definition index_entry (userId : string) (kr : string * Row)
  : option RefreshTokenRecord :=
  match kr.2 with
  | Complete a =>
      if decide (user_id a = userId) then Some (mkRecord kr.1 a) else None
  | Sparse _ _ => None
  end.

(** QueryCommand on user_id-index; [flt] is the optional FilterExpression
    [revoked = :revoked]. *)
Definition QueryCommand (userId : string) (flt : option bool)
  (t : gmap string Row) : list RefreshTokenRecord * gmap string Row :=
  let items := omap (index_entry userId) (map_to_list t) in
  (match flt with
   | Some v => filter (fun it => revoked (attrs it) = v) items
   | None => items
   end, t).

(** [await Promise.all(promises)] over calls that were all issued: every
    call takes effect, and the result rejects when one of them did. *)
Fixpoint promise_all {A} (ps : list (M A)) : M (list A) :=
  match ps with
  | [] => ret []
  | p :: ps' => fun w =>
      let '(r, w1) := p w in
      let '(rs, w2) := promise_all ps' w1 in
      (match r, rs with
       | Ok a, Ok l => Ok (a :: l)
       | Throw e, _ => Throw e
       | Ok _, Throw e => Throw e
       end, w2)
  end.

(** ** Array helpers *)

(** [xs.slice(start)] for an integer [start]: a negative start counts
    from the end of the array. *)
Definition js_slice {A} (xs : list A) (start : Z) : list A :=
  if start <? 0
  then drop (Z.to_nat (Z.max (Z.of_nat (length xs) + start) 0)) xs
  else drop (Z.to_nat start) xs.

(** [xs.sort(cmp)] is a stable sort; [cmp x y <= 0] keeps [x] before
    [y].  Insertion from the right is stable: an element is put before the
    first element it does not have to follow. *)
Fixpoint js_insert {A} (cmp : A -> A -> Z) (x : A) (l : list A) : list A :=
  match l with
  | [] => [x]
  | y :: l' => if cmp x y <=? 0 then x :: y :: l' else y :: js_insert cmp x l'
  end.

Definition js_sort {A} (cmp : A -> A -> Z) (l : list A) : list A :=
  foldr (js_insert cmp) [] l.

(** ** The refresh-token repository *)

Section Repository.

(** [crypto.createHash('sha256').update(token).digest('hex')]. *)
Variable sha256hex : string -> string.

Definition rethrow {A} (error : Exn) : M A := throw error.

(** [timestamp] is read by [new Date()], [issued] by [Date.now()] on the
    next line. *)
Definition createRefreshToken (userId token : string) : M RefreshTokenRecord :=
  try_catch
    (let tokenHash := sha256hex token in
     let* timestamp := now in
     let* issued := now in
     let expiresAt := issued + 7 * 24 * 60 * 60 * 1000 in
     let* uuid := randomUUID in
     let newToken :=
       {| token_hash := tokenHash;
          attrs := {| id := uuid;
                      user_id := userId;
                      expires_at := expiresAt;
                      ttl := expiresAt / 1000;
                      revoked := false;
                      created_at := timestamp;
                      last_used_at := timestamp |} |} in
     send (PutCommand newToken);;
     ret newToken)
    rethrow.

Definition getRefreshToken (token : string) : M (option Item) :=
  try_catch
    (let tokenHash := sha256hex token in
     let* tokenData := send (GetCommand tokenHash) in
     match tokenData with
     | None => ret None
     | Some data =>
         if truthy (row_revoked (item_row data)) then ret None
         else ret (Some data)
     end)
    rethrow.

Definition updateRefreshTokenLastUsed (token : string) : M Item :=
  try_catch
    (let tokenHash := sha256hex token in
     let* timestamp := now in
     send (UpdateCommand_last_used_at tokenHash timestamp))
    rethrow.

Definition revokeRefreshToken (token : string) : M bool :=
  try_catch
    (let tokenHash := sha256hex token in
     send (UpdateCommand_revoked tokenHash true);;
     ret true)
    (fun _ => ret false).

Definition revokeAllUserTokens (userId : string) : M nat :=
  try_catch
    (let* tokens := send (QueryCommand userId None) in
     let revokePromises :=
       map (fun token => send (UpdateCommand_revoked (token_hash token) true))
           (filter (fun token => negb (revoked (attrs token))) tokens) in
     promise_all revokePromises;;
     ret (length tokens))
    rethrow.

(** The comparator of limitUserTokens:
    [new Date(b.created_at) - new Date(a.created_at)]. *)
Definition newest_first (a b : RefreshTokenRecord) : Z :=
  created_at (attrs b) - created_at (attrs a).

Definition limitUserTokens (userId : string) (maxTokens : Z) : M nat :=
  try_catch
    (let* tokens := send (QueryCommand userId (Some false)) in
     let tokens := js_sort newest_first tokens in
     if Z.of_nat (length tokens) >=? maxTokens then
       let tokensToRevoke := js_slice tokens (maxTokens - 1) in
       let revokePromises :=
         map (fun token => send (UpdateCommand_revoked (token_hash token) true))
             tokensToRevoke in
       promise_all revokePromises;;
       ret (length tokensToRevoke)
     else ret 0%nat)
    rethrow.

End Repository.

(** ** The token codec *)

(** The claims this system signs: [{ sub: user.id, email: user.email }]. *)
Record Payload := mkPayload {
  sub : string;
  email : string
}.

Module User.
Record t := mk { id : string; email : string }.
End User.

(** What [jwt.verify] throws.  [ForeignError] stands for any exception
    that is an instance of none of the three jsonwebtoken classes. *)
Inductive JwtError :=
| TokenExpiredError (message : string) (expiredAt : Z)
| JsonWebTokenError (message : string)
| NotBeforeError (message : string) (date : Z)
| ForeignError (name : string).

Inductive JwtVerify :=
| Decoded (claims : Payload)
| Thrown (error : JwtError).

(** The [error] object built by verifyToken. *)
Record ErrorInfo := mkErrorInfo {
  errorName : string;
  errorMessage : string;
  expiredAt : option Z;
  date : option Z
}.

(** The object returned by verifyToken; a missing property is [None]. *)
Record VerifyResult := mkVerifyResult {
  valid : bool;
  payload : option Payload;
  error : option ErrorInfo
}.

(** The body of verifyToken once [jwt.verify] has returned or thrown: the
    [return] of its try block and the three cases of its catch block, with
    [error.name] as the jsonwebtoken classes set it.  [None] is the [null]
    of its last line. *)
Definition classify (r : JwtVerify) (today : Z) : option VerifyResult :=
  match r with
  | Decoded claims =>
      Some {| valid := true; payload := Some claims; error := None |}
  | Thrown (TokenExpiredError message at_) =>
      Some {| valid := true; payload := None;
              error := Some {| errorName := "TokenExpiredError";
                               errorMessage := message;
                               expiredAt := Some at_;
                               date := None |} |}
  | Thrown (JsonWebTokenError message) =>
      Some {| valid := false; payload := None;
              error := Some {| errorName := "JsonWebTokenError";
                               errorMessage := message;
                               expiredAt := None;
                               date := Some today |} |}
  | Thrown (NotBeforeError message d) =>
      Some {| valid := false; payload := None;
              error := Some {| errorName := "NotBeforeError";
                               errorMessage := message;
                               expiredAt := None;
                               date := Some d |} |}
  | Thrown (ForeignError _) => None
  end.

(** ** HTTP replies *)

Inductive Body :=
| ErrorObject (e : option ErrorInfo)            (* res.json(result.error) *)
| ErrorMessage (msg : string) (details : option ErrorInfo)
| ServerError (e : Exn)                         (* the catch-all 500 body *)
| Success.

Record Response := mkResponse {
  status : Z;
  body : Body;
  set_cookie : list (string * string)
}.

(** The outcome of a middleware: it replied, or it called [next()] after
    setting [req.user]. *)
Inductive Handled :=
| Replied (status : Z) (body : Body)
| Next (user : option Payload).

Record Headers := mkHeaders {
  authorization : option string;
  Authorization : option string
}.

(** An optional string when it is truthy: undefined and the empty string
    are falsy. *)
Definition nonempty (a : option string) : option string :=
  match a with
  | Some s => if String.eqb s "" then None else Some s
  | None => None
  end.

(** [a || b] on optional strings. *)
Definition or_else (a b : option string) : option string :=
  match nonempty a with
  | Some s => Some s
  | None => b
  end.

(** [authHeader?.startsWith('Bearer ')], undefined (falsy) on undefined. *)
Definition startsWith (p : string) (s : option string) : bool :=
  match s with
  | Some s => String.prefix p s
  | None => false
  end.

(** [s.substring(n)]. *)
Definition substring_from (n : nat) (s : string) : string :=
  String.substring n (String.length s - n) s.

(** Truthiness of a property that holds an object when it is there. *)
Definition present {A} (o : option A) : bool :=
  match o with
  | Some _ => true
  | None => false
  end.

(** [o.f] where [o] may be null: reading a property of null throws. *)
Definition prop {O A} (o : option O) (f : O -> A) : M A :=
  match o with
  | Some r => ret (f r)
  | None => throw TypeError
  end.

Section Service.

Variable sha256hex : string -> string.

(** [jwt.verify(token, secret)] at a given instant of the clock. *)
Variable jwt_verify : string -> string -> Z -> JwtVerify.

(** [jwt.sign(payload, secret, { expiresIn })] at a given instant. *)
Variable jwt_sign : Payload -> string -> string -> Z -> Outcome string.

(** utils/constants.mjs and the environment. *)
Variable ACCESS_TOKEN_SECRET REFRESH_TOKEN_SECRET : string.
Variable ACCESS_TOKEN_EXPIRY REFRESH_TOKEN_EXPIRY : string.

Definition verifyToken (token secret : string) : M (option VerifyResult) :=
  let* today := now in
  ret (classify (jwt_verify token secret today) today).

Definition generateAccessToken (user : User.t) (secret expiry : string)
  : M string :=
  let* today := now in
  match jwt_sign {| sub := User.id user; email := User.email user |}
                 secret expiry today with
  | Ok s => ret s
  | Throw e => throw e
  end.

Definition generateRefreshToken (user : User.t) (secret expiry : string)
  : M string :=
  let* today := now in
  match jwt_sign {| sub := User.id user; email := User.email user |}
                 secret expiry today with
  | Ok s => ret s
  | Throw e => throw e
  end.

Definition AccessTokenRequired : ErrorInfo :=
  {| errorName := "AccessTokenRequired";
     errorMessage := "Access token is required";
     expiredAt := None; date := None |}.

Definition authenticateRequest (headers : Headers) : M Handled :=
  let authHeader := or_else (authorization headers) (Authorization headers) in
  if negb (startsWith "Bearer " authHeader) then
    ret (Replied 401 (ErrorObject (Some AccessTokenRequired)))
  else
    let token := substring_from 7 (default "" authHeader) in
    let* result := verifyToken token ACCESS_TOKEN_SECRET in
    (* if (result.valid === true && result.error) *)
    let* expired :=
      (let* v := prop result valid in
       if v then (let* e := prop result error in ret (present e))
       else ret false) in
    if expired then
      let* e := prop result error in ret (Replied 401 (ErrorObject e))
    else
      (* if (!result || result.valid === false) *)
      let* invalid :=
        (match result with
         | None => ret true
         | Some _ => let* v := prop result valid in ret (negb v)
         end) in
      if invalid then
        let* e := prop result error in ret (Replied 403 (ErrorObject e))
      else
        let* p := prop result payload in ret (Next p).

(** [new Date(d) < new Date()]: false when [d] is not a date. *)
Definition before (d : option Z) (today : Z) : bool :=
  match d with
  | Some x => x <? today
  | None => false
  end.

Definition reply (code : Z) (msg : string) (details : option ErrorInfo)
  : Response :=
  {| status := code; body := ErrorMessage msg details; set_cookie := [] |}.

(** POST /auth/refresh from its first line to the checks on the stored
    token: either a reply, or the raw token and the payload taken from the
    verification result.  Its only store call is getRefreshToken. *)
Definition refresh_check (cookie : option string)
  : M (Response + string * option Payload) :=
  match nonempty cookie with
  | None => ret (inl (reply 401 "Refresh token not found" None))
  | Some oldRefreshToken =>
      let* result := verifyToken oldRefreshToken REFRESH_TOKEN_SECRET in
      match result with
      | None => ret (inl (reply 403 "Invalid refresh token" None))
      | Some r =>
          if negb (valid r) then
            ret (inl (reply 403 "Invalid or expired refresh token" (error r)))
          else
            let payload := payload r in
            let* storedToken := getRefreshToken sha256hex oldRefreshToken in
            match storedToken with
            | None =>
                ret (inl (reply 403 "Refresh token not found or revoked" None))
            | Some storedToken =>
                let* today := now in
                if before (row_expires_at (item_row storedToken)) today then
                  ret (inl (reply 403 "Refresh token expired" None))
                else ret (inr (oldRefreshToken, payload))
            end
      end
  end.

(** The rest of the route after [await revokeRefreshToken(...)]: the two
    tokens are signed from [payload.sub] and [payload.email], the new
    refresh token is stored and the cookies are set. *)
Definition refresh_issue (payload : option Payload) : M Response :=
  let* id1 := prop payload sub in
  let* email1 := prop payload email in
  let* accessToken :=
    generateAccessToken (User.mk id1 email1)
                        ACCESS_TOKEN_SECRET ACCESS_TOKEN_EXPIRY in
  let* id2 := prop payload sub in
  let* email2 := prop payload email in
  let* newRefreshToken :=
    generateRefreshToken (User.mk id2 email2)
                         REFRESH_TOKEN_SECRET REFRESH_TOKEN_EXPIRY in
  let* owner := prop payload sub in
  createRefreshToken sha256hex owner newRefreshToken;;
  ret {| status := 200; body := Success;
         set_cookie := [("accessToken", accessToken);
                        ("refreshToken", newRefreshToken)] |}.

(** The [catch (error)] of the route. *)
Definition internal_error (error : Exn) : M Response :=
  ret {| status := 500; body := ServerError error; set_cookie := [] |}.

(** app.post('/auth/refresh', ...) given the refreshToken cookie. *)
Definition refresh (cookie : option string) : M Response :=
  try_catch
    (let* checked := refresh_check cookie in
     match checked with
     | inl r => ret r
     | inr (oldRefreshToken, payload) =>
         revokeRefreshToken sha256hex oldRefreshToken;;
         refresh_issue payload
     end)
    internal_error.

(** *** Requests in flight

    A request handler runs without interruption between two [await]s, so
    two refresh requests interleave at the three store calls of the
    route.  A [Task] is a request at one of these points. *)
Inductive Task :=
| Arrived (cookie : option string)
| Checked (oldRefreshToken : string) (payload : option Payload)
| Rotating (payload : option Payload)
| Finished (r : Response).

Definition guarded (m : M Task) (w : World) : Task * World :=
  match m w with
  | (Ok t, w') => (t, w')
  | (Throw e, w') =>
      (Finished {| status := 500; body := ServerError e; set_cookie := [] |},
       w')
  end.

(** One uninterrupted stretch of the route, ending with a store call. *)
Definition task_step (t : Task) : World -> Task * World :=
  match t with
  | Arrived cookie =>
      guarded (let* checked := refresh_check cookie in
               match checked with
               | inl r => ret (Finished r)
               | inr (old, payload) => ret (Checked old payload)
               end)
  | Checked old payload =>
      guarded (revokeRefreshToken sha256hex old;; ret (Rotating payload))
  | Rotating payload =>
      guarded (let* r := refresh_issue payload in ret (Finished r))
  | Finished r => fun w => (Finished r, w)
  end.

(** Two requests under a schedule: a turn lets the first or the second
    request run its next stretch, or lets the clock advance. *)
Inductive Turn :=
| First
| Second
| Tick (ms : Z).

Fixpoint interleave (schedule : list Turn) (a b : Task) (w : World)
  : Task * Task * World :=
  match schedule with
  | [] => (a, b, w)
  | First :: rest =>
      let '(a', w') := task_step a w in interleave rest a' b w'
  | Second :: rest =>
      let '(b', w') := task_step b w in interleave rest a b' w'
  | Tick ms :: rest => interleave rest a b (with_clock (clock w + ms) w)
  end.

End Service.

(** ** A concrete environment for the examples

    The theorems below hold for every digest and every JWT library.  The
    closed examples need one of each: a digest that tags its input, and a
    library that knows one refresh token and one access token of the user
    u1, both issued at second 0, and one string on which it fails with an
    exception that is not one of its three error classes. *)
Module Demo.

Definition digest (s : string) : string := "sha256:" ++ s.

Definition decimal (n : Z) : string :=
  NilZero.string_of_uint (N.to_uint (Z.to_N n)).

(** A signed token: the secret's name, the subject and the second of
    issue.  Like [jwt.sign], signing twice within one second yields the
    same string. *)
Definition mint (secret subject : string) (issued : Z) : string :=
  secret ++ "." ++ subject ++ "." ++ decimal issued.

Definition sign (p : Payload) (secret expiry : string) (today : Z)
  : Outcome string :=
  Ok (mint secret (sub p) (today / 1000)).

Definition alice : Payload := {| sub := "u1"; email := "a@x.com" |}.

Definition week : Z := 7 * 24 * 60 * 60 * 1000.
Definition quarter_hour : Z := 15 * 60 * 1000.

(** A well-formed header followed by a payload segment that is not JSON:
    the library's decoder fails on it with a SyntaxError. *)
Definition not_json : string := "eyJ0eXAiOiJKV1QiLCJhbGciOiJIUzI1NiJ9.eA.x".

Definition verify (token secret : string) (today : Z) : JwtVerify :=
  if String.eqb token (mint "refresh" "u1" 0) && String.eqb secret "refresh"
  then if today <? week then Decoded alice
       else Thrown (TokenExpiredError "jwt expired" week)
  else if String.eqb token (mint "access" "u1" 0) && String.eqb secret "access"
  then if today <? quarter_hour then Decoded alice
       else Thrown (TokenExpiredError "jwt expired" quarter_hour)
  else if String.eqb token not_json then Thrown (ForeignError "SyntaxError")
  else Thrown (JsonWebTokenError "jwt malformed").

Definition refresh : option string -> M Response :=
  refresh digest verify sign "access" "refresh" "15m" "7d".

Definition interleave
  : list Turn -> Task -> Task -> World -> Task * Task * World :=
  interleave digest verify sign "access" "refresh" "15m" "7d".

Definition authenticateRequest : Headers -> M Handled :=
  authenticateRequest verify "access".

(** A complete row of user [u], created at [c], valid for a week. *)
Definition row_of (u : string) (c : Z) (rv : bool) : Row :=
  Complete {| id := 0%N; user_id := u; expires_at := c + week;
              ttl := (c + week) / 1000; revoked := rv;
              created_at := c; last_used_at := c |}.

(** The refresh token of u1, stored 350 ms into second 0. *)
Definition rt : string := mint "refresh" "u1" 0.

Definition one_session : gmap string Row :=
  {[ digest rt := row_of "u1" 350 false ]}.

Definition world (t : gmap string Row) (f : list bool) (c : Z) : World :=
  {| table := t; faults := f; clock := c; next_uuid := 1%N |}.

(** The session just after the expiry of the signed token (second
    604800) and before the expiry of the stored record (350 ms later). *)
Definition signed_expiry_passed : World := world one_session [] (week + 100).

(** The session a second after the stored expiry. *)
Definition expired_session : World := world one_session [] (350 + week + 1000).

(** The same session, already revoked. *)
Definition revoked_session : gmap string Row :=
  {[ digest rt := row_of "u1" 350 true ]}.

(** Two live sessions of u1. *)
Definition two_sessions : gmap string Row :=
  {[ digest "t1" := row_of "u1" 10 false;
     digest "t2" := row_of "u1" 20 false ]}.

(** One revoked and one live session of u1. *)
Definition stale_and_live : gmap string Row :=
  {[ digest "t1" := row_of "u1" 10 true;
     digest "t2" := row_of "u1" 20 false ]}.

(** Seven live sessions of u1, a revoked one, and a session of u2. *)
Definition seven_sessions : gmap string Row :=
  {[ digest "s1" := row_of "u1" 100 false;
     digest "s2" := row_of "u1" 700 false;
     digest "s3" := row_of "u1" 300 false;
     digest "s4" := row_of "u1" 500 false;
     digest "s5" := row_of "u1" 200 false;
     digest "s6" := row_of "u1" 600 false;
     digest "s7" := row_of "u1" 400 false;
     digest "s0" := row_of "u1" 50 true;
     digest "o1" := row_of "u2" 800 false ]}.

End Demo.

(** ** The rest of the repository and of the middlewares *)

(** getUserTokens: the user's records whose [revoked] attribute is
    false. *)
Definition getUserTokens (userId : string) : M (list RefreshTokenRecord) :=
  try_catch
    (let* items := send (QueryCommand userId (Some false)) in
     ret items)
    rethrow.

(** [req.cookies] as the routes read it. *)
Record Cookies := mkCookies {
  accessToken : option string;
  refreshToken : option string
}.

Record Request := mkRequest {
  headers : Headers;
  cookies : Cookies
}.

(** cookieToAuthHeader: a truthy accessToken cookie replaces
    [req.headers.authorization]; the request then goes on to [next()]. *)
Definition cookieToAuthHeader (req : Request) : Request :=
  match nonempty (accessToken (cookies req)) with
  | Some token =>
      {| headers := {| authorization := Some ("Bearer " ++ token);
                       Authorization := Authorization (headers req) |};
         cookies := cookies req |}
  | None => req
  end.

(** *** cleanExpiredTokens

    A Scan reads the table page by page.  Which keys a page evaluates,
    and whether it stops before the end of the table, is the store's
    choice: [scan_page t start] gives the keys evaluated from
    [ExclusiveStartKey: start] and the [LastEvaluatedKey], if any. *)

Record ScanOutput := mkScanOutput {
  Items : list Item;
  LastEvaluatedKey : option string
}.

(** DeleteCommand on the refresh-token table. *)
Definition DeleteCommand (key : string) (t : gmap string Row)
  : unit * gmap string Row :=
  (tt, delete key t).

Section Cleaning.

(** [Date.prototype.toISOString]. *)
Variable toISOString : Z -> string.

Variable scan_page : gmap string Row -> option string
                     -> list string * option string.

(** [FilterExpression: 'expires_at < :now'] with [:now] bound to
    [now.toISOString()]: the stored [expires_at] is the ISO string that
    createRefreshToken wrote, and the store compares the two strings, not
    the instants; a row without the attribute does not match. *)
Definition expired_at (today : Z) (r : Row) : bool :=
  match row_expires_at r with
  | Some e => String.ltb (toISOString e) (toISOString today)
  | None => false
  end.

Definition scanned (today : Z) (t : gmap string Row) (k : string)
  : option Item :=
  match t !! k with
  | Some r => if expired_at today r then Some (mkItem k r) else None
  | None => None
  end.

Definition ScanCommand (today : Z) (start : option string)
  (t : gmap string Row) : ScanOutput * gmap string Row :=
  ({| Items := omap (scanned today t) (scan_page t start).1;
      LastEvaluatedKey := (scan_page t start).2 |}, t).

(** The [do { ... } while (lastEvaluatedKey)] loop; [None] when the
    given number of rounds does not reach its end. *)
Fixpoint clean_pages (rounds : nat) (today : Z) (deletedCount : nat)
  (lastEvaluatedKey : option string) : M (option nat) :=
  match rounds with
  | O => ret None
  | S rounds' =>
      let* scanResponse := send (ScanCommand today lastEvaluatedKey) in
      let expiredTokens := Items scanResponse in
      let deletePromises :=
        map (fun token => send (DeleteCommand (item_hash token)))
            expiredTokens in
      promise_all deletePromises;;
      let deletedCount := (deletedCount + length expiredTokens)%nat in
      match LastEvaluatedKey scanResponse with
      | Some key => clean_pages rounds' today deletedCount (Some key)
      | None => ret (Some deletedCount)
      end
  end.

Definition cleanExpiredTokens (rounds : nat) : M (option nat) :=
  try_catch
    (let* today := now in
     clean_pages rounds today 0%nat None)
    rethrow.

End Cleaning.

(** ** Vocabulary of the statements *)

(** The next call to the store will be rejected. *)
Definition rejects (w : World) : bool :=
  match faults w with
  | true :: _ => true
  | _ => false
  end.

(** The world once a call has consumed its entry of the schedule. *)
Definition after_call (w : World) : World := with_faults (tail (faults w)) w.

(** The world once [crypto.randomUUID] has been called. *)
Definition after_uuid (w : World) : World :=
  {| table := table w; faults := faults w; clock := clock w;
     next_uuid := N.succ (next_uuid w) |}.

(** The three outcomes the specification gives to the codec's verify, read
    on what verifyToken returns: valid with its claims; expired with
    both the claims and the expiry instant; invalid with a reason. *)
Definition is_Valid (o : option VerifyResult) : Prop :=
  exists claims, o = Some {| valid := true; payload := Some claims; error := None |}.

Definition is_ExpiredButWellFormed (o : option VerifyResult) : Prop :=
  exists r claims e instant,
    o = Some r /\ payload r = Some claims /\ error r = Some e /\
    expiredAt e = Some instant.

Definition is_Invalid (o : option VerifyResult) : Prop :=
  exists r e, o = Some r /\ valid r = false /\ error r = Some e.

Definition three_way (o : option VerifyResult) : Prop :=
  is_Valid o \/ is_ExpiredButWellFormed o \/ is_Invalid o.

(** The row that createRefreshToken writes for [userId] in world [w]. *)
Definition fresh_attrs (userId : string) (w : World) : Attrs :=
  {| id := next_uuid w;
     user_id := userId;
     expires_at := clock w + 7 * 24 * 60 * 60 * 1000;
     ttl := (clock w + 7 * 24 * 60 * 60 * 1000) / 1000;
     revoked := false;
     created_at := clock w;
     last_used_at := clock w |}.

(** The table after [SET revoked = true] under each key of a list. *)
Definition revoke_key (t : gmap string Row) (k : string) : gmap string Row :=
  <[k := row_set_revoked true (t !! k)]> t.

Definition revoke_keys (ks : list string) (t : gmap string Row)
  : gmap string Row :=
  foldl revoke_key t ks.

(** One of the next [n] calls to the store will be rejected. *)
Definition rejected_among (n : nat) (w : World) : bool :=
  existsb (fun b => b) (take n (faults w)).

(** The world once [n] calls have consumed their entries. *)
Definition after_calls (n : nat) (w : World) : World :=
  with_faults (drop n (faults w)) w.

(** The table after the revoke updates of a [Promise.all] issued under
    the schedule [fs]: an update takes effect unless its call is
    rejected. *)
Fixpoint revoke_accepted (ks : list string) (fs : list bool)
  (t : gmap string Row) : gmap string Row :=
  match ks with
  | [] => t
  | k :: ks' =>
      match fs with
      | true :: fs' => revoke_accepted ks' fs' t
      | false :: fs' => revoke_accepted ks' fs' (revoke_key t k)
      | [] => revoke_accepted ks' [] (revoke_key t k)
      end
  end.

(** The user's records as the index returns them, and those of them that
    are not revoked. *)
Definition records_of (userId : string) (t : gmap string Row)
  : list RefreshTokenRecord :=
  (QueryCommand userId None t).1.

Definition active_of (userId : string) (t : gmap string Row)
  : list RefreshTokenRecord :=
  (QueryCommand userId (Some false) t).1.

(** The replies of the refresh route to a token the store does not know
    as active, and to an exception. *)
Definition not_found : Response :=
  {| status := 403;
     body := ErrorMessage "Refresh token not found or revoked" None;
     set_cookie := [] |}.

Definition server_error (e : Exn) : Response :=
  {| status := 500; body := ServerError e; set_cookie := [] |}.

(** Newest first: no record is followed by a more recent one. *)
Definition newer_or_same (a b : RefreshTokenRecord) : Prop :=
  created_at (attrs b) <= created_at (attrs a).

(** ** The users table, the user repository and the other routes

    The users table is a second table behind the same document client:
    its calls consume the same fault schedule.  [bcrypt] is part of the
    environment, like the JWT library; the salts it draws are a field of
    the state.  Timestamps are instants of the clock, of which the ISO
    strings of the code are the images.  createUser is the only writer of
    the table among the routes, so an item has the attributes that
    createUser writes. *)

Module Account.

(** The attributes createUser writes beside the key [id]. *)
Record attrs := mkAttrs {
  email : string;
  password : string;
  name : string;
  created_at : Z;
  updated_at : Z
}.

(** A user item: [newUser] of createUser, [response.Item] of a read. *)
Record t := mk {
  id : string;
  fields : attrs
}.

(** [userWithoutPassword]: the item without its [password]. *)
Record public := mkPublic {
  public_id : string;
  public_email : string;
  public_name : string;
  public_created_at : Z;
  public_updated_at : Z
}.

Definition without_password (u : t) : public :=
  {| public_id := id u;
     public_email := email (fields u);
     public_name := name (fields u);
     public_created_at := created_at (fields u);
     public_updated_at := updated_at (fields u) |}.

End Account.

(** [userData] of createUser and the body of POST /auth/register. *)
Record NewUser := mkNewUser {
  new_email : string;
  new_password : string;
  new_name : string
}.

Record Site := mkSite {
  users : gmap string Account.attrs;
  salts : list string;
  store : World
}.

Definition with_store (w : World) (s : Site) : Site :=
  {| users := users s; salts := salts s; store := w |}.

Definition with_users (u : gmap string Account.attrs) (s : Site) : Site :=
  {| users := u; salts := salts s; store := store s |}.

(** What the code running over both tables can throw. *)
Inductive Failure :=
| Raised (e : Exn)
| ConditionalCheckFailed   (* a PutCommand whose condition does not hold *)
| SyntaxError              (* JSON.parse *)
| ValidationException      (* a Query whose key value has the wrong type *).

Inductive Result (A : Type) :=
| Done (a : A)
| Failed (e : Failure).
Arguments Done {A} a.
Arguments Failed {A} e.

Definition Act (A : Type) : Type := Site -> Result A * Site.

Definition act_ret {A} (a : A) : Act A := fun s => (Done a, s).

Definition act_throw {A} (e : Failure) : Act A := fun s => (Failed e, s).

Definition act_bind {A B} (m : Act A) (k : A -> Act B) : Act B := fun s =>
  match m s with
  | (Done a, s') => k a s'
  | (Failed e, s') => (Failed e, s')
  end.

(** [try { m } catch (error) { h error }]. *)
Definition act_catch {A} (m : Act A) (h : Failure -> Act A) : Act A := fun s =>
  match m s with
  | (Done a, s') => (Done a, s')
  | (Failed e, s') => h e s'
  end.

(** An operation of the refresh-token side, run within the site. *)
Definition in_store {A} (m : M A) : Act A := fun s =>
  match m (store s) with
  | (Ok a, w) => (Done a, with_store w s)
  | (Throw e, w) => (Failed (Raised e), with_store w s)
  end.

Declare Scope act_scope.
Delimit Scope act_scope with act.
Notation "'let*' x := m 'in' k" := (act_bind m (fun x => k))
  (at level 10, x name, m at level 100, k at level 200) : act_scope.
Notation "m ;; k" := (act_bind m (fun _ => k))
  (at level 100, k at level 200, right associativity) : act_scope.

(** [await dbClient.send(command)] for a command on the users table. *)
Definition send_users {A}
  (command : gmap string Account.attrs -> Result A * gmap string Account.attrs)
  : Act A :=
  fun s =>
    match faults (store s) with
    | true :: fs =>
        (Failed (Raised StoreError), with_store (with_faults fs (store s)) s)
    | false :: fs =>
        let '(r, u) := command (users s) in
        (r, with_users u (with_store (with_faults fs (store s)) s))
    | [] =>
        let '(r, u) := command (users s) in (r, with_users u s)
    end.

(** GetCommand on the users table. *)
Definition GetUser (id : string) (u : gmap string Account.attrs)
  : Result (option Account.t) * gmap string Account.attrs :=
  (Done (Account.mk id <$> u !! id), u).

(** The items of email-index under a partition key. *)
Definition email_entry (email : string) (kv : string * Account.attrs)
  : option Account.t :=
  if decide (Account.email kv.2 = email) then Some (Account.mk kv.1 kv.2)
  else None.

(** QueryCommand on email-index with [Limit: 1].  Which item comes first
    when several have the address is the store's choice; the statements
    below do not depend on it. *)
Definition QueryUserByEmail (email : string) (u : gmap string Account.attrs)
  : Result (list Account.t) * gmap string Account.attrs :=
  (Done (take 1 (omap (email_entry email) (map_to_list u))), u).

(** PutCommand with [ConditionExpression: 'attribute_not_exists(id)']. *)
Definition PutNewUser (item : Account.t) (u : gmap string Account.attrs)
  : Result unit * gmap string Account.attrs :=
  match u !! Account.id item with
  | Some _ => (Failed ConditionalCheckFailed, u)
  | None => (Done tt, <[Account.id item := Account.fields item]> u)
  end.

(** DeleteCommand on the users table. *)
Definition DeleteUser (id : string) (u : gmap string Account.attrs)
  : Result unit * gmap string Account.attrs :=
  (Done tt, delete id u).

(** The text of a [crypto.randomUUID()] identifier. *)
Definition uuid_text (n : N) : string :=
  NilZero.string_of_uint (N.to_uint n).

(** [extractUserInfo]. *)
Record UserInfo := mkUserInfo {
  info_email : string;
  info_name : string
}.

Definition extractUserInfo (user : Account.t) : UserInfo :=
  {| info_email := Account.email (Account.fields user);
     info_name := Account.name (Account.fields user) |}.

Definition extractPublicInfo (user : Account.public) : UserInfo :=
  {| info_email := Account.public_email user;
     info_name := Account.public_name user |}.

(** The JSON bodies of the routes. *)
(** An entry of [errors.array()]: the field and the message. *)
Record ValidationError := mkValidationError {
  error_path : string;
  error_msg : string
}.

Inductive Json :=
| JsonError (error : string)
| JsonErrors (errors : list ValidationError)
| JsonUnknownError (e : Failure)
| JsonGuard (b : Body)
| JsonUser (user : UserInfo)
| JsonLogin (token : string) (user : UserInfo)
| JsonProtected (authenticatedAt : Z) (user : UserInfo).

Record Reply := mkReply {
  code : Z;
  json : Json;
  setCookie : list (string * string)
}.

Definition answer (c : Z) (j : Json) : Reply :=
  {| code := c; json := j; setCookie := [] |}.

(** The [catch (error)] of the express routes. *)
Definition unknown_error (error : Failure) : Act Reply :=
  act_ret (answer 500 (JsonUnknownError error)).

Section Accounts.

Local Open Scope act_scope.

Variable sha256hex : string -> string.
Variable jwt_verify : string -> string -> Z -> JwtVerify.
Variable jwt_sign : Payload -> string -> string -> Z -> Outcome string.
Variable ACCESS_TOKEN_SECRET REFRESH_TOKEN_SECRET : string.
Variable ACCESS_TOKEN_EXPIRY REFRESH_TOKEN_EXPIRY : string.

(** [bcrypt.hash(password, rounds)] with the salt it draws, and
    [bcrypt.compare(password, hash)]. *)
Variable bcrypt_hash : string -> nat -> string -> string.
Variable bcrypt_compare : string -> string -> bool.

Definition act_rethrow {A} (error : Failure) : Act A := act_throw error.

Definition hash_password (password : string) (rounds : nat) : Act string :=
  fun s =>
    match salts s with
    | salt :: rest =>
        (Done (bcrypt_hash password rounds salt),
         {| users := users s; salts := rest; store := store s |})
    | [] => (Done (bcrypt_hash password rounds ""), s)
    end.

Definition getUserById (id : string) : Act (option Account.t) :=
  act_catch (send_users (GetUser id)) act_rethrow.

Definition getUserByEmail (email : string) : Act (option Account.t) :=
  act_catch
    (let* items := send_users (QueryUserByEmail email) in
     act_ret (head items))
    act_rethrow.

Definition createUser (userData : NewUser) : Act Account.public :=
  act_catch
    (let* uuid := in_store randomUUID in
     let id := uuid_text uuid in
     let* timestamp := in_store now in
     let* hashedPassword := hash_password (new_password userData) 10 in
     let newUser :=
       Account.mk id
         {| Account.email := new_email userData;
            Account.password := hashedPassword;
            Account.name := new_name userData;
            Account.created_at := timestamp;
            Account.updated_at := timestamp |} in
     send_users (PutNewUser newUser);;
     act_ret (Account.without_password newUser))
    act_rethrow.

Definition deleteUser (id : string) : Act bool :=
  act_catch
    (send_users (DeleteUser id);;
     act_ret true)
    act_rethrow.

(** *** Request validation (utils/validation.mjs)

    The chains of express-validator run before the route's callback.
    Every validator of a chain runs, each failure adds its message to
    the errors, and the sanitizers write their result back into
    [req.body].  [trim], [isEmail] and [normalizeEmail] are those of
    validator.js; [normalizeEmail] answers [false] on a few addresses,
    which is [None] here.  A member that is missing from the body reads
    as the empty string, as the validators read it.  Strings hold one
    character per element. *)

Variable trim : string -> string.
Variable isEmail : string -> bool.
Variable normalizeEmail : string -> option string.

(** [isLength({ min, max })]. *)
Definition isLength (min : nat) (max : option nat) (s : string) : bool :=
  (min <=? String.length s)%nat
  && match max with
     | Some m => (String.length s <=? m)%nat
     | None => true
     end.

(** [notEmpty()]. *)
Definition notEmpty (s : string) : bool := negb (String.eqb s "").

Definition is_lower (c : ascii) : bool :=
  (("a" <=? c) && (c <=? "z"))%char.
Definition is_upper (c : ascii) : bool :=
  (("A" <=? c) && (c <=? "Z"))%char.
Definition is_digit (c : ascii) : bool :=
  (("0" <=? c) && (c <=? "9"))%char.

(** What [.*] can run over from the start of a string: the characters
    before the first line terminator. *)
Fixpoint first_line (s : string) : list ascii :=
  match s with
  | EmptyString => []
  | String c rest =>
      if (Ascii.eqb c "010" || Ascii.eqb c "013")%char then []
      else c :: first_line rest
  end.

(** [matches(/^(?=.*[a-z])(?=.*[A-Z])(?=.*\d)/)]. *)
Definition matches_password (s : string) : bool :=
  existsb is_lower (first_line s)
  && existsb is_upper (first_line s)
  && existsb is_digit (first_line s).

Definition failing (ok : bool) (path msg : string) : list ValidationError :=
  if ok then [] else [mkValidationError path msg].

(** [body('email').trim().isEmail().withMessage(...).normalizeEmail()]:
    the errors and the sanitized member. *)
Definition validate_email (email : string)
  : list ValidationError * option string :=
  let trimmed := trim email in
  (failing (isEmail trimmed) "email" "Must be a valid email address",
   normalizeEmail trimmed).

(** req.body after the sanitizers. *)
Record Sanitized := mkSanitized {
  body_email : option string;
  body_password : string;
  body_name : string
}.

Definition registerValidation (body : NewUser)
  : list ValidationError * Sanitized :=
  let name := trim (new_name body) in
  ((validate_email (new_email body)).1
   ++ failing (isLength 8 None (new_password body)) "password"
        "Password must be at least 8 characters long"
   ++ failing (matches_password (new_password body)) "password"
        "Password must contain at least one uppercase letter, one lowercase letter, and one number"
   ++ failing (notEmpty name) "name" "Name is required"
   ++ failing (isLength 2 (Some 100%nat) name) "name"
        "Name must be between 2 and 100 characters",
   {| body_email := (validate_email (new_email body)).2;
      body_password := new_password body;
      body_name := name |})%list.

Definition loginValidation (email password : string)
  : list ValidationError * Sanitized :=
  ((validate_email email).1
   ++ failing (notEmpty password) "password" "Password is required",
   {| body_email := (validate_email email).2;
      body_password := password;
      body_name := "" |})%list.

(** handleValidationErrors: 400 with the errors, or [next()]. *)
Definition handleValidationErrors (errors : list ValidationError)
  (next : Act Reply) : Act Reply :=
  match errors with
  | [] => next
  | _ :: _ => act_ret (answer 400 (JsonErrors errors))
  end.

(** A Query on email-index whose [:email] is not a string (the [false]
    of normalizeEmail): the store answers with a ValidationException. *)
Definition QueryMistyped {A} (u : gmap string Account.attrs)
  : Result A * gmap string Account.attrs :=
  (Failed ValidationException, u).

(** The callback of app.post('/auth/register', ...), on the sanitized
    body. *)
Definition register_handler (body : Sanitized) : Act Reply :=
  act_catch
    (match body_email body with
     | Some email =>
         let* existingUser := getUserByEmail email in
         match existingUser with
         | Some _ =>
             act_ret (answer 400
               (JsonError "This email is associated with an existing account"))
         | None =>
             let* user :=
               createUser {| new_email := email;
                             new_password := body_password body;
                             new_name := body_name body |} in
             act_ret (answer 200 (JsonUser (extractPublicInfo user)))
         end
     | None => act_catch (send_users QueryMistyped) act_rethrow
     end)
    unknown_error.

(** app.post('/auth/register', registerValidation, ...). *)
Definition register (body : NewUser) : Act Reply :=
  let '(errors, sanitized) := registerValidation body in
  handleValidationErrors errors (register_handler sanitized).

(** The callback of app.post('/auth/login', ...), on the sanitized
    body. *)
Definition login_handler (body : Sanitized) : Act Reply :=
  act_catch
    (match body_email body with
     | Some email =>
         let password := body_password body in
         let* user := getUserByEmail email in
         match user with
         | None => act_ret (answer 401 (JsonError "Invalid credentials"))
         | Some user =>
             let passwordMatch :=
               bcrypt_compare password
                 (Account.password (Account.fields user)) in
             if negb passwordMatch then
               act_ret (answer 401 (JsonError "Invalid credentials"))
             else
               in_store (revokeAllUserTokens (Account.id user));;
               let subject :=
                 User.mk (Account.id user)
                         (Account.email (Account.fields user)) in
               let* accessToken :=
                 in_store (generateAccessToken jwt_sign subject
                             ACCESS_TOKEN_SECRET ACCESS_TOKEN_EXPIRY) in
               let* refreshToken :=
                 in_store (generateRefreshToken jwt_sign subject
                             REFRESH_TOKEN_SECRET REFRESH_TOKEN_EXPIRY) in
               in_store (createRefreshToken sha256hex (Account.id user)
                           refreshToken);;
               act_ret {| code := 200;
                          json := JsonLogin accessToken
                                    (extractUserInfo user);
                          setCookie := [("accessToken", accessToken);
                                        ("refreshToken", refreshToken)] |}
         end
     | None => act_catch (send_users QueryMistyped) act_rethrow
     end)
    unknown_error.

(** app.post('/auth/login', loginValidation, ...). *)
Definition login (email password : string) : Act Reply :=
  let '(errors, sanitized) := loginValidation email password in
  handleValidationErrors errors (login_handler sanitized).

(** app.get('/api/protected-test', cookieToAuthHeader, authenticateRequest,
    ...): the middlewares run before the handler and outside its
    try/catch; cookieToAuthHeader is also installed for every route. *)
Definition protectedTest (req : Request) : Act Reply :=
  let req := cookieToAuthHeader (cookieToAuthHeader req) in
  let* handled :=
    in_store (authenticateRequest jwt_verify ACCESS_TOKEN_SECRET
                                  (headers req)) in
  match handled with
  | Replied c b => act_ret (answer c (JsonGuard b))
  | Next reqUser =>
      act_catch
        (let* address :=
           match reqUser with
           | Some claims => act_ret (email claims)
           | None => act_throw (Raised TypeError)
           end in
         let* user := getUserByEmail address in
         match user with
         | None => act_ret (answer 404 (JsonError "User not found"))
         | Some user =>
             let* today := in_store now in
             act_ret (answer 200 (JsonProtected today (extractUserInfo user)))
         end)
        unknown_error
  end.

End Accounts.

(** The items a Scan of the whole table returns under the filter of
    cleanExpiredTokens, and the table without the rows under some keys. *)
Definition expired_rows (toISOString : Z -> string) (today : Z)
  (t : gmap string Row) : list Item :=
  omap (fun kr => if expired_at toISOString today kr.2
                  then Some (mkItem kr.1 kr.2) else None)
       (map_to_list t).

Definition delete_keys (ks : list string) (t : gmap string Row)
  : gmap string Row :=
  foldl (fun t k => delete k t) t ks.

(** The user email-index returns for an address, and the site once a
    call has consumed its entry of the schedule. *)
Definition user_by_email (email : string) (u : gmap string Account.attrs)
  : option Account.t :=
  head (omap (email_entry email) (map_to_list u)).

Definition after_site_call (s : Site) : Site :=
  with_store (after_call (store s)) s.

(** The item createUser builds from [userData] in a site. *)
Definition new_attrs (hash : string -> nat -> string -> string)
  (userData : NewUser) (s : Site) : Account.attrs :=
  {| Account.email := new_email userData;
     Account.password :=
       hash (new_password userData) 10%nat (default "" (head (salts s)));
     Account.name := new_name userData;
     Account.created_at := clock (store s);
     Account.updated_at := clock (store s) |}.

(** ** The Lambda handler of auth-login

    The handler imports its repository and token functions from the layer
    under /opt/nodejs; db/index.js exports the functions above under
    [userDB] and [refreshTokenDB].  [createCookieHeader] comes from a
    module of the layer that is not modelled, and [JSON.parse] belongs to
    the runtime: both are variables.  A parsed body is [null] or a value
    whose [email] and [password] members are strings, if it has them. *)

Module Lambda.

Inductive parsed :=
| JsonNull
| JsonValue (email password : option string).

Inductive payload :=
| Error (error : string)
| LoginFailed (message : Failure)
| LoginSuccessful (access : string) (user : Account.public).

Record response := mkResponse {
  statusCode : Z;
  set_cookie_header : option string;
  body : payload
}.

Definition plain (c : Z) (b : payload) : response :=
  {| statusCode := c; set_cookie_header := None; body := b |}.

Section Handler.

Local Open Scope act_scope.

Variable sha256hex : string -> string.
Variable jwt_sign : Payload -> string -> string -> Z -> Outcome string.
Variable ACCESS_TOKEN_SECRET REFRESH_TOKEN_SECRET : string.
Variable JSON_parse : string -> option parsed.
Variable createCookieHeader : string -> string -> Z -> string.

Definition ACCESS_TOKEN_EXPIRY : string := "15m".
Definition REFRESH_TOKEN_EXPIRY : string := "7d".

Definition handler (event_body : option string) : Act response :=
  act_catch
    (let* body :=
       match JSON_parse (default "{}" (nonempty event_body)) with
       | Some v => act_ret v
       | None => act_throw SyntaxError
       end in
     let* members :=
       match body with
       | JsonValue email password => act_ret (email, password)
       | JsonNull => act_throw (Raised TypeError)
       end in
     match nonempty members.1, nonempty members.2 with
     | Some email, Some password =>
         let* user := getUserByEmail email in
         match user with
         | None => act_ret (plain 401 (Error "Invalid credentials"))
         | Some user =>
             if negb (String.eqb (Account.password (Account.fields user))
                                 password) then
               act_ret (plain 401 (Error "Invalid credentials"))
             else
               in_store (revokeAllUserTokens (Account.id user));;
               let subject :=
                 User.mk (Account.id user)
                         (Account.email (Account.fields user)) in
               let* accessToken :=
                 in_store (generateAccessToken jwt_sign subject
                             ACCESS_TOKEN_SECRET ACCESS_TOKEN_EXPIRY) in
               let* refreshToken :=
                 in_store (generateRefreshToken jwt_sign subject
                             REFRESH_TOKEN_SECRET REFRESH_TOKEN_EXPIRY) in
               in_store (createRefreshToken sha256hex (Account.id user)
                           refreshToken);;
               let userWithoutPassword := Account.without_password user in
               let accessTokenCookie :=
                 createCookieHeader "accessToken" accessToken (15 * 60) in
               let refreshTokenCookie :=
                 createCookieHeader "refreshToken" refreshToken
                                    (7 * 24 * 60 * 60) in
               act_ret
                 {| statusCode := 200;
                    set_cookie_header :=
                      Some (accessTokenCookie ++ ", " ++ refreshTokenCookie);
                    body := LoginSuccessful accessToken userWithoutPassword |}
         end
     | _, _ => act_ret (plain 400 (Error "Email and password are required"))
     end)
    (fun error => act_ret (plain 500 (LoginFailed error))).

End Handler.

End Lambda.

(** ** A concrete site for the examples *)

Module DemoSite.

(** A toy hash that prefixes the salt; [compare] recomputes it from the
    salt stored in the first two characters. *)
Definition hash (password : string) (rounds : nat) (salt : string) : string :=
  String.substring 0 2 (salt ++ "..") ++ "$" ++ password.

Definition compare (password stored : string) : bool :=
  String.eqb stored (String.substring 0 3 stored ++ password).

Definition site (u : gmap string Account.attrs) (t : gmap string Row)
  (f : list bool) : Site :=
  {| users := u; salts := ["s1"; "s2"];
     store := {| table := t; faults := f; clock := 1000; next_uuid := 7%N |} |}.

Definition bob : Account.attrs :=
  {| Account.email := "b@x.com"; Account.password := hash "hunter2" 10 "s0";
     Account.name := "Bob"; Account.created_at := 0;
     Account.updated_at := 0 |}.

Definition ann : NewUser :=
  {| new_email := "a@x.com"; new_password := "correct horse";
     new_name := "Ann" |}.

Definition parse (text : string) : option Lambda.parsed :=
  if String.eqb text "{}" then Some (Lambda.JsonValue None None)
  else if String.eqb text "null" then Some Lambda.JsonNull
  else if String.eqb text "bob" then
    Some (Lambda.JsonValue (Some "b@x.com") (Some "hunter2"))
  else if String.eqb text "bob, hashed" then
    Some (Lambda.JsonValue (Some "b@x.com") (Some (hash "hunter2" 10 "s0")))
  else if String.eqb text "ann" then
    Some (Lambda.JsonValue (Some "a@x.com") (Some "correct horse"))
  else None.

Definition cookie (name value : string) (maxAge : Z) : string :=
  name ++ "=" ++ value.

(** Stand-ins for validator.js that agree with it on the addresses and
    names of the examples: [trim] removes the blanks at both ends,
    [isEmail] wants an at sign, a dot and no blank, [normalizeEmail]
    lowercases. *)
Definition is_space (c : ascii) : bool :=
  (Ascii.eqb c " " || (("009" <=? c) && (c <=? "013")))%char.

Fixpoint ltrim (l : list ascii) : list ascii :=
  match l with
  | c :: rest => if is_space c then ltrim rest else l
  | [] => []
  end.

Definition trim (s : string) : string :=
  string_of_list_ascii
    (rev (ltrim (rev (ltrim (list_ascii_of_string s))))).

Definition isEmail (s : string) : bool :=
  existsb (Ascii.eqb "@") (list_ascii_of_string s)
  && existsb (Ascii.eqb ".") (list_ascii_of_string s)
  && negb (existsb is_space (list_ascii_of_string s)).

Definition lower (c : ascii) : ascii :=
  if is_upper c then ascii_of_nat (nat_of_ascii c + 32) else c.

Definition normalizeEmail (s : string) : option string :=
  Some (string_of_list_ascii (map lower (list_ascii_of_string s))).

Definition carol : NewUser :=
  {| new_email := " Carol@x.com "; new_password := "Correct horse 1";
     new_name := " Carol " |}.

(** A verifier that knows the refresh token signed for Bob in second 1. *)
Definition verify (token secret : string) (today : Z) : JwtVerify :=
  if String.eqb token (Demo.mint "refresh" "u0" 1)
  then Decoded {| sub := "u0"; email := "b@x.com" |}
  else Thrown (JsonWebTokenError "jwt malformed").

(** [toISOString] for the instants that [Date] can hold: the civil date
    of the day, four digits for the years 0 to 9999 and a sign with six
    digits for the others. *)
Definition pad (width : nat) (n : Z) : string :=
  let digits := Demo.decimal n in
  String.concat "" (repeat "0" (width - String.length digits)) ++ digits.

Definition civil (days : Z) : Z * Z * Z :=
  let z := days + 719468 in
  let era := z / 146097 in
  let doe := z - era * 146097 in
  let yoe := (doe - doe / 1460 + doe / 36524 - doe / 146096) / 365 in
  let doy := doe - (365 * yoe + yoe / 4 - yoe / 100) in
  let mp := (5 * doy + 2) / 153 in
  let d := doy - (153 * mp + 2) / 5 + 1 in
  let m := if mp <? 10 then mp + 3 else mp - 9 in
  (yoe + era * 400 + (if m <=? 2 then 1 else 0), m, d).

Definition toISOString (ms : Z) : string :=
  let rest := ms mod 86400000 in
  let '(y, m, d) := civil (ms / 86400000) in
  (if (0 <=? y) && (y <=? 9999) then pad 4 y
   else (if y <? 0 then "-" else "+") ++ pad 6 (Z.abs y))
  ++ "-" ++ pad 2 m ++ "-" ++ pad 2 d
  ++ "T" ++ pad 2 (rest / 3600000) ++ ":" ++ pad 2 (rest / 60000 mod 60)
  ++ ":" ++ pad 2 (rest / 1000 mod 60) ++ "." ++ pad 3 (rest mod 1000)
  ++ "Z".

(** A row of u1 that expires in the year 10000. *)
Definition far_session : gmap string Row :=
  {[ Demo.digest "far" :=
       Complete {| id := 0%N; user_id := "u1";
                   expires_at := 253402300800000;
                   ttl := 253402300800; revoked := false;
                   created_at := 253401696000000;
                   last_used_at := 253401696000000 |} ]}.

(** A Scan that evaluates the whole table in one page. *)
Definition one_page (t : gmap string Row) (start : option string)
  : list string * option string :=
  ((map_to_list t).*1, None).

End DemoSite.

(** * Properties *)

(** ** The document client and the monad *)

Lemma with_table_same w : with_table (table w) w = w.
Proof. by destruct w. Qed.

Lemma after_call_healthy w : faults w = [] -> after_call w = w.
Proof. destruct w as [t f c n]; simpl; intros ->; reflexivity. Qed.

Lemma send_eq {A} (command : gmap string Row -> A * gmap string Row) w :
  send command w =
  if rejects w then (Throw StoreError, after_call w)
  else (Ok (command (table w)).1,
        with_table (command (table w)).2 (after_call w)).
Proof.
  destruct w as [t f c n]; unfold send, rejects, after_call; simpl.
  destruct f as [|[] fs]; simpl; try reflexivity;
    destruct (command t) as [a t']; reflexivity.
Qed.

Section RepositoryFacts.

Variable sha256hex : string -> string.

Lemma getRefreshToken_eq token w :
  getRefreshToken sha256hex token w =
  if rejects w then (Throw StoreError, after_call w)
  else (Ok (match table w !! sha256hex token with
            | Some r => if truthy (row_revoked r) then None
                        else Some (mkItem (sha256hex token) r)
            | None => None
            end), after_call w).
Proof.
  unfold getRefreshToken, try_catch, bind, rethrow, throw.
  rewrite send_eq. destruct (rejects w); [reflexivity|].
  unfold GetCommand; simpl.
  replace (with_table (table w) (after_call w)) with (after_call w)
    by (by destruct w).
  destruct (table w !! sha256hex token) as [r|]; simpl; [|reflexivity].
  destruct (truthy (row_revoked r)); reflexivity.
Qed.

Lemma revokeRefreshToken_eq token w :
  revokeRefreshToken sha256hex token w =
  if rejects w then (Ok false, after_call w)
  else (Ok true,
        with_table (revoke_key (table w) (sha256hex token)) (after_call w)).
Proof.
  unfold revokeRefreshToken, try_catch, bind, ret.
  rewrite send_eq. destruct (rejects w); reflexivity.
Qed.

Lemma createRefreshToken_eq userId token w :
  createRefreshToken sha256hex userId token w =
  if rejects w then (Throw StoreError, after_call (after_uuid w))
  else (Ok (mkRecord (sha256hex token) (fresh_attrs userId w)),
        with_table (<[sha256hex token := Complete (fresh_attrs userId w)]>
                      (table w))
                   (after_call (after_uuid w))).
Proof.
  unfold createRefreshToken, try_catch, bind, rethrow, throw, now, randomUUID.
  rewrite send_eq. fold (after_uuid w).
  replace (rejects (after_uuid w)) with (rejects w) by reflexivity.
  destruct (rejects w); reflexivity.
Qed.

Lemma updateRefreshTokenLastUsed_eq token w :
  updateRefreshTokenLastUsed sha256hex token w =
  if rejects w then (Throw StoreError, after_call w)
  else (Ok (mkItem (sha256hex token)
              (row_set_last_used_at (clock w) (table w !! sha256hex token))),
        with_table (<[sha256hex token :=
                        row_set_last_used_at (clock w)
                          (table w !! sha256hex token)]> (table w))
                   (after_call w)).
Proof.
  unfold updateRefreshTokenLastUsed, try_catch, bind, rethrow, throw, now.
  rewrite send_eq. destruct (rejects w); reflexivity.
Qed.

End RepositoryFacts.

(** ** Bulk updates *)

Lemma rejected_among_0 w : rejected_among 0 w = false.
Proof. reflexivity. Qed.

Lemma rejected_among_S n w :
  rejected_among (S n) w = rejects w || rejected_among n (after_call w).
Proof.
  destruct w as [t f c u]; unfold rejected_among, rejects; simpl.
  destruct f as [|[] fs]; simpl; try reflexivity.
  by destruct n.
Qed.

Lemma after_calls_0 w : after_calls 0 w = w.
Proof. by destruct w. Qed.

Lemma after_calls_S n w : after_calls (S n) w = after_calls n (after_call w).
Proof.
  destruct w as [t f c u]; unfold after_calls, after_call, with_faults; simpl.
  destruct f; simpl; [by destruct n | reflexivity].
Qed.

Lemma revoke_accepted_step k ks w :
  revoke_accepted (k :: ks) (faults w) (table w) =
  revoke_accepted ks (faults (after_call w))
    (if rejects w then table w else revoke_key (table w) k).
Proof.
  destruct w as [t f c u]; unfold rejects; simpl.
  destruct f as [|[] fs]; reflexivity.
Qed.

Lemma send_revoke_eq k w :
  send (UpdateCommand_revoked k true) w =
  if rejects w then (Throw StoreError, after_call w)
  else (Ok (mkItem k (row_set_revoked true (table w !! k))),
        with_table (revoke_key (table w) k) (after_call w)).
Proof. rewrite send_eq. destruct (rejects w); reflexivity. Qed.

(** [await Promise.all(tokens.map(token => send(UpdateCommand ...)))]:
    every update is sent; the accepted ones take effect; the whole rejects
    when one call was rejected. *)
Lemma promise_all_revoke (tokens : list RefreshTokenRecord) w :
  exists items,
    promise_all
      (map (fun token => send (UpdateCommand_revoked (token_hash token) true))
           tokens) w =
    (if rejected_among (length tokens) w then Throw StoreError else Ok items,
     with_table (revoke_accepted (map token_hash tokens) (faults w) (table w))
                (after_calls (length tokens) w)).
Proof.
  revert w; induction tokens as [|tok tokens IH]; intros w.
  - exists []. simpl. unfold ret. rewrite after_calls_0.
    by rewrite with_table_same.
  - cbn [map promise_all length].
    rewrite send_revoke_eq, rejected_among_S, after_calls_S,
      revoke_accepted_step.
    destruct (rejects w) eqn:Hr.
    + destruct (IH (after_call w)) as [items ->]. exists [].
      simpl. replace (table (after_call w)) with (table w) by (by destruct w).
      reflexivity.
    + destruct (IH (with_table (revoke_key (table w) (token_hash tok))
                               (after_call w))) as [items ->].
      exists (mkItem (token_hash tok)
                (row_set_revoked true (table w !! token_hash tok)) :: items).
      cbn [orb].
      replace (rejected_among (length tokens)
                 (with_table (revoke_key (table w) (token_hash tok))
                    (after_call w)))
        with (rejected_among (length tokens) (after_call w)) by reflexivity.
      destruct (rejected_among (length tokens) (after_call w)); reflexivity.
Qed.

Lemma revoke_accepted_all ks fs t :
  existsb (fun b => b) (take (length ks) fs) = false ->
  revoke_accepted ks fs t = revoke_keys ks t.
Proof.
  revert fs t; induction ks as [|k ks IH]; intros fs t H; [reflexivity|].
  destruct fs as [|[] fs]; simpl in *; try discriminate.
  - apply (IH [] _). by destruct (length ks).
  - by apply IH.
Qed.

Lemma revokeAllUserTokens_eq userId w :
  let tokens := records_of userId (table w) in
  let live := filter (fun token => negb (revoked (attrs token))) tokens in
  revokeAllUserTokens userId w =
  if rejects w then (Throw StoreError, after_call w)
  else (if rejected_among (length live) (after_call w)
        then Throw StoreError else Ok (length tokens),
        with_table (revoke_accepted (map token_hash live)
                      (faults (after_call w)) (table w))
                   (after_calls (length live) (after_call w))).
Proof.
  intros tokens live.
  unfold revokeAllUserTokens, try_catch, bind, rethrow, throw, ret.
  rewrite send_eq. destruct (rejects w); [reflexivity|].
  cbn [fst snd]. fold (records_of userId (table w)). fold tokens. fold live.
  replace (with_table (QueryCommand userId None (table w)).2 (after_call w))
    with (after_call w) by (by destruct w).
  destruct (promise_all_revoke live (after_call w)) as [items ->].
  replace (table (after_call w)) with (table w) by (by destruct w).
  destruct (rejected_among (length live) (after_call w)); reflexivity.
Qed.

Lemma limitUserTokens_eq userId maxTokens w :
  let tokens := js_sort newest_first (active_of userId (table w)) in
  let tokensToRevoke := js_slice tokens (maxTokens - 1) in
  limitUserTokens userId maxTokens w =
  if rejects w then (Throw StoreError, after_call w)
  else if Z.of_nat (length tokens) >=? maxTokens then
    (if rejected_among (length tokensToRevoke) (after_call w)
     then Throw StoreError else Ok (length tokensToRevoke),
     with_table (revoke_accepted (map token_hash tokensToRevoke)
                   (faults (after_call w)) (table w))
                (after_calls (length tokensToRevoke) (after_call w)))
  else (Ok 0%nat, after_call w).
Proof.
  intros tokens tokensToRevoke.
  unfold limitUserTokens, try_catch, bind, rethrow, throw, ret.
  rewrite send_eq. destruct (rejects w); [reflexivity|].
  cbn [fst snd]. fold (active_of userId (table w)). fold tokens.
  replace (with_table (QueryCommand userId (Some false) (table w)).2
             (after_call w))
    with (after_call w) by (by destruct w).
  destruct (Z.of_nat (length tokens) >=? maxTokens); [|reflexivity].
  fold tokensToRevoke.
  destruct (promise_all_revoke tokensToRevoke (after_call w)) as [items ->].
  replace (table (after_call w)) with (table w) by (by destruct w).
  destruct (rejected_among (length tokensToRevoke) (after_call w)); reflexivity.
Qed.

(** ** The index and the effect of revocations on the table *)

Lemma elem_of_records_of userId t it :
  it ∈ records_of userId t <->
  t !! token_hash it = Some (Complete (attrs it)) /\ user_id (attrs it) = userId.
Proof.
  unfold records_of, QueryCommand; cbn [fst].
  rewrite list_elem_of_omap. split.
  - intros [[k r] [Hin Hsome]]. apply elem_of_map_to_list in Hin.
    unfold index_entry in Hsome; cbn [fst snd] in Hsome.
    destruct r as [a|]; [|discriminate]. case_decide; [|discriminate].
    injection Hsome as <-. by cbn.
  - intros [Hlook Hu]. exists (token_hash it, Complete (attrs it)). split.
    + by apply elem_of_map_to_list.
    + unfold index_entry; cbn [fst snd]. rewrite decide_True by done.
      by destruct it.
Qed.

Lemma active_of_records_of userId t :
  active_of userId t =
  filter (fun it => revoked (attrs it) = false) (records_of userId t).
Proof. reflexivity. Qed.

Lemma elem_of_active_of userId t it :
  it ∈ active_of userId t <->
  t !! token_hash it = Some (Complete (attrs it)) /\
  user_id (attrs it) = userId /\ revoked (attrs it) = false.
Proof.
  rewrite active_of_records_of, list_elem_of_filter, elem_of_records_of.
  tauto.
Qed.

Lemma NoDup_omap_keys {X Y K} (f : X -> option Y) (kx : X -> K) (ky : Y -> K)
  (l : list X) :
  (forall x y, f x = Some y -> ky y = kx x) ->
  NoDup (map kx l) -> NoDup (map ky (omap f l)).
Proof.
  intros Hk. induction l as [|x l IH]; cbn; intros Hnd; [constructor|].
  apply NoDup_cons in Hnd as [Hx Hnd].
  destruct (f x) as [y|] eqn:Hfx; cbn; [|by apply IH].
  apply NoDup_cons; split; [|by apply IH].
  intros Hin. apply Hx.
  apply list_elem_of_In, in_map_iff in Hin as [y' [Hy' Hin]].
  apply list_elem_of_In, list_elem_of_omap in Hin as [x' [Hin' Hfx']].
  apply list_elem_of_In, in_map_iff. exists x'. split.
  - rewrite <- (Hk _ _ Hfx'), Hy'. by apply Hk.
  - by apply list_elem_of_In.
Qed.

Lemma NoDup_records_of userId t : NoDup (map token_hash (records_of userId t)).
Proof.
  unfold records_of, QueryCommand; cbn [fst].
  apply (NoDup_omap_keys _ fst).
  - intros [k r] y. unfold index_entry; cbn [fst snd].
    destruct r; [|discriminate]. case_decide; [|discriminate].
    by intros [= <-].
  - apply NoDup_fst_map_to_list.
Qed.

Lemma lookup_revoke_key t k k' :
  revoke_key t k !! k' =
  if decide (k = k') then Some (row_set_revoked true (t !! k)) else t !! k'.
Proof. unfold revoke_key. apply lookup_insert. Qed.

Lemma row_set_revoked_twice v o :
  row_set_revoked v (Some (row_set_revoked v o)) = row_set_revoked v o.
Proof. by destruct o as [[a|rv lu]|]. Qed.

Lemma lookup_revoke_keys ks t k :
  revoke_keys ks t !! k =
  if decide (k ∈ ks) then Some (row_set_revoked true (t !! k)) else t !! k.
Proof.
  revert t; induction ks as [|k0 ks IH]; intros t.
  - cbn. rewrite decide_False; [done | by apply not_elem_of_nil].
  - cbn [revoke_keys foldl]. fold (revoke_keys ks (revoke_key t k0)).
    rewrite IH, lookup_revoke_key.
    destruct (decide (k0 = k)) as [->|Hne].
    + rewrite row_set_revoked_twice.
      rewrite (decide_True (P := k ∈ k :: ks)) by apply list_elem_of_here.
      by case_decide.
    + destruct (decide (k ∈ ks)) as [Hin|Hnin].
      * rewrite decide_True; [done | by apply list_elem_of_further].
      * rewrite decide_False; [done|].
        intros [?|?]%elem_of_cons; congruence.
Qed.

(** A revoke update never clears the flag, and does not touch the other
    attributes of a complete row. *)
Lemma row_set_revoked_true o : row_revoked (row_set_revoked true o) = Some true.
Proof. by destruct o as [[a|rv lu]|]. Qed.

(** ** Sorting and slicing *)

Lemma js_insert_Permutation {A} (cmp : A -> A -> Z) x l :
  Permutation (js_insert cmp x l) (x :: l).
Proof.
  induction l as [|y l IH]; cbn; [done|].
  destruct (cmp x y <=? 0); [done|].
  rewrite IH. apply perm_swap.
Qed.

Lemma js_sort_Permutation {A} (cmp : A -> A -> Z) l :
  Permutation (js_sort cmp l) l.
Proof.
  induction l as [|x l IH]; cbn; [done|].
  unfold js_sort in IH. by rewrite js_insert_Permutation, IH.
Qed.

Lemma js_sort_length {A} (cmp : A -> A -> Z) l :
  length (js_sort cmp l) = length l.
Proof. apply Permutation_length, js_sort_Permutation. Qed.

Lemma js_insert_newest_first x l :
  StronglySorted newer_or_same l ->
  StronglySorted newer_or_same (js_insert newest_first x l).
Proof.
  induction 1 as [|y l Hs IH Hall]; cbn.
  - repeat constructor.
  - destruct (newest_first x y <=? 0) eqn:Hc.
    + apply Z.leb_le in Hc. unfold newest_first in Hc.
      constructor; [by constructor|].
      constructor; [unfold newer_or_same; lia|].
      eapply Forall_impl; [exact Hall|].
      unfold newer_or_same; cbn; intros z Hz; lia.
    + apply Z.leb_gt in Hc. unfold newest_first in Hc.
      constructor; [exact IH|].
      eapply Permutation_Forall;
        [symmetry; apply js_insert_Permutation|].
      constructor; [unfold newer_or_same; lia | exact Hall].
Qed.

Lemma js_sort_newest_first l :
  StronglySorted newer_or_same (js_sort newest_first l).
Proof.
  induction l as [|x l IH]; cbn; [constructor|].
  by apply js_insert_newest_first.
Qed.

Lemma js_slice_from_index {A} (xs : list A) (start : Z) :
  0 <= start -> js_slice xs start = drop (Z.to_nat start) xs.
Proof. intros H. unfold js_slice. by rewrite (proj2 (Z.ltb_ge _ _) H). Qed.

(** ** revokeRefreshToken *)

Lemma revoke_key_already_revoked t k row :
  t !! k = Some row -> row_revoked row = Some true -> revoke_key t k = t.
Proof.
  intros Hk Hr. unfold revoke_key. apply insert_id. rewrite Hk. f_equal.
  destruct row as [[i u e l rv c lu]|rv lu]; cbn in *.
  - injection Hr as ->. reflexivity.
  - by rewrite Hr.
Qed.

Lemma revoke_key_twice t k : revoke_key (revoke_key t k) k = revoke_key t k.
Proof.
  unfold revoke_key at 1. rewrite lookup_revoke_key, decide_True by done.
  rewrite row_set_revoked_twice. unfold revoke_key. apply insert_insert_eq.
Qed.

(** C7, as the code has it: revokeRefreshToken never throws.  It returns
    [true] whenever the store accepts the update, whether or not the token
    was already revoked or known, and [false] exactly when the store call
    is rejected.  A rejected call leaves the table as it was, and so does
    revoking a record that is already revoked; revoking once more after an
    accepted revocation changes nothing. *)
Theorem revokeRefreshToken_true_unless_rejected
  (sha256hex : string -> string) (token : string) (w : World) :
  let r := revokeRefreshToken sha256hex token w in
  r.1 = Ok (negb (rejects w)) /\
  (rejects w = true -> table r.2 = table w) /\
  (rejects w = false -> table r.2 = revoke_key (table w) (sha256hex token)) /\
  (forall row, table w !! sha256hex token = Some row ->
               row_revoked row = Some true -> table r.2 = table w) /\
  (rejects w = false ->
   table (revokeRefreshToken sha256hex token r.2).2 = table r.2).
Proof.
  cbv zeta. rewrite revokeRefreshToken_eq.
  destruct (rejects w) eqn:Hw; cbn [fst snd negb].
  - repeat split; try done; by destruct w.
  - repeat split; try done.
    + intros row Hk Hr. cbn. by eapply revoke_key_already_revoked.
    + intros _. rewrite revokeRefreshToken_eq.
      match goal with |- context [rejects ?x] => destruct (rejects x) end;
        cbn; [done|]. apply revoke_key_twice.
Qed.

(** C7, the claim as stated fails: on a record that is already revoked,
    and on a token the store has never seen, revokeRefreshToken answers
    [true]; for the unknown token the update also leaves a new sparse
    row. *)
Lemma revokeRefreshToken_true_on_revoked_and_unknown :
  let w := Demo.world Demo.revoked_session [] 5000 in
  table w !! Demo.digest Demo.rt = Some (Demo.row_of "u1" 350 true) /\
  revokeRefreshToken Demo.digest Demo.rt w = (Ok true, w) /\
  table w !! Demo.digest "never-issued" = None /\
  (revokeRefreshToken Demo.digest "never-issued" w).1 = Ok true /\
  table (revokeRefreshToken Demo.digest "never-issued" w).2
    !! Demo.digest "never-issued" = Some (Sparse (Some true) None).
Proof. vm_compute. repeat split; reflexivity. Qed.

(** ** getRefreshToken *)

(** C2, as the code has it: when the store answers, getRefreshToken
    returns none exactly when no row is stored under the token's hash or
    the row's [revoked] attribute is true.  The stored [expires_at] plays
    no part: a complete row that is not revoked is returned as it is,
    whatever its expiry. *)
Theorem getRefreshToken_none_iff_absent_or_revoked
  (sha256hex : string -> string) (token : string) (w : World) :
  rejects w = false ->
  ((getRefreshToken sha256hex token w).1 = Ok None <->
   table w !! sha256hex token = None \/
   exists row, table w !! sha256hex token = Some row /\
               row_revoked row = Some true) /\
  (forall a, table w !! sha256hex token = Some (Complete a) ->
             revoked a = false ->
             (getRefreshToken sha256hex token w).1 =
             Ok (Some (mkItem (sha256hex token) (Complete a)))) /\
  table (getRefreshToken sha256hex token w).2 = table w.
Proof.
  intros Hw. rewrite getRefreshToken_eq, Hw. cbn [fst snd].
  split; [|split].
  - destruct (table w !! sha256hex token) as [row|] eqn:Hk.
    + destruct (row_revoked row) as [[]|] eqn:Hr; cbn [truthy]; split.
      * intros _. right. by exists row.
      * done.
      * intros [=].
      * intros [[=]|(r & [= <-] & Hr')]. congruence.
      * intros [=].
      * intros [[=]|(r & [= <-] & Hr')]. congruence.
    + split; [by left | done].
  - intros a -> Ha. cbn. by rewrite Ha.
  - by destruct w.
Qed.

(** The stored session of the example, read a second after its expiry:
    the store answers, the record is not revoked, and it is returned. *)
Lemma getRefreshToken_none_iff_absent_or_revoked_witness :
  rejects Demo.expired_session = false /\
  (getRefreshToken Demo.digest Demo.rt Demo.expired_session).1 =
  Ok (Some (mkItem (Demo.digest Demo.rt) (Demo.row_of "u1" 350 false))).
Proof.
  split; [reflexivity|].
  apply (proj1 (proj2 (getRefreshToken_none_iff_absent_or_revoked
                         Demo.digest Demo.rt Demo.expired_session eq_refl)));
    reflexivity.
Defined.

(** C2, the claim as stated fails: a stored record with [revoked] false
    whose [expires_at] lies in the past is returned by getRefreshToken. *)
Lemma getRefreshToken_returns_expired_record :
  let w := Demo.expired_session in
  table w !! Demo.digest Demo.rt = Some (Demo.row_of "u1" 350 false) /\
  before (row_expires_at (Demo.row_of "u1" 350 false)) (clock w) = true /\
  getRefreshToken Demo.digest Demo.rt w =
  (Ok (Some (mkItem (Demo.digest Demo.rt) (Demo.row_of "u1" 350 false))), w).
Proof. vm_compute. repeat split; reflexivity. Qed.

(** ** What becomes of a rejected store call *)

Lemma rejected_among_1 w : rejected_among 1 w = rejects w.
Proof. rewrite rejected_among_S, rejected_among_0. apply orb_false_r. Qed.

Lemma bulk_outcome {A} (first rest : bool) (a : A) (w1 w2 : World) :
  (if first then (Throw StoreError, w1)
   else (if rest then Throw StoreError else Ok a, w2)).1 = Throw StoreError
  <-> first || rest = true.
Proof. destruct first, rest; cbn; split; congruence. Qed.

(** C8, the claim as stated fails: with the store rejecting the call,
    revokeRefreshToken returns [false] as if the token had merely not
    been revoked, and the record stays active; under the same rejection
    updateRefreshTokenLastUsed throws. *)
Lemma revokeRefreshToken_swallows_store_failure :
  let w := Demo.world Demo.one_session [true] 5000 in
  revokeRefreshToken Demo.digest Demo.rt w =
  (Ok false, Demo.world Demo.one_session [] 5000) /\
  (updateRefreshTokenLastUsed Demo.digest Demo.rt w).1 = Throw StoreError.
Proof. vm_compute. split; reflexivity. Qed.

(** ** createRefreshToken and the revoked flag *)

(** An accepted createRefreshToken stores a row with [revoked] false
    under the token's hash, whatever was stored there before. *)
Lemma createRefreshToken_overwrites
  (sha256hex : string -> string) (userId token : string) (w : World) :
  rejects w = false ->
  table (createRefreshToken sha256hex userId token w).2 !! sha256hex token =
  Some (Complete (fresh_attrs userId w)) /\
  revoked (fresh_attrs userId w) = false.
Proof.
  intros Hw. rewrite createRefreshToken_eq, Hw. cbn. split; [|done].
  apply lookup_insert_eq.
Qed.

(** C5, the code against the claim: on a table that holds a revoked
    record under the hash of a token, createRefreshToken for that token
    replaces the record, and its [revoked] attribute is false again. *)
Theorem createRefreshToken_clears_revoked_flag :
  let w := Demo.world Demo.revoked_session [] 5000 in
  let r := createRefreshToken Demo.digest "u1" Demo.rt w in
  row_revoked <$> table w !! Demo.digest Demo.rt = Some (Some true) /\
  r.1 = Ok (mkRecord (Demo.digest Demo.rt) (fresh_attrs "u1" w)) /\
  row_revoked <$> table r.2 !! Demo.digest Demo.rt = Some (Some false) /\
  (getRefreshToken Demo.digest Demo.rt w).1 = Ok None /\
  (getRefreshToken Demo.digest Demo.rt r.2).1 =
  Ok (Some (mkItem (Demo.digest Demo.rt) (Complete (fresh_attrs "u1" w)))).
Proof. vm_compute. repeat split; reflexivity. Qed.

Lemma revoke_accepted_keeps_revoked ks fs t k :
  (row_revoked <$> t !! k) = Some (Some true) ->
  (row_revoked <$> revoke_accepted ks fs t !! k) = Some (Some true).
Proof.
  revert fs t; induction ks as [|k0 ks IH]; intros fs t Hk; [done|].
  assert ((row_revoked <$> revoke_key t k0 !! k) = Some (Some true)) as Hk'.
  { rewrite lookup_revoke_key. case_decide; [|done].
    cbn. by rewrite row_set_revoked_true. }
  destruct fs as [|[] fs]; cbn; by apply IH.
Qed.

(** X1: the updating operations never clear the flag.  After
    revokeRefreshToken, updateRefreshTokenLastUsed, revokeAllUserTokens or
    limitUserTokens, whatever the store accepted or rejected, a row whose
    [revoked] attribute was true still has it true. *)
Lemma updates_keep_revoked
  (sha256hex : string -> string) (userId token : string) (maxTokens : Z)
  (w : World) (k : string) :
  (row_revoked <$> table w !! k) = Some (Some true) ->
  (row_revoked <$> table (revokeRefreshToken sha256hex token w).2 !! k)
  = Some (Some true) /\
  (row_revoked <$> table (updateRefreshTokenLastUsed sha256hex token w).2 !! k)
  = Some (Some true) /\
  (row_revoked <$> table (revokeAllUserTokens userId w).2 !! k)
  = Some (Some true) /\
  (row_revoked <$> table (limitUserTokens userId maxTokens w).2 !! k)
  = Some (Some true).
Proof.
  intros Hk.
  rewrite revokeRefreshToken_eq, updateRefreshTokenLastUsed_eq.
  pose proof (revokeAllUserTokens_eq userId w) as Hall.
  pose proof (limitUserTokens_eq userId maxTokens w) as Hlim.
  cbv zeta in Hall, Hlim. rewrite Hall, Hlim. clear Hall Hlim.
  repeat split.
  - destruct (rejects w); cbn; [done|].
    rewrite lookup_revoke_key. case_decide; [|done].
    cbn. by rewrite row_set_revoked_true.
  - destruct (rejects w); cbn; [done|].
    rewrite lookup_insert. case_decide as Hd; [|done].
    rewrite Hd in *. destruct (table w !! k) as [[a|rv lu]|]; cbn in *;
      congruence.
  - destruct (rejects w); cbn; [done|].
    by apply revoke_accepted_keeps_revoked.
  - destruct (rejects w); cbn; [done|].
    destruct (Z.of_nat _ >=? maxTokens); cbn; [|done].
    by apply revoke_accepted_keeps_revoked.
Qed.

(** The revoked session of the example stays revoked under the four
    writers. *)
Lemma updates_keep_revoked_witness :
  let w := Demo.world Demo.revoked_session [] 5000 in
  let k := Demo.digest Demo.rt in
  (row_revoked <$> table (revokeRefreshToken Demo.digest Demo.rt w).2 !! k)
  = Some (Some true) /\
  (row_revoked <$>
     table (updateRefreshTokenLastUsed Demo.digest Demo.rt w).2 !! k)
  = Some (Some true) /\
  (row_revoked <$> table (revokeAllUserTokens "u1" w).2 !! k)
  = Some (Some true) /\
  (row_revoked <$> table (limitUserTokens "u1" 1 w).2 !! k)
  = Some (Some true).
Proof.
  exact (updates_keep_revoked Demo.digest "u1" Demo.rt 1
           (Demo.world Demo.revoked_session [] 5000) (Demo.digest Demo.rt)
           eq_refl).
Defined.

(** ** revokeAllUserTokens *)

Lemma elem_of_map_token_hash (l : list RefreshTokenRecord) k :
  k ∈ map token_hash l <-> exists it, it ∈ l /\ token_hash it = k.
Proof.
  rewrite list_elem_of_In, in_map_iff. split.
  - intros (it & Hk & Hin). exists it. by rewrite list_elem_of_In.
  - intros (it & Hin & Hk). exists it. by rewrite <- list_elem_of_In.
Qed.

Lemma set_revoked_same a : revoked a = true -> set_revoked true a = a.
Proof. destruct a; cbn; by intros ->. Qed.

(** A record of the index is determined by its key. *)
Lemma records_of_key_inj userId t it it' :
  it ∈ records_of userId t -> it' ∈ records_of userId t ->
  token_hash it = token_hash it' -> it = it'.
Proof.
  rewrite !elem_of_records_of. intros [H1 _] [H2 _] Hk.
  rewrite Hk in H1. rewrite H1 in H2. injection H2 as Ha.
  destruct it, it'; cbn in *; congruence.
Qed.

(** Once every live record of a user has been revoked, all the user's
    records are revoked and the rest of the table is as before. *)
Lemma revoke_live_records userId t :
  let tokens := records_of userId t in
  let live := filter (fun token => negb (revoked (attrs token))) tokens in
  let t' := revoke_keys (map token_hash live) t in
  (forall it, it ∈ tokens ->
     t' !! token_hash it = Some (Complete (set_revoked true (attrs it)))) /\
  active_of userId t' = [] /\
  (forall k, k ∉ map token_hash live -> t' !! k = t !! k).
Proof.
  intros tokens live t'.
  assert (forall it, it ∈ live <-> it ∈ tokens /\ revoked (attrs it) = false)
    as Hlive.
  { intros it. unfold live. rewrite list_elem_of_filter.
    destruct (revoked (attrs it)); cbn; intuition congruence. }
  assert (forall k, k ∉ map token_hash live -> t' !! k = t !! k) as Hout.
  { intros k Hk. unfold t'. rewrite lookup_revoke_keys.
    by rewrite decide_False. }
  split; [|split; [|exact Hout]].
  - intros it Hit. pose proof Hit as [Hk _]%elem_of_records_of.
    unfold t'. rewrite lookup_revoke_keys. case_decide as Hin.
    + by rewrite Hk.
    + rewrite Hk. do 2 f_equal. symmetry. apply set_revoked_same.
      destruct (revoked (attrs it)) eqn:Hr; [done|].
      exfalso. apply Hin, elem_of_map_token_hash. exists it.
      by rewrite Hlive.
  - apply elem_of_nil_inv. intros it (Hk & Hu & Hr)%elem_of_active_of.
    unfold t' in Hk. rewrite lookup_revoke_keys in Hk.
    case_decide as Hin.
    + injection Hk as Hk. apply (f_equal row_revoked) in Hk.
      rewrite row_set_revoked_true in Hk. cbn in Hk. congruence.
    + apply Hin, elem_of_map_token_hash. exists it. split; [|done].
      apply Hlive. split; [|done]. by apply elem_of_records_of.
Qed.

(** C4, as the code has it: revokeAllUserTokens queries all the user's
    records through user_id-index and sends a revoke update for each one
    that is not yet revoked.  When the query or one of the updates is
    rejected it throws, and returns no count, while the updates that were
    accepted remain in the table.  When every call is accepted, all the
    user's records are revoked afterwards, no other row changes, and the
    number returned is at least the number of updates; it is the number of
    records revoked when none of the user's records was revoked before. *)
Theorem revokeAllUserTokens_all_or_throw (userId : string) (w : World) :
  let tokens := records_of userId (table w) in
  let live := filter (fun token => negb (revoked (attrs token))) tokens in
  let r := revokeAllUserTokens userId w in
  (rejected_among (S (length live)) w = true -> r.1 = Throw StoreError) /\
  (rejects w = false ->
   table r.2 = revoke_accepted (map token_hash live) (tail (faults w))
                               (table w)) /\
  (rejected_among (S (length live)) w = false ->
   (exists n, r.1 = Ok n /\ (length live <= n)%nat /\
              (live = tokens -> n = length live)) /\
   table r.2 = revoke_keys (map token_hash live) (table w) /\
   (forall it, it ∈ tokens ->
      table r.2 !! token_hash it =
      Some (Complete (set_revoked true (attrs it)))) /\
   active_of userId (table r.2) = [] /\
   (forall k, k ∉ map token_hash live -> table r.2 !! k = table w !! k)).
Proof.
  intros tokens live r.
  pose proof (revokeAllUserTokens_eq userId w) as Heq. cbv zeta in Heq.
  fold tokens live r in Heq. rewrite rejected_among_S.
  split; [|split].
  - rewrite Heq. destruct (rejects w); [done|]. cbn [orb fst].
    by intros ->.
  - intros Hw. rewrite Heq, Hw. reflexivity.
  - intros [Hw Hrest]%orb_false_elim.
    assert (table r.2 = revoke_keys (map token_hash live) (table w)) as Ht.
    { rewrite Heq, Hw. cbn [snd table with_table].
      apply revoke_accepted_all. rewrite length_map. exact Hrest. }
    split; [|split; [exact Ht|]].
    + exists (length tokens). rewrite Heq, Hw, Hrest. cbn [fst].
      split; [done|]. split; [apply length_filter | by intros ->].
    + rewrite Ht. apply revoke_live_records.
Qed.

(** When every call is accepted the number returned is the number of
    records the query returned. *)
Lemma revokeAllUserTokens_count (userId : string) (w : World) :
  rejected_among
    (S (length (filter (fun token => negb (revoked (attrs token)))
                       (records_of userId (table w))))) w = false ->
  (revokeAllUserTokens userId w).1 =
  Ok (length (records_of userId (table w))).
Proof.
  pose proof (revokeAllUserTokens_eq userId w) as Heq. cbv zeta in Heq.
  rewrite rejected_among_S. intros [Hw Hrest]%orb_false_elim.
  by rewrite Heq, Hw, Hrest.
Qed.

(** C4, the claim as stated fails: with two live records and the second
    update rejected, one record is revoked and the other is not, and the
    function throws instead of returning the partial count 1. *)
Lemma revokeAllUserTokens_partial_failure_throws :
  let w := Demo.world Demo.two_sessions [false; false; true] 5000 in
  let r := revokeAllUserTokens "u1" w in
  length (active_of "u1" (table w)) = 2%nat /\
  r.1 = Throw StoreError /\
  length (active_of "u1" (table r.2)) = 1%nat.
Proof. vm_compute. repeat split; reflexivity. Qed.

(** With one record already revoked and one live, a single update is
    sent and the function returns 2. *)
Example revokeAllUserTokens_counts_query_result :
  let w := Demo.world Demo.stale_and_live [] 5000 in
  length (active_of "u1" (table w)) = 1%nat /\
  (revokeAllUserTokens "u1" w).1 = Ok 2%nat.
Proof. vm_compute. split; reflexivity. Qed.

(** ** limitUserTokens *)

Lemma js_slice_is_drop {A} (xs : list A) (start : Z) :
  exists m, js_slice xs start = drop m xs.
Proof. unfold js_slice. destruct (start <? 0); eauto. Qed.

Lemma js_slice_suffix {A} (xs : list A) (start : Z) :
  xs = (take (length xs - length (js_slice xs start))%nat xs
        ++ js_slice xs start)%list.
Proof.
  destruct (js_slice_is_drop xs start) as [m ->]. rewrite length_drop.
  destruct (decide (m <= length xs)%nat).
  - replace (length xs - (length xs - m))%nat with m by lia.
    by rewrite take_drop.
  - rewrite drop_ge, app_nil_r by lia.
    replace (length xs - _)%nat with (length xs) by lia.
    by rewrite firstn_all.
Qed.

Lemma NoDup_active_of userId t : NoDup (active_of userId t).
Proof.
  rewrite active_of_records_of. apply NoDup_filter.
  apply (NoDup_fmap_1 token_hash), NoDup_records_of.
Qed.

Lemma active_of_key_inj userId t it it' :
  it ∈ active_of userId t -> it' ∈ active_of userId t ->
  token_hash it = token_hash it' -> it = it'.
Proof.
  rewrite !active_of_records_of, !list_elem_of_filter.
  intros [_ H1] [_ H2]. by apply (records_of_key_inj userId t).
Qed.

(** Revoking a part of the active records leaves the others active. *)
Lemma active_after_revoking userId t (kept gone : list RefreshTokenRecord) :
  Permutation (kept ++ gone)%list (active_of userId t) ->
  let t' := revoke_keys (map token_hash gone) t in
  (forall it, it ∈ gone ->
     t' !! token_hash it = Some (Complete (set_revoked true (attrs it)))) /\
  Permutation (active_of userId t') kept.
Proof.
  intros Hperm t'.
  assert (NoDup (kept ++ gone)%list) as Hnd.
  { rewrite Hperm. apply NoDup_active_of. }
  apply NoDup_app in Hnd as (Hndk & Hdisj & _).
  assert (forall it, it ∈ (kept ++ gone)%list <-> it ∈ active_of userId t)
    as Hmem.
  { intros it. by rewrite Hperm. }
  split.
  - intros it Hit. unfold t'. rewrite lookup_revoke_keys.
    rewrite decide_True by (apply elem_of_map_token_hash; eauto).
    assert (it ∈ active_of userId t) as (Hk & _)%elem_of_active_of.
    { apply Hmem, elem_of_app. by right. }
    by rewrite Hk.
  - apply NoDup_Permutation; [apply NoDup_active_of | exact Hndk |].
    intros it. rewrite elem_of_active_of. unfold t'.
    rewrite lookup_revoke_keys. split.
    + intros (Hk & Hu & Hr). case_decide as Hin.
      * injection Hk as Hk. apply (f_equal row_revoked) in Hk.
        rewrite row_set_revoked_true in Hk. cbn in Hk. congruence.
      * assert (it ∈ (kept ++ gone)%list) as [?|Hg]%elem_of_app; [|done|].
        { apply Hmem, elem_of_active_of. done. }
        exfalso. apply Hin, elem_of_map_token_hash. eauto.
    + intros Hit.
      assert (it ∈ active_of userId t) as Hact.
      { apply Hmem, elem_of_app. by left. }
      rewrite decide_False; [by apply elem_of_active_of|].
      intros (it' & Hit' & Hk)%elem_of_map_token_hash.
      assert (it' = it) as ->.
      { eapply active_of_key_inj; [| exact Hact | exact Hk].
        apply Hmem, elem_of_app. by right. }
      by apply (Hdisj it).
Qed.

(** C6: on a store that accepts every call, limitUserTokens sorts the
    user's non-revoked records newest first by [created_at].  With fewer
    such records than [maxTokens] it changes nothing and returns 0.
    Otherwise it revokes the records [tokens.slice(maxTokens - 1)], that
    is, for [maxTokens >= 1], every record from position [maxTokens - 1]
    onward, returns their number, and leaves active exactly the records
    before that position; with 7 active records and [maxTokens = 5] it
    returns 3 and the 4 newest stay active. *)
Theorem limitUserTokens_keeps_newest
  (userId : string) (maxTokens : Z) (w : World) :
  faults w = [] ->
  let active := active_of userId (table w) in
  let sorted := js_sort newest_first active in
  let gone := js_slice sorted (maxTokens - 1) in
  let kept := take (length sorted - length gone)%nat sorted in
  let r := limitUserTokens userId maxTokens w in
  Permutation sorted active /\
  StronglySorted newer_or_same sorted /\
  sorted = (kept ++ gone)%list /\
  (1 <= maxTokens ->
   gone = drop (Z.to_nat (maxTokens - 1)) sorted /\
   (maxTokens <= Z.of_nat (length active) ->
    kept = take (Z.to_nat (maxTokens - 1)) sorted)) /\
  (Z.of_nat (length active) < maxTokens -> r = (Ok 0%nat, w)) /\
  (maxTokens <= Z.of_nat (length active) ->
   r.1 = Ok (length gone) /\
   table r.2 = revoke_keys (map token_hash gone) (table w) /\
   (forall it, it ∈ gone ->
      table r.2 !! token_hash it =
      Some (Complete (set_revoked true (attrs it)))) /\
   Permutation (active_of userId (table r.2)) kept /\
   (forall k, k ∉ map token_hash gone -> table r.2 !! k = table w !! k)) /\
  (length active = 7%nat -> maxTokens = 5 ->
   r.1 = Ok 3%nat /\
   Permutation (active_of userId (table r.2)) (take 4 sorted) /\
   length (active_of userId (table r.2)) = 4%nat).
Proof.
  intros Hw active sorted gone kept r.
  assert (Permutation sorted active) as Hperm by apply js_sort_Permutation.
  assert (length sorted = length active) as Hlen by apply js_sort_length.
  assert (sorted = (kept ++ gone)%list) as Hsplit by apply js_slice_suffix.
  assert (rejects w = false) as Hrej.
  { unfold rejects. by rewrite Hw. }
  assert (forall n, rejected_among n (after_call w) = false) as Hnone.
  { intros n. unfold rejected_among.
    replace (faults (after_call w)) with (@nil bool)
      by (destruct w; cbn in *; by subst).
    by destruct n. }
  pose proof (limitUserTokens_eq userId maxTokens w) as Heq.
  cbv zeta in Heq. fold active sorted gone r in Heq.
  rewrite Hrej, Hnone, after_call_healthy in Heq by done.
  assert (maxTokens <= Z.of_nat (length active) ->
          r.1 = Ok (length gone) /\
          table r.2 = revoke_keys (map token_hash gone) (table w) /\
          (forall it, it ∈ gone ->
             table r.2 !! token_hash it =
             Some (Complete (set_revoked true (attrs it)))) /\
          Permutation (active_of userId (table r.2)) kept /\
          (forall k, k ∉ map token_hash gone ->
             table r.2 !! k = table w !! k)) as Hmain.
  { intros Hge. rewrite Hlen in Heq.
    rewrite (proj2 (Z.geb_le _ _) Hge) in Heq.
    assert (table r.2 = revoke_keys (map token_hash gone) (table w)) as Ht.
    { rewrite Heq. cbn [snd table with_table].
      apply revoke_accepted_all. by rewrite Hw, take_nil. }
    split; [by rewrite Heq|]. split; [exact Ht|]. rewrite Ht.
    assert (Permutation (kept ++ gone)%list (active_of userId (table w)))
      as Hp.
    { by rewrite <- Hsplit. }
    destruct (active_after_revoking userId (table w) kept gone Hp)
      as [Hgone Hkept].
    split; [exact Hgone|]. split; [exact Hkept|].
    intros k Hk. rewrite lookup_revoke_keys. by rewrite decide_False. }
  split; [exact Hperm|]. split; [apply js_sort_newest_first|].
  split; [exact Hsplit|]. split; [|split; [|split; [exact Hmain|]]].
  - intros H1.
    assert (gone = drop (Z.to_nat (maxTokens - 1)) sorted) as Hgone.
    { apply js_slice_from_index. lia. }
    split; [exact Hgone|]. intros Hge. unfold kept. rewrite Hgone.
    rewrite length_drop. f_equal. lia.
  - intros Hlt. rewrite Heq, Hlen.
    assert ((Z.of_nat (length active) >=? maxTokens) = false) as ->.
    { rewrite Z.geb_leb. apply Z.leb_gt. lia. }
    reflexivity.
  - intros H7 ->. destruct Hmain as (Hr & _ & _ & Hkept & _); [lia|].
    assert (gone = drop 4 sorted) as Hgone.
    { unfold gone. by rewrite js_slice_from_index. }
    assert (kept = take 4 sorted) as Hk4.
    { unfold kept. rewrite Hgone, length_drop, Hlen, H7. reflexivity. }
    rewrite Hk4 in Hkept. split; [|split; [exact Hkept|]].
    + rewrite Hr, Hgone, length_drop, Hlen, H7. reflexivity.
    + rewrite (Permutation_length Hkept), length_take, Hlen, H7.
      reflexivity.
Qed.

(** The seven live sessions of the example, limited to five. *)
Lemma limitUserTokens_keeps_newest_witness :
  faults (Demo.world Demo.seven_sessions [] 5000) = [] /\
  (limitUserTokens "u1" 5 (Demo.world Demo.seven_sessions [] 5000)).1
  = Ok 3%nat /\
  length (active_of "u1"
            (table (limitUserTokens "u1" 5
                      (Demo.world Demo.seven_sessions [] 5000)).2)) = 4%nat.
Proof.
  split; [reflexivity|].
  pose proof (limitUserTokens_keeps_newest "u1" 5
                (Demo.world Demo.seven_sessions [] 5000) eq_refl) as H.
  cbv zeta in H. destruct H as (_ & _ & _ & _ & _ & _ & H7).
  assert (length (active_of "u1"
                    (table (Demo.world Demo.seven_sessions [] 5000)))
          = 7%nat) as Hseven by (vm_compute; reflexivity).
  destruct (H7 Hseven eq_refl) as (H3 & _ & H4). split; assumption.
Defined.

(** The seven sessions of the example: the four newest stay active, in
    the order of the sort, and the three oldest are revoked. *)
Example limitUserTokens_seven_sessions :
  let r := limitUserTokens "u1" 5 (Demo.world Demo.seven_sessions [] 5000) in
  r.1 = Ok 3%nat /\
  map (fun it => created_at (attrs it))
      (js_sort newest_first (active_of "u1" (table r.2)))
  = [700; 600; 500; 400].
Proof. vm_compute. split; reflexivity. Qed.

(** With [maxTokens = 0] the slice starts at -1: only the oldest record
    is revoked. *)
Example limitUserTokens_zero :
  let r := limitUserTokens "u1" 0 (Demo.world Demo.seven_sessions [] 5000) in
  r.1 = Ok 1%nat /\
  map (fun it => created_at (attrs it))
      (js_sort newest_first (active_of "u1" (table r.2)))
  = [700; 600; 500; 400; 300; 200].
Proof. vm_compute. split; reflexivity. Qed.

(** ** verifyToken *)

(** The four results of [classify] against the three outcomes. *)
Lemma is_Valid_classify r today :
  is_Valid (classify r today) <-> exists claims, r = Decoded claims.
Proof.
  unfold is_Valid. destruct r as [claims|[m i|m|m d|n]]; cbn; split;
    intros [c Hc]; try discriminate; eauto.
Qed.

Lemma classify_never_claims_and_instant r today :
  ~ is_ExpiredButWellFormed (classify r today).
Proof.
  intros (res & claims & e & instant & Hres & Hp & He & Hx).
  destruct r as [c|[m i|m|m d|n]]; cbn in Hres; try discriminate;
    injection Hres as <-; cbn in *; congruence.
Qed.

Lemma classify_expired message instant today :
  classify (Thrown (TokenExpiredError message instant)) today =
  Some {| valid := true; payload := None;
          error := Some {| errorName := "TokenExpiredError";
                           errorMessage := message;
                           expiredAt := Some instant; date := None |} |}.
Proof. reflexivity. Qed.

Lemma is_Invalid_classify r today :
  is_Invalid (classify r today) <->
  exists message, r = Thrown (JsonWebTokenError message) \/
                  exists d, r = Thrown (NotBeforeError message d).
Proof.
  unfold is_Invalid. split.
  - intros (res & e & Hres & Hv & He).
    destruct r as [c|[m i|m|m d|n]]; cbn in Hres; try discriminate;
      injection Hres as <-; cbn in *; try discriminate; eauto.
  - intros (m & [->|(d & ->)]); cbn; eexists _, _; repeat split.
Qed.

Lemma classify_null r today :
  classify r today = None <-> exists name, r = Thrown (ForeignError name).
Proof.
  destruct r as [c|[m i|m|m d|n]]; cbn; split; try discriminate; eauto;
    intros [name Hn]; discriminate.
Qed.

Section Codec.

Variable jwt_verify : string -> string -> Z -> JwtVerify.

(** verifyToken never throws and leaves the world alone. *)
Lemma verifyToken_eq token secret w :
  verifyToken jwt_verify token secret w =
  (Ok (classify (jwt_verify token secret (clock w)) (clock w)), w).
Proof. reflexivity. Qed.

(** C3, as the code has it: verifyToken never throws and returns one of
    four results, decided by what [jwt.verify] does.  When it returns, the
    result is valid and its payload is the decoded claims.  On a
    TokenExpiredError the result has [valid] true, no payload, and an
    [error] with the name, the message and the expiry instant of the
    exception: no result carries both claims and an expiry instant.  On a
    JsonWebTokenError or a NotBeforeError the result has [valid] false, no
    payload, and an [error] with the name and the message of the
    exception and a date (the instant of the call, or the exception's
    date).  On any other exception the result is [null], which is none of
    the three outcomes. *)
Theorem verifyToken_four_results (token secret : string) (w : World) :
  let outcome := jwt_verify token secret (clock w) in
  exists result,
    verifyToken jwt_verify token secret w = (Ok result, w) /\
    (is_Valid result <-> exists claims, outcome = Decoded claims) /\
    ~ is_ExpiredButWellFormed result /\
    (forall message instant,
       outcome = Thrown (TokenExpiredError message instant) ->
       exists e, result = Some {| valid := true; payload := None;
                                  error := Some e |} /\
                 errorName e = "TokenExpiredError" /\
                 expiredAt e = Some instant) /\
    (is_Invalid result <->
     exists message, outcome = Thrown (JsonWebTokenError message) \/
                     exists d, outcome = Thrown (NotBeforeError message d)) /\
    (result = None <-> exists name, outcome = Thrown (ForeignError name)) /\
    (three_way result <-> is_Valid result \/ is_Invalid result) /\
    (forall claims,
       outcome = Decoded claims ->
       result = Some {| valid := true; payload := Some claims;
                        error := None |}) /\
    (forall message instant,
       outcome = Thrown (TokenExpiredError message instant) ->
       result = Some {| valid := true; payload := None;
                        error := Some {| errorName := "TokenExpiredError";
                                         errorMessage := message;
                                         expiredAt := Some instant;
                                         date := None |} |}) /\
    (forall message,
       outcome = Thrown (JsonWebTokenError message) ->
       result = Some {| valid := false; payload := None;
                        error := Some {| errorName := "JsonWebTokenError";
                                         errorMessage := message;
                                         expiredAt := None;
                                         date := Some (clock w) |} |}) /\
    (forall message d,
       outcome = Thrown (NotBeforeError message d) ->
       result = Some {| valid := false; payload := None;
                        error := Some {| errorName := "NotBeforeError";
                                         errorMessage := message;
                                         expiredAt := None;
                                         date := Some d |} |}).
Proof.
  cbv zeta. rewrite verifyToken_eq. eexists. split; [reflexivity|].
  split; [apply is_Valid_classify|].
  split; [apply classify_never_claims_and_instant|].
  split.
  { intros message instant ->. rewrite classify_expired.
    eexists. repeat split. }
  split; [apply is_Invalid_classify|].
  split; [apply classify_null|].
  split.
  { unfold three_way. split; [|tauto].
    intros [?|[H|?]]; [by left | | by right].
    by apply classify_never_claims_and_instant in H. }
  repeat split; intros; match goal with H : _ = _ |- _ => by rewrite H end.
Qed.

End Codec.

(** C3, the claim as stated fails: for the refresh token of the example
    after its expiry the result has [valid] true and no claims, and for a
    token whose payload is not JSON the result is [null]; neither is one
    of the three outcomes. *)
Lemma verifyToken_outside_three_outcomes :
  let late := Demo.world ∅ [] (Demo.week + 1) in
  (verifyToken Demo.verify Demo.rt "refresh" late).1 =
  Ok (Some {| valid := true; payload := None;
              error := Some {| errorName := "TokenExpiredError";
                               errorMessage := "jwt expired";
                               expiredAt := Some Demo.week;
                               date := None |} |}) /\
  (verifyToken Demo.verify Demo.not_json "refresh" late).1 = Ok None /\
  (forall result,
     (verifyToken Demo.verify Demo.rt "refresh" late).1 = Ok result ->
     ~ three_way result) /\
  (forall result,
     (verifyToken Demo.verify Demo.not_json "refresh" late).1 = Ok result ->
     ~ three_way result).
Proof.
  cbv zeta. split; [reflexivity|]. split; [reflexivity|].
  split; intros result [= <-]
    [(c & Hc)|[(r & c & e & i & Hr & Hp & _)|(r & e & Hr & Hv & _)]].
  - discriminate Hc.
  - injection Hr as <-. discriminate Hp.
  - injection Hr as <-. discriminate Hv.
  - discriminate Hc.
  - discriminate Hr.
  - discriminate Hr.
Qed.

(** ** authenticateRequest *)

Section Middleware.

Variable jwt_verify : string -> string -> Z -> JwtVerify.
Variable ACCESS_TOKEN_SECRET : string.

Local Abbreviation authenticate :=
  (authenticateRequest jwt_verify ACCESS_TOKEN_SECRET).
Local Abbreviation verifyAccess token :=
  (verifyToken jwt_verify token ACCESS_TOKEN_SECRET).

(** The middleware after the header check, by the result of verifyToken. *)
Lemma authenticateRequest_eq headers header w :
  or_else (authorization headers) (Authorization headers) = Some header ->
  String.prefix "Bearer " header = true ->
  authenticate headers w =
  match classify (jwt_verify (substring_from 7 header) ACCESS_TOKEN_SECRET
                             (clock w)) (clock w) with
  | None => (Throw TypeError, w)
  | Some r =>
      if valid r && present (error r)
      then (Ok (Replied 401 (ErrorObject (error r))), w)
      else if negb (valid r)
           then (Ok (Replied 403 (ErrorObject (error r))), w)
           else (Ok (Next (payload r)), w)
  end.
Proof.
  intros Hh Hp. unfold authenticateRequest. rewrite Hh.
  cbn [startsWith default]. rewrite Hp. cbn [negb].
  unfold bind at 1. rewrite verifyToken_eq.
  destruct (classify _ _) as [r|]; [|reflexivity].
  unfold bind, prop, ret. destruct (valid r), (error r); reflexivity.
Qed.

(** C10: when verifyToken returns [null], that is when [jwt.verify]
    throws an exception of none of the three jsonwebtoken classes,
    authenticateRequest throws a TypeError at [result.valid] and sends no
    reply.  Its 403 reply is only ever sent for a result object whose
    [valid] is false, so the test [!result] of that branch never decides
    anything. *)
Theorem authenticateRequest_null_result_throws
  (headers : Headers) (header : string) (w : World) :
  or_else (authorization headers) (Authorization headers) = Some header ->
  String.prefix "Bearer " header = true ->
  let token := substring_from 7 header in
  ((verifyAccess token w).1 = Ok None ->
   authenticate headers w = (Throw TypeError, w)) /\
  (forall name,
     jwt_verify token ACCESS_TOKEN_SECRET (clock w) = Thrown (ForeignError name) ->
     (verifyAccess token w).1 = Ok None /\
     authenticate headers w = (Throw TypeError, w)) /\
  (forall code body w',
     authenticate headers w = (Ok (Replied code body), w') ->
     exists r, (verifyAccess token w).1 = Ok (Some r) /\
               body = ErrorObject (error r) /\
               (code = 403 <-> valid r = false) /\
               (code = 401 <-> valid r = true)).
Proof.
  intros Hh Hp token.
  rewrite (authenticateRequest_eq headers header w Hh Hp).
  rewrite verifyToken_eq. fold token. cbn [fst].
  split; [|split].
  - by intros [= ->].
  - intros name ->. cbn. done.
  - intros code body w'.
    destruct (classify _ _) as [r|]; [|discriminate].
    destruct (valid r) eqn:Hv, (error r) eqn:He; cbn; intros [= <- <- <-];
      exists r; rewrite ?He; repeat split; try done; congruence.
Qed.

End Middleware.

(** A bearer token whose payload is not JSON. *)
Lemma authenticateRequest_null_result_throws_witness :
  let headers := mkHeaders (Some ("Bearer " ++ Demo.not_json)) None in
  (verifyToken Demo.verify Demo.not_json "access" (Demo.world ∅ [] 5000)).1
  = Ok None /\
  Demo.authenticateRequest headers (Demo.world ∅ [] 5000)
  = (Throw TypeError, Demo.world ∅ [] 5000).
Proof.
  cbv zeta.
  destruct (authenticateRequest_null_result_throws Demo.verify "access"
              (mkHeaders (Some ("Bearer " ++ Demo.not_json)) None)
              ("Bearer " ++ Demo.not_json) (Demo.world ∅ [] 5000)
              eq_refl eq_refl) as (_ & H & _).
  exact (H "SyntaxError" eq_refl).
Defined.

(** ** POST /auth/refresh *)

Section Route.

Variable sha256hex : string -> string.
Variable jwt_verify : string -> string -> Z -> JwtVerify.
Variable jwt_sign : Payload -> string -> string -> Z -> Outcome string.
Variable ACCESS_TOKEN_SECRET REFRESH_TOKEN_SECRET : string.
Variable ACCESS_TOKEN_EXPIRY REFRESH_TOKEN_EXPIRY : string.

Local Abbreviation check :=
  (refresh_check sha256hex jwt_verify REFRESH_TOKEN_SECRET).
Local Abbreviation issue :=
  (refresh_issue sha256hex jwt_sign ACCESS_TOKEN_SECRET REFRESH_TOKEN_SECRET
                 ACCESS_TOKEN_EXPIRY REFRESH_TOKEN_EXPIRY).
Local Abbreviation route :=
  (refresh sha256hex jwt_verify jwt_sign ACCESS_TOKEN_SECRET
           REFRESH_TOKEN_SECRET ACCESS_TOKEN_EXPIRY REFRESH_TOKEN_EXPIRY).
Local Abbreviation race :=
  (interleave sha256hex jwt_verify jwt_sign ACCESS_TOKEN_SECRET
              REFRESH_TOKEN_SECRET ACCESS_TOKEN_EXPIRY REFRESH_TOKEN_EXPIRY).

(** The checks of the route on a non-empty cookie. *)
Lemma refresh_check_eq token w :
  token <> "" ->
  check (Some token) w =
  match classify (jwt_verify token REFRESH_TOKEN_SECRET (clock w)) (clock w)
  with
  | None => (Ok (inl (reply 403 "Invalid refresh token" None)), w)
  | Some r =>
      if negb (valid r) then
        (Ok (inl (reply 403 "Invalid or expired refresh token" (error r))), w)
      else if rejects w then (Throw StoreError, after_call w)
      else
        match table w !! sha256hex token with
        | None => (Ok (inl not_found), after_call w)
        | Some row =>
            if truthy (row_revoked row) then (Ok (inl not_found), after_call w)
            else if before (row_expires_at row) (clock w) then
              (Ok (inl (reply 403 "Refresh token expired" None)), after_call w)
            else (Ok (inr (token, payload r)), after_call w)
        end
  end.
Proof.
  intros Hne. unfold refresh_check. cbn [nonempty].
  rewrite (proj2 (String.eqb_neq token "") Hne).
  unfold bind at 1. rewrite verifyToken_eq.
  destruct (classify _ _) as [r|]; [|reflexivity].
  destruct (valid r); cbn [negb]; [|reflexivity].
  unfold bind at 1. rewrite getRefreshToken_eq.
  destruct (rejects w); [reflexivity|].
  destruct (table w !! sha256hex token) as [row|]; [|reflexivity].
  destruct (truthy (row_revoked row)); [reflexivity|].
  unfold bind, now, ret. cbn [item_row].
  replace (clock (after_call w)) with (clock w) by reflexivity.
  destruct (before _ _); reflexivity.
Qed.

(** The issuing half of the route. *)
Lemma refresh_issue_eq payload w :
  issue payload w =
  match payload with
  | None => (Throw TypeError, w)
  | Some p =>
      let claims := {| sub := sub p; email := email p |} in
      match jwt_sign claims ACCESS_TOKEN_SECRET ACCESS_TOKEN_EXPIRY (clock w),
            jwt_sign claims REFRESH_TOKEN_SECRET REFRESH_TOKEN_EXPIRY (clock w)
      with
      | Throw e, _ => (Throw e, w)
      | Ok _, Throw e => (Throw e, w)
      | Ok accessToken, Ok newRefreshToken =>
          if rejects w then (Throw StoreError, after_call (after_uuid w))
          else
            (Ok {| status := 200; body := Success;
                   set_cookie := [("accessToken", accessToken);
                                  ("refreshToken", newRefreshToken)] |},
             with_table (<[sha256hex newRefreshToken :=
                             Complete (fresh_attrs (sub p) w)]> (table w))
                        (after_call (after_uuid w)))
      end
  end.
Proof.
  destruct payload as [p|]; [|reflexivity].
  cbv beta iota zeta delta
    [refresh_issue bind ret throw prop now generateAccessToken
     generateRefreshToken User.id User.email].
  destruct (jwt_sign _ ACCESS_TOKEN_SECRET _ _) as [a|e]; [|reflexivity].
  destruct (jwt_sign _ REFRESH_TOKEN_SECRET _ _) as [n|e]; [|reflexivity].
  rewrite createRefreshToken_eq. destruct (rejects w); reflexivity.
Qed.

(** The whole route on a non-empty cookie. *)
Lemma refresh_eq token w :
  token <> "" ->
  route (Some token) w =
  match classify (jwt_verify token REFRESH_TOKEN_SECRET (clock w)) (clock w)
  with
  | None => (Ok (reply 403 "Invalid refresh token" None), w)
  | Some r =>
      if negb (valid r) then
        (Ok (reply 403 "Invalid or expired refresh token" (error r)), w)
      else if rejects w then (Ok (server_error StoreError), after_call w)
      else
        match table w !! sha256hex token with
        | None => (Ok not_found, after_call w)
        | Some row =>
            if truthy (row_revoked row) then (Ok not_found, after_call w)
            else if before (row_expires_at row) (clock w) then
              (Ok (reply 403 "Refresh token expired" None), after_call w)
            else
              match issue (payload r)
                      (revokeRefreshToken sha256hex token (after_call w)).2
              with
              | (Ok r', w3) => (Ok r', w3)
              | (Throw e, w3) => (Ok (server_error e), w3)
              end
        end
  end.
Proof.
  intros Hne. unfold refresh, try_catch. unfold bind at 1.
  rewrite (refresh_check_eq token w Hne).
  destruct (classify _ _) as [r|]; [|reflexivity].
  destruct (negb (valid r)); [reflexivity|].
  destruct (rejects w); [reflexivity|].
  destruct (table w !! sha256hex token) as [row|]; [|reflexivity].
  destruct (truthy (row_revoked row)); [reflexivity|].
  destruct (before _ _); [reflexivity|].
  unfold bind.
  destruct (revokeRefreshToken sha256hex token (after_call w)) as [[b|e] w2]
    eqn:Hrev.
  - cbn [snd]. destruct (issue (payload r) w2) as [[r'|e] w3]; reflexivity.
  - rewrite revokeRefreshToken_eq in Hrev.
    destruct (rejects (after_call w)); discriminate.
Qed.

(** The stored expiry is enforced by the route itself: a record that
    getRefreshToken returns and whose [expires_at] is in the past is
    answered with 403 "Refresh token expired". *)
Lemma refresh_rejects_expired_record token w r row :
  token <> "" ->
  classify (jwt_verify token REFRESH_TOKEN_SECRET (clock w)) (clock w)
  = Some r ->
  valid r = true ->
  rejects w = false ->
  table w !! sha256hex token = Some row ->
  truthy (row_revoked row) = false ->
  before (row_expires_at row) (clock w) = true ->
  route (Some token) w =
  (Ok (reply 403 "Refresh token expired" None), after_call w).
Proof.
  intros Hne Hr Hv Hw Hrow Hrv Hexp.
  rewrite (refresh_eq token w Hne), Hr, Hv, Hw, Hrow, Hrv, Hexp.
  reflexivity.
Qed.

(** An empty or missing cookie is answered with 401. *)
Lemma refresh_no_cookie w :
  route None w = (Ok (reply 401 "Refresh token not found" None), w) /\
  route (Some "") w = (Ok (reply 401 "Refresh token not found" None), w).
Proof. split; reflexivity. Qed.



(** A request that runs alone through its three stretches is the route. *)
Lemma task_alone cookie other w :
  exists r w',
    route cookie w = (Ok r, w') /\
    race [First; First; First] (Arrived cookie) other w
    = (Finished r, other, w').
Proof.
  unfold refresh, try_catch, bind.
  cbn [interleave task_step]. unfold guarded, bind, ret.
  destruct (refresh_check _ _ _ cookie w) as [[[r|[old p]]|e] w1];
    cbn [interleave task_step]; eauto.
  unfold guarded, bind, ret.
  destruct (revokeRefreshToken sha256hex old w1) as [[b|e] w2] eqn:Hrev.
  - cbn [interleave task_step]. unfold guarded, bind, ret.
    destruct (refresh_issue _ _ _ _ _ _ p w2) as [[r'|e] w3]; eauto.
  - rewrite revokeRefreshToken_eq in Hrev.
    destruct (rejects w1); discriminate.
Qed.

(** C9: for a refresh token that [jwt.verify] reports as expired,
    verifyToken returns [valid] true with no payload, the guard
    [!result.valid] lets it through, and when the stored record is found,
    not revoked, with [expires_at] not in the past, the route ends in its
    catch-all with a 500 reply.  With the store lookup accepted, the
    exception is the TypeError of reading [payload.sub] on undefined, and
    it is raised after the stored record has been revoked. *)
Theorem refresh_expired_token_internal_error
  (token : string) (w : World) (message : string) (instant : Z) (row : Row) :
  token <> "" ->
  jwt_verify token REFRESH_TOKEN_SECRET (clock w)
  = Thrown (TokenExpiredError message instant) ->
  table w !! sha256hex token = Some row ->
  truthy (row_revoked row) = false ->
  before (row_expires_at row) (clock w) = false ->
  (exists e,
     verifyToken jwt_verify token REFRESH_TOKEN_SECRET w =
     (Ok (Some {| valid := true; payload := None; error := Some e |}), w)) /\
  (exists cause, (route (Some token) w).1 = Ok (server_error cause)) /\
  (rejects w = false ->
   (route (Some token) w).1 = Ok (server_error TypeError) /\
   (rejects (after_call w) = false ->
    table (route (Some token) w).2 = revoke_key (table w) (sha256hex token))).
Proof.
  intros Hne Hexp Hrow Hrev Hlive.
  split.
  { rewrite verifyToken_eq, Hexp, classify_expired. eauto. }
  rewrite (refresh_eq token w Hne), Hexp, classify_expired.
  cbn [valid negb payload]. rewrite Hrow, Hrev, Hlive.
  rewrite refresh_issue_eq.
  destruct (rejects w); cbn [fst snd]; [split; [eauto | discriminate]|].
  split; [eauto|]. intros _. split; [reflexivity|].
  intros Hnext. rewrite revokeRefreshToken_eq, Hnext. reflexivity.
Qed.

(** What a successful refresh on a healthy store has done. *)
Lemma refresh_success_inv token w r1 :
  faults w = [] ->
  (route (Some token) w).1 = Ok r1 -> status r1 = 200 ->
  token <> "" /\
  exists claims stored accessToken newRefreshToken,
    jwt_verify token REFRESH_TOKEN_SECRET (clock w) = Decoded claims /\
    table w !! sha256hex token = Some stored /\
    truthy (row_revoked stored) = false /\
    before (row_expires_at stored) (clock w) = false /\
    r1 = {| status := 200; body := Success;
            set_cookie := [("accessToken", accessToken);
                           ("refreshToken", newRefreshToken)] |} /\
    table (route (Some token) w).2 =
    <[sha256hex newRefreshToken := Complete (fresh_attrs (sub claims) w)]>
      (revoke_key (table w) (sha256hex token)) /\
    jwt_sign {| sub := sub claims; email := email claims |}
             ACCESS_TOKEN_SECRET ACCESS_TOKEN_EXPIRY (clock w)
    = Ok accessToken /\
    jwt_sign {| sub := sub claims; email := email claims |}
             REFRESH_TOKEN_SECRET REFRESH_TOKEN_EXPIRY (clock w)
    = Ok newRefreshToken.
Proof.
  intros Hw Hr1 H200.
  destruct (String.eqb_spec token "") as [->|Hne].
  { destruct (refresh_no_cookie w) as [_ Hnone]. rewrite Hnone in Hr1.
    injection Hr1 as <-. discriminate. }
  split; [exact Hne|].
  destruct w as [t f c u]; cbn in Hw; subst f.
  remember (route (Some token) (mkWorld t [] c u)) as res eqn:Hres.
  rewrite (refresh_eq token _ Hne) in Hres.
  cbn [rejects after_call with_faults faults table clock tail] in Hres.
  assert (forall r w', res = (Ok r, w') -> status r <> 200 -> False) as Hno.
  { intros r w' ->. cbn in Hr1. injection Hr1 as <-. intros []. exact H200. }
  destruct (jwt_verify token REFRESH_TOKEN_SECRET c)
    as [claims|[m i|m|m d|n]] eqn:Hv; cbn [classify valid negb payload] in Hres.
  all: try (exfalso; eapply Hno; [exact Hres | discriminate]).
  all: destruct (t !! sha256hex token) as [stored|] eqn:Hrow;
    [|exfalso; eapply Hno; [exact Hres | discriminate]].
  all: destruct (truthy (row_revoked stored)) eqn:Hrv;
    [exfalso; eapply Hno; [exact Hres | discriminate]|].
  all: destruct (before (row_expires_at stored) c) eqn:Hexp;
    [exfalso; eapply Hno; [exact Hres | discriminate]|].
  all: rewrite revokeRefreshToken_eq, refresh_issue_eq in Hres.
  all: cbn [rejects after_call after_uuid with_table with_faults faults table
            clock next_uuid tail fst snd] in Hres.
  2: { exfalso; eapply Hno; [exact Hres | discriminate]. }
  cbv zeta in Hres.
  destruct (jwt_sign _ ACCESS_TOKEN_SECRET _ _) as [a|e] eqn:Ha;
    [|exfalso; eapply Hno; [exact Hres | discriminate]].
  destruct (jwt_sign _ REFRESH_TOKEN_SECRET _ _) as [n|e] eqn:Hn;
    [|exfalso; eapply Hno; [exact Hres | discriminate]].
  subst res. cbn in Hr1. injection Hr1 as <-.
  exists claims, stored, a, n. by repeat split.
Qed.

(** C1, as the code has it: on a store that accepts every call, when a
    refresh succeeds and the refresh token it issues differs from the one
    presented, the route first revoked the stored record of the presented
    token and then created the record of the new one.  The order shows in
    the request's stretches (after the second of its three store calls
    the old record is revoked and the new one is not yet there) and in
    what a rejected creation leaves behind: had the store rejected the
    third call, the reply would be a 500 and the presented token revoked
    all the same.  From then on, as long as the record of the presented
    token is revoked or gone, a refresh with the same raw token is
    answered with 403 or 500, sets no cookie and leaves the table as it
    is, and the answer is 403 "Refresh token not found or revoked"
    whenever the token still passes verifyToken and the store answers.
    This holds for requests that run one after the other. *)
Theorem refresh_rotation_single_use (token : string) (w : World) (r1 : Response) :
  faults w = [] ->
  (route (Some token) w).1 = Ok r1 ->
  status r1 = 200 ->
  (forall n, ("refreshToken", n) ∈ set_cookie r1 ->
             sha256hex n <> sha256hex token) ->
  let w1 := (route (Some token) w).2 in
  (exists accessToken newRefreshToken a,
     set_cookie r1 = [("accessToken", accessToken);
                      ("refreshToken", newRefreshToken)] /\
     revoked a = false /\
     table w1 = <[sha256hex newRefreshToken := Complete a]>
                  (revoke_key (table w) (sha256hex token))) /\
  (exists row, table w1 !! sha256hex token = Some row /\
               row_revoked row = Some true) /\
  (forall other, exists claims mid,
     race [First; First] (Arrived (Some token)) other w
     = (Rotating claims, other, mid) /\
     table mid = revoke_key (table w) (sha256hex token) /\
     race [First] (Rotating claims) other mid = (Finished r1, other, w1)) /\
  (forall w0, table w0 = table w -> clock w0 = clock w ->
              faults w0 = [false; false; true] ->
     (route (Some token) w0).1 = Ok (server_error StoreError) /\
     table (route (Some token) w0).2
     = revoke_key (table w) (sha256hex token)) /\
  (forall w2,
     (forall row, table w2 !! sha256hex token = Some row ->
                  truthy (row_revoked row) = true) ->
     (exists r2, (route (Some token) w2).1 = Ok r2 /\
                 (status r2 = 403 \/ status r2 = 500) /\
                 set_cookie r2 = []) /\
     table (route (Some token) w2).2 = table w2 /\
     (rejects w2 = false ->
      forall r, classify (jwt_verify token REFRESH_TOKEN_SECRET (clock w2))
                         (clock w2) = Some r ->
                valid r = true ->
                (route (Some token) w2).1 = Ok not_found)).
Proof.
  intros Hw Hr1 H200 Hfresh w1.
  destruct (refresh_success_inv token w r1 Hw Hr1 H200)
    as (Hne & claims & stored & a & n & Hv & Hrow & Hrv & Hexp & -> & Ht
        & Ha & Hn).
  fold w1 in Ht.
  assert (sha256hex n <> sha256hex token) as Hdiff.
  { apply Hfresh. cbn. apply list_elem_of_further, list_elem_of_here. }
  assert (exists row, table w1 !! sha256hex token = Some row /\
                      row_revoked row = Some true) as Hold.
  { rewrite Ht, lookup_insert_ne, lookup_revoke_key, decide_True by done.
    eexists. split; [reflexivity|]. apply row_set_revoked_true. }
  split; [|split; [exact Hold|split; [|split]]].
  - exists a, n, (fresh_attrs (sub claims) w). by repeat split.
  - intros other. exists (Some claims).
    subst w1. destruct w as [t f c u]; cbn in Hw, Hv, Hrow, Hexp, Ha, Hn;
      subst f.
    rewrite (refresh_eq token _ Hne).
    cbn [interleave task_step]. unfold guarded. unfold bind at 1.
    rewrite (refresh_check_eq token _ Hne).
    cbn [rejects after_call with_faults faults table clock tail].
    rewrite Hv. cbn [classify valid negb payload]. rewrite Hrow, Hrv, Hexp.
    unfold ret. cbn [interleave task_step]. unfold guarded, bind, ret.
    rewrite !revokeRefreshToken_eq.
    cbn [rejects after_call with_table with_faults faults table clock
         next_uuid tail fst snd].
    eexists. split; [reflexivity|]. split; [reflexivity|].
    cbn [interleave task_step]. unfold guarded, bind, ret.
    rewrite !refresh_issue_eq. cbv zeta.
    cbn [rejects after_call after_uuid with_table with_faults faults table
         clock next_uuid tail fst snd].
    rewrite Ha, Hn. reflexivity.
  - intros w0 Ht0 Hc0 Hf0.
    destruct w0 as [t0 f0 c0 u0]; cbn in Ht0, Hc0, Hf0; subst t0 c0 f0.
    rewrite (refresh_eq token _ Hne).
    cbn [rejects after_call with_faults faults table clock tail].
    rewrite Hv. cbn [classify valid negb payload]. rewrite Hrow, Hrv, Hexp.
    rewrite revokeRefreshToken_eq, refresh_issue_eq. cbv zeta.
    cbn [rejects after_call after_uuid with_table with_faults faults table
         clock next_uuid tail fst snd].
    rewrite Ha, Hn. by split.
  - intros w2 Hgone.
    assert (match table w2 !! sha256hex token with
            | Some row => if truthy (row_revoked row) then true else false
            | None => true
            end = true) as Hcase.
    { destruct (table w2 !! sha256hex token) as [row|] eqn:Hrow2;
        [|reflexivity]. by rewrite (Hgone row eq_refl). }
    rewrite (refresh_eq token w2 Hne).
    destruct (classify _ _) as [r|]; [destruct (valid r) eqn:Hvalid|];
      cbn [negb].
    + destruct (rejects w2); cbn [fst snd].
      * split; [eexists; split; [reflexivity|]; split; [by right | done]|].
        split; [by destruct w2 | discriminate].
      * destruct (table w2 !! sha256hex token) as [row|];
          [destruct (truthy (row_revoked row)); [|discriminate]|];
          cbn [fst snd].
        all: split;
          [eexists; split; [reflexivity|]; split; [by left | done]|].
        all: split; [by destruct w2 | reflexivity].
    + cbn [fst snd].
      split; [eexists; split; [reflexivity|]; split; [by left | done]|].
      split; [done|]. intros _ r' [= <-] Hv'. congruence.
    + cbn [fst snd].
      split; [eexists; split; [reflexivity|]; split; [by left | done]|].
      split; [done|]. intros _ r' [=].
Qed.

End Route.

(** The refresh token of the example, 100 ms after the expiry of its
    signature and 250 ms before the expiry of its stored record. *)
Lemma refresh_expired_token_internal_error_witness :
  (Demo.refresh (Some Demo.rt) Demo.signed_expiry_passed).1
  = Ok (server_error TypeError) /\
  table (Demo.refresh (Some Demo.rt) Demo.signed_expiry_passed).2
  = revoke_key Demo.one_session (Demo.digest Demo.rt).
Proof.
  destruct (refresh_expired_token_internal_error
              Demo.digest Demo.verify Demo.sign "access" "refresh" "15m" "7d"
              Demo.rt Demo.signed_expiry_passed "jwt expired" Demo.week
              (Demo.row_of "u1" 350 false))
    as (_ & _ & H).
  - vm_compute. discriminate.
  - vm_compute. reflexivity.
  - vm_compute. reflexivity.
  - reflexivity.
  - vm_compute. reflexivity.
  - destruct (H eq_refl) as [H500 Htable]. split; [exact H500|].
    exact (Htable eq_refl).
Defined.

(** The refresh token of the example, used twice in a row, five seconds
    after it was issued. *)
Lemma refresh_rotation_single_use_witness :
  let w := Demo.world Demo.one_session [] 5000 in
  (Demo.refresh (Some Demo.rt) w).1 =
  Ok {| status := 200; body := Success;
        set_cookie := [("accessToken", "access.u1.5");
                       ("refreshToken", "refresh.u1.5")] |} /\
  (Demo.refresh (Some Demo.rt) (Demo.refresh (Some Demo.rt) w).2).1
  = Ok not_found.
Proof.
  cbv zeta.
  assert ((Demo.refresh (Some Demo.rt) (Demo.world Demo.one_session [] 5000)).1
          = Ok {| status := 200; body := Success;
                  set_cookie := [("accessToken", "access.u1.5");
                                 ("refreshToken", "refresh.u1.5")] |}) as Hfirst
    by (vm_compute; reflexivity).
  split; [exact Hfirst|].
  destruct (refresh_rotation_single_use
              Demo.digest Demo.verify Demo.sign "access" "refresh" "15m" "7d"
              Demo.rt (Demo.world Demo.one_session [] 5000) _
              eq_refl Hfirst eq_refl)
    as (_ & (row & Hrow & Hrev) & _ & _ & Hnext).
  - intros n [[= _ <-]|Hin]%elem_of_cons.
    + apply elem_of_cons in Hin as [[= ->]|Hin%elem_of_nil]; [|done].
      vm_compute. discriminate.
  - destruct (Hnext (Demo.refresh (Some Demo.rt)
                       (Demo.world Demo.one_session [] 5000)).2)
      as (_ & _ & Hfound).
    + intros row' Hrow'.
      pose proof (eq_trans (eq_sym Hrow) Hrow') as [= <-].
      by rewrite Hrev.
    + eapply Hfound; vm_compute; reflexivity.
Defined.

(** C1, the claim as stated fails: two refresh requests that present the
    same raw token and both read the stored record before either revokes
    it are both answered with 200, and both refresh tokens they were given
    are active afterwards. *)
Lemma concurrent_refresh_double_success :
  let w := Demo.world Demo.one_session [] 5000 in
  let ok (second : string) :=
    {| status := 200; body := Success;
       set_cookie := [("accessToken", "access.u1." ++ second);
                      ("refreshToken", "refresh.u1." ++ second)] |} in
  let end_ := Demo.interleave
                [First; Second; First; First; Tick 1000; Second; Second]
                (Arrived (Some Demo.rt)) (Arrived (Some Demo.rt)) w in
  end_.1 = (Finished (ok "5"), Finished (ok "6")) /\
  map token_hash (active_of "u1" (table end_.2))
  ≡ₚ [Demo.digest "refresh.u1.5"; Demo.digest "refresh.u1.6"].
Proof. vm_compute. split; [reflexivity|]. apply perm_swap || reflexivity. Qed.

(** One request after the other, with the store rejecting the revoke
    update of the first: revokeRefreshToken answers [false], the route
    goes on, and the same raw token is accepted a second time. *)
Example refresh_replay_after_swallowed_failure :
  let w := Demo.world Demo.one_session [false; true] 5000 in
  let first := Demo.refresh (Some Demo.rt) w in
  status <$> (match first.1 with Ok r => Some r | Throw _ => None end)
  = Some 200 /\
  status <$> (match (Demo.refresh (Some Demo.rt) first.2).1 with
              | Ok r => Some r | Throw _ => None end)
  = Some 200.
Proof. vm_compute. split; reflexivity. Qed.

(** A refresh within the second in which the token was issued signs the
    same string again: createRefreshToken then replaces the record it has
    just revoked, and the presented token is active again. *)
Example refresh_same_second_reissues_token :
  let w := Demo.world Demo.one_session [] 500 in
  let first := Demo.refresh (Some Demo.rt) w in
  first.1 = Ok {| status := 200; body := Success;
                  set_cookie := [("accessToken", "access.u1.0");
                                 ("refreshToken", Demo.rt)] |} /\
  row_revoked <$> table first.2 !! Demo.digest Demo.rt = Some (Some false) /\
  (Demo.refresh (Some Demo.rt) first.2).1 = first.1.
Proof. vm_compute. repeat split; reflexivity. Qed.

(** ** The repository operations together *)

(** Projections of worlds built by the operations. *)
Ltac simpl_world :=
  cbn [rejects after_call after_calls after_uuid with_table with_faults
       with_clock faults table clock next_uuid tail fst snd].

Lemma healthy_rejects w : faults w = [] -> rejects w = false.
Proof. unfold rejects. by intros ->. Qed.

Lemma after_calls_healthy n w : faults w = [] -> after_calls n w = w.
Proof.
  destruct w as [t f c u]; cbn; intros ->. unfold after_calls; cbn.
  by rewrite drop_nil.
Qed.

Lemma getUserTokens_eq userId w :
  getUserTokens userId w =
  if rejects w then (Throw StoreError, after_call w)
  else (Ok (active_of userId (table w)), after_call w).
Proof.
  unfold getUserTokens, try_catch, bind, ret, rethrow, throw.
  rewrite send_eq. destruct (rejects w); [reflexivity|].
  cbn [fst snd]. unfold active_of.
  replace (with_table (QueryCommand userId (Some false) (table w)).2
             (after_call w))
    with (after_call w) by (by destruct w).
  reflexivity.
Qed.

Lemma truthy_row_set_revoked o : truthy (row_revoked (row_set_revoked true o)) = true.
Proof. by rewrite row_set_revoked_true. Qed.

Section Composition.

Variable sha256hex : string -> string.

(** X3: what createRefreshToken stores can be read back.  On a store
    that accepts every call, createRefreshToken returns a record for the
    user, not revoked, with the identifier drawn, created and last used
    at the instant of the call, expiring no sooner than seven days after
    its creation, with a [ttl] that is the expiry in whole seconds; that
    record is the one getRefreshToken then returns for the same token and
    one of those getUserTokens lists for the user, and the lookup of
    every token with another hash answers as before. *)
Theorem createRefreshToken_round_trip (userId token : string) (w : World) :
  faults w = [] ->
  let created := createRefreshToken sha256hex userId token w in
  exists a,
    created.1 = Ok (mkRecord (sha256hex token) a) /\
    id a = next_uuid w /\ user_id a = userId /\ revoked a = false /\
    created_at a = clock w /\ last_used_at a = created_at a /\
    created_at a + 604800000 <= expires_at a /\
    ttl a * 1000 <= expires_at a < ttl a * 1000 + 1000 /\
    (getRefreshToken sha256hex token created.2).1
    = Ok (Some (mkItem (sha256hex token) (Complete a))) /\
    (exists l, (getUserTokens userId created.2).1 = Ok l /\
               mkRecord (sha256hex token) a ∈ l) /\
    (forall token',
       sha256hex token' <> sha256hex token ->
       (getRefreshToken sha256hex token' created.2).1
       = (getRefreshToken sha256hex token' w).1).
Proof.
  intros Hw. destruct w as [t f c u]; cbn in Hw; subst f. cbv zeta.
  exists (fresh_attrs userId (mkWorld t [] c u)).
  rewrite createRefreshToken_eq. simpl_world.
  split; [reflexivity|]. do 5 (split; [reflexivity|]).
  rewrite !getRefreshToken_eq, getUserTokens_eq.
  simpl_world.
  split; [|split; [|split; [|split]]].
  - cbn. lia.
  - cbn [fresh_attrs ttl expires_at clock].
    pose proof (Z.div_mod (c + 7 * 24 * 60 * 60 * 1000) 1000 ltac:(lia)).
    pose proof (Z.mod_pos_bound (c + 7 * 24 * 60 * 60 * 1000) 1000
                  ltac:(lia)).
    lia.
  - rewrite lookup_insert_eq. reflexivity.
  - eexists. split; [reflexivity|]. apply elem_of_active_of.
    cbn. by rewrite lookup_insert_eq.
  - intros token' Hne. rewrite !getRefreshToken_eq.
    simpl_world.
    by rewrite lookup_insert_ne.
Qed.

(** X4: revoking one token takes exactly that token out of use.  On a
    store that accepts every call, after revokeRefreshToken the lookup of
    the same token returns none, every user's list of active tokens is the
    former one without the record of that hash, and the lookup of every
    token with another hash answers as before. *)
Theorem revokeRefreshToken_isolates (token : string) (w : World) :
  faults w = [] ->
  let after := (revokeRefreshToken sha256hex token w).2 in
  (getRefreshToken sha256hex token after).1 = Ok None /\
  (forall userId,
     exists l, (getUserTokens userId after).1 = Ok l /\
               l ≡ₚ filter (fun it => token_hash it <> sha256hex token)
                           (active_of userId (table w))) /\
  (forall token',
     sha256hex token' <> sha256hex token ->
     (getRefreshToken sha256hex token' after).1
     = (getRefreshToken sha256hex token' w).1).
Proof.
  intros Hw. destruct w as [t f c u]; cbn in Hw; subst f. cbv zeta.
  rewrite revokeRefreshToken_eq. simpl_world.
  split; [|split].
  - rewrite getRefreshToken_eq. simpl_world.
    rewrite lookup_revoke_key, decide_True by done.
    by rewrite truthy_row_set_revoked.
  - intros userId. rewrite getUserTokens_eq. simpl_world.
    eexists. split; [reflexivity|].
    apply NoDup_Permutation.
    + apply NoDup_active_of.
    + apply NoDup_filter, NoDup_active_of.
    + intros it. rewrite list_elem_of_filter, !elem_of_active_of.
      rewrite lookup_revoke_key. split.
      * intros (Hk & Hu & Hr). case_decide as Hd.
        -- injection Hk as Hk. apply (f_equal row_revoked) in Hk.
           rewrite row_set_revoked_true in Hk. cbn in Hk. congruence.
        -- split; [congruence | done].
      * intros (Hne & Hk & Hu & Hr). by rewrite decide_False by congruence.
  - intros token' Hne. rewrite !getRefreshToken_eq.
    simpl_world.
    by rewrite lookup_revoke_key, decide_False by congruence.
Qed.


(** X6: getUserTokens lists the user's active records and nothing
    else.  When the store answers, the list holds exactly the stored
    records of the user whose [revoked] attribute is false, each under its
    own hash and once, and the table is unchanged; when the query is
    rejected the function throws.  After a revokeAllUserTokens whose calls
    were all accepted the list is empty. *)
Theorem getUserTokens_lists_active (userId : string) (w : World) :
  (rejects w = true -> (getUserTokens userId w).1 = Throw StoreError) /\
  (rejects w = false ->
   exists l,
     (getUserTokens userId w).1 = Ok l /\
     NoDup (map token_hash l) /\
     (forall it, it ∈ l <->
        table w !! token_hash it = Some (Complete (attrs it)) /\
        user_id (attrs it) = userId /\ revoked (attrs it) = false)) /\
  table (getUserTokens userId w).2 = table w /\
  (faults w = [] ->
   (getUserTokens userId (revokeAllUserTokens userId w).2).1 = Ok []).
Proof.
  rewrite getUserTokens_eq. split; [|split; [|split]].
  - by intros ->.
  - intros ->. eexists. split; [reflexivity|]. split.
    + rewrite active_of_records_of.
      eapply sublist_NoDup; [apply (NoDup_records_of userId (table w))|].
      apply (fmap_sublist token_hash), sublist_filter.
    + apply elem_of_active_of.
  - by destruct (rejects w), w.
  - intros Hw. destruct w as [t f c u]; cbn in Hw; subst f.
    pose proof (revokeAllUserTokens_eq userId (mkWorld t [] c u)) as Heq.
    cbv zeta in Heq. rewrite Heq. clear Heq.
    rewrite (after_call_healthy (mkWorld t [] c u) eq_refl).
    rewrite (after_calls_healthy _ (mkWorld t [] c u) eq_refl).
    simpl_world. rewrite getUserTokens_eq. simpl_world.
    rewrite revoke_accepted_all by (by rewrite take_nil).
    f_equal. apply revoke_live_records.
Qed.

End Composition.

Lemma createRefreshToken_round_trip_witness :
  let w := Demo.world Demo.revoked_session [] 5000 in
  exists a,
    (createRefreshToken Demo.digest "u1" "fresh" w).1
    = Ok (mkRecord (Demo.digest "fresh") a) /\
    (getRefreshToken Demo.digest "fresh"
       (createRefreshToken Demo.digest "u1" "fresh" w).2).1
    = Ok (Some (mkItem (Demo.digest "fresh") (Complete a))).
Proof.
  destruct (createRefreshToken_round_trip Demo.digest "u1" "fresh"
              (Demo.world Demo.revoked_session [] 5000) eq_refl)
    as (a & Hcreated & _ & _ & _ & _ & _ & _ & _ & Hread & _).
  exists a. split; [exact Hcreated | exact Hread].
Defined.

Lemma revokeRefreshToken_isolates_witness :
  (getRefreshToken Demo.digest "t1"
     (revokeRefreshToken Demo.digest "t1"
        (Demo.world Demo.two_sessions [] 5000)).2).1 = Ok None.
Proof.
  exact (proj1 (revokeRefreshToken_isolates Demo.digest "t1"
                  (Demo.world Demo.two_sessions [] 5000) eq_refl)).
Defined.


(** ** Limiting, then issuing *)

Lemma active_of_insert userId t k a :
  user_id a = userId -> revoked a = false ->
  active_of userId (<[k := Complete a]> t)
  ≡ₚ mkRecord k a :: filter (fun it => token_hash it <> k) (active_of userId t).
Proof.
  intros Hu Hr. apply NoDup_Permutation.
  - apply NoDup_active_of.
  - apply NoDup_cons. split; [|apply NoDup_filter, NoDup_active_of].
    by intros [? _]%list_elem_of_filter.
  - intros it. rewrite elem_of_cons, list_elem_of_filter, !elem_of_active_of.
    rewrite lookup_insert. split.
    + intros (Hk & Hu' & Hr'). case_decide as Hd.
      * left. injection Hk as Hk. destruct it; cbn in *; congruence.
      * right. split; [congruence | done].
    + intros [->|(Hne & Hk & Hu' & Hr')]; cbn.
      * by rewrite decide_True.
      * by rewrite decide_False by congruence.
Qed.

Section Limiting.

Variable sha256hex : string -> string.

Lemma createRefreshToken_adds_one userId token w :
  faults w = [] ->
  let created := (createRefreshToken sha256hex userId token w).2 in
  (length (active_of userId (table created))
   <= S (length (active_of userId (table w))))%nat /\
  mkRecord (sha256hex token) (fresh_attrs userId w)
  ∈ active_of userId (table created).
Proof.
  intros Hw. destruct w as [t f c u]; cbn in Hw; subst f. cbv zeta.
  rewrite createRefreshToken_eq. simpl_world. split.
  - rewrite (Permutation_length
               (active_of_insert userId t (sha256hex token)
                  (fresh_attrs userId (mkWorld t [] c u)) eq_refl eq_refl)).
    cbn [length]. apply le_n_S, length_filter.
  - apply elem_of_active_of. cbn. by rewrite lookup_insert_eq.
Qed.

Lemma limitUserTokens_healthy userId maxTokens w :
  faults w = [] ->
  1 <= maxTokens ->
  faults (limitUserTokens userId maxTokens w).2 = [] /\
  Z.of_nat (length (active_of userId
                      (table (limitUserTokens userId maxTokens w).2)))
  = Z.min (Z.of_nat (length (active_of userId (table w)))) (maxTokens - 1).
Proof.
  intros Hw Hmax. destruct w as [t f c u]; cbn in Hw; subst f.
  pose proof (limitUserTokens_eq userId maxTokens (mkWorld t [] c u)) as Heq.
  cbv zeta in Heq. rewrite Heq. clear Heq. simpl_world.
  rewrite (after_call_healthy (mkWorld t [] c u) eq_refl).
  rewrite (after_calls_healthy _ (mkWorld t [] c u) eq_refl).
  pose proof (js_sort_length newest_first (active_of userId t)) as Hlen.
  destruct (Z.geb_spec
              (Z.of_nat (length (js_sort newest_first (active_of userId t))))
              maxTokens) as [Hge|Hlt]; simpl_world.
  - split; [reflexivity|].
    rewrite revoke_accepted_all by (by rewrite take_nil).
    rewrite js_slice_from_index by lia.
    set (sorted := js_sort newest_first (active_of userId t)) in *.
    assert (Permutation
              (take (Z.to_nat (maxTokens - 1)) sorted
               ++ drop (Z.to_nat (maxTokens - 1)) sorted)%list
              (active_of userId t)) as Hp.
    { rewrite take_drop. apply js_sort_Permutation. }
    destruct (active_after_revoking userId t _ _ Hp) as [_ Hkept].
    rewrite (Permutation_length Hkept), length_take. lia.
  - split; [reflexivity|]. lia.
Qed.

(** X7: limiting before issuing keeps the user within the limit.  On a
    store that accepts every call and for a limit of at least 1, after
    limitUserTokens the user has at most [maxTokens - 1] active records
    (all of them when there were fewer), and after the createRefreshToken
    that follows at most [maxTokens], the new record among them. *)
Theorem limitUserTokens_then_create
  (userId token : string) (maxTokens : Z) (w : World) :
  faults w = [] ->
  1 <= maxTokens ->
  let limited := (limitUserTokens userId maxTokens w).2 in
  let created := (createRefreshToken sha256hex userId token limited).2 in
  Z.of_nat (length (active_of userId (table limited)))
  = Z.min (Z.of_nat (length (active_of userId (table w)))) (maxTokens - 1) /\
  Z.of_nat (length (active_of userId (table created))) <= maxTokens /\
  mkRecord (sha256hex token) (fresh_attrs userId limited)
  ∈ active_of userId (table created).
Proof.
  intros Hw Hmax limited created.
  destruct (limitUserTokens_healthy userId maxTokens w Hw Hmax)
    as [Hhealthy Hlim].
  fold limited in Hhealthy, Hlim.
  destruct (createRefreshToken_adds_one userId token limited Hhealthy)
    as [Hle Hin].
  fold created in Hle, Hin. repeat split; [exact Hlim | lia | exact Hin].
Qed.

End Limiting.

Lemma limitUserTokens_then_create_witness :
  let w := Demo.world Demo.seven_sessions [] 5000 in
  Z.of_nat (length (active_of "u1"
     (table (createRefreshToken Demo.digest "u1" "s8"
               (limitUserTokens "u1" 5 w).2).2))) <= 5.
Proof.
  exact (proj1 (proj2 (limitUserTokens_then_create Demo.digest "u1" "s8" 5
                         (Demo.world Demo.seven_sessions [] 5000)
                         eq_refl ltac:(lia)))).
Defined.

(** ** The middlewares together *)

Lemma substring_all (s : string) : String.substring 0 (String.length s) s = s.
Proof. induction s as [|c s IH]; cbn; [done | by rewrite IH]. Qed.

Lemma substring_after_prefix (p s : string) :
  substring_from (String.length p) (p ++ s) = s.
Proof.
  unfold substring_from. induction p as [|c p IH]; cbn.
  - rewrite Nat.sub_0_r. apply substring_all.
  - exact IH.
Qed.

(** [("Bearer " + token).substring(7)] is the token. *)
Lemma substring_from_bearer (token : string) :
  substring_from 7 ("Bearer " ++ token) = token.
Proof. exact (substring_after_prefix "Bearer " token). Qed.

Lemma prefix_bearer (token : string) :
  String.prefix "Bearer " ("Bearer " ++ token) = true.
Proof. cbn. by destruct token. Qed.

Section Guard.

Variable jwt_verify : string -> string -> Z -> JwtVerify.
Variable ACCESS_TOKEN_SECRET : string.

(** X8: the accessToken cookie takes precedence over the Authorization
    header.  With a non-empty accessToken cookie, cookieToAuthHeader sets
    the authorization header to the cookie's token, applying it twice
    changes nothing more, and authenticateRequest then decides on the
    cookie's token alone, whatever header the client sent; without such a
    cookie the request is left as it is. *)
Theorem cookieToAuthHeader_cookie_wins
  (req : Request) (token : string) (w : World) :
  accessToken (cookies req) = Some token ->
  token <> "" ->
  let req' := cookieToAuthHeader req in
  authorization (headers req') = Some ("Bearer " ++ token) /\
  cookieToAuthHeader req' = req' /\
  authenticateRequest jwt_verify ACCESS_TOKEN_SECRET (headers req') w =
  match classify (jwt_verify token ACCESS_TOKEN_SECRET (clock w)) (clock w)
  with
  | None => (Throw TypeError, w)
  | Some r =>
      if valid r && present (error r)
      then (Ok (Replied 401 (ErrorObject (error r))), w)
      else if negb (valid r)
           then (Ok (Replied 403 (ErrorObject (error r))), w)
           else (Ok (Next (payload r)), w)
  end /\
  (forall other,
     nonempty (accessToken (cookies other)) = None ->
     cookieToAuthHeader other = other).
Proof.
  intros Hc Hne. cbv zeta.
  assert (nonempty (Some token) = Some token) as Hn.
  { cbn. by rewrite (proj2 (String.eqb_neq token "") Hne). }
  assert (cookieToAuthHeader req =
          {| headers := {| authorization := Some ("Bearer " ++ token);
                           Authorization := Authorization (headers req) |};
             cookies := cookies req |}) as Heq.
  { unfold cookieToAuthHeader. by rewrite Hc, Hn. }
  rewrite Heq. cbn [headers authorization].
  split; [reflexivity|]. split; [|split].
  - unfold cookieToAuthHeader. cbn [cookies headers Authorization].
    by rewrite Hc, Hn.
  - rewrite (authenticateRequest_eq jwt_verify ACCESS_TOKEN_SECRET _
               ("Bearer " ++ token) w).
    + by rewrite substring_from_bearer.
    + cbn [authorization Authorization or_else nonempty].
      reflexivity.
    + apply prefix_bearer.
  - intros other Ho. unfold cookieToAuthHeader. by rewrite Ho.
Qed.

(** X9: authenticateRequest passes a request on only for a verified
    token.  It calls [next()] exactly when the authorization header starts
    with "Bearer " and [jwt.verify] returns claims for the rest of it, and
    [req.user] is then those claims; without such a header it answers 401
    AccessTokenRequired.  It never changes the store. *)
Theorem authenticateRequest_next_iff_verified
  (hs : Headers) (w w' : World) (user : option Payload) :
  (authenticateRequest jwt_verify ACCESS_TOKEN_SECRET hs w
   = (Ok (Next user), w')
   <->
   exists header claims,
     or_else (authorization hs) (Authorization hs) = Some header /\
     String.prefix "Bearer " header = true /\
     jwt_verify (substring_from 7 header) ACCESS_TOKEN_SECRET (clock w)
     = Decoded claims /\
     user = Some claims /\ w' = w) /\
  (startsWith "Bearer " (or_else (authorization hs) (Authorization hs))
   = false ->
   authenticateRequest jwt_verify ACCESS_TOKEN_SECRET hs w
   = (Ok (Replied 401 (ErrorObject (Some AccessTokenRequired))), w)) /\
  (authenticateRequest jwt_verify ACCESS_TOKEN_SECRET hs w).2 = w.
Proof.
  destruct (or_else (authorization hs) (Authorization hs)) as [header|]
    eqn:Hh.
  2: { unfold authenticateRequest. rewrite Hh. cbn.
       split; [|by split]. split; [intros [=] | intros (? & ? & [=] & _)]. }
  destruct (String.prefix "Bearer " header) eqn:Hp.
  2: { unfold authenticateRequest. rewrite Hh. cbn [startsWith]. rewrite Hp.
       cbn. split; [|by split].
       split; [intros [=] | intros (? & ? & [= <-] & ? & _); congruence]. }
  rewrite (authenticateRequest_eq jwt_verify ACCESS_TOKEN_SECRET hs header w
             Hh Hp).
  cbn [startsWith]. rewrite Hp.
  split; [|split; [discriminate|]].
  - destruct (jwt_verify _ _ _) as [claims|[m i|m|m d|n]] eqn:Hv;
      cbn [classify valid error payload present andb negb].
    + split.
      * intros [= <- <-]. by exists header, claims.
      * intros (h & c & [= <-] & _ & Hc & -> & ->). congruence.
    + split; [intros [=] | intros (h & c & [= <-] & _ & Hc & _); congruence].
    + split; [intros [=] | intros (h & c & [= <-] & _ & Hc & _); congruence].
    + split; [intros [=] | intros (h & c & [= <-] & _ & Hc & _); congruence].
    + split; [intros [=] | intros (h & c & [= <-] & _ & Hc & _); congruence].
  - destruct (classify _ _) as [r|]; [|reflexivity].
    destruct (valid r), (error r); reflexivity.
Qed.

End Guard.

Lemma cookieToAuthHeader_cookie_wins_witness :
  let req := {| headers := mkHeaders (Some "Bearer forged") None;
                cookies := mkCookies (Some (Demo.mint "access" "u1" 0)) None |} in
  Demo.authenticateRequest (headers (cookieToAuthHeader req))
                           (Demo.world ∅ [] 5000)
  = (Ok (Next (Some Demo.alice)), Demo.world ∅ [] 5000).
Proof.
  exact (proj1 (proj2 (proj2
           (cookieToAuthHeader_cookie_wins Demo.verify "access"
              {| headers := mkHeaders (Some "Bearer forged") None;
                 cookies := mkCookies (Some (Demo.mint "access" "u1" 0)) None |}
              (Demo.mint "access" "u1" 0) (Demo.world ∅ [] 5000)
              eq_refl ltac:(vm_compute; discriminate))))).
Defined.

(** ** The refresh route and tokens the store never issued *)

Section Unissued.

Variable sha256hex : string -> string.
Variable jwt_verify : string -> string -> Z -> JwtVerify.
Variable jwt_sign : Payload -> string -> string -> Z -> Outcome string.
Variable ACCESS_TOKEN_SECRET REFRESH_TOKEN_SECRET : string.
Variable ACCESS_TOKEN_EXPIRY REFRESH_TOKEN_EXPIRY : string.

(** X10: the route accepts any item that getRefreshToken returns.  On a
    store that accepts every call, a correctly signed refresh token for
    which the table holds nothing is answered with 403; once
    updateRefreshTokenLastUsed has been called for it, the item that
    update left has neither [revoked] nor [expires_at], passes both checks
    of the route, and the same token is answered with 200 and a new pair
    of tokens. *)
Theorem refresh_accepts_touched_token
  (token : string) (w : World) (claims : Payload)
  (newAccess newRefresh : string) :
  faults w = [] ->
  token <> "" ->
  table w !! sha256hex token = None ->
  jwt_verify token REFRESH_TOKEN_SECRET (clock w) = Decoded claims ->
  jwt_sign {| sub := sub claims; email := email claims |}
           ACCESS_TOKEN_SECRET ACCESS_TOKEN_EXPIRY (clock w) = Ok newAccess ->
  jwt_sign {| sub := sub claims; email := email claims |}
           REFRESH_TOKEN_SECRET REFRESH_TOKEN_EXPIRY (clock w) = Ok newRefresh ->
  (refresh sha256hex jwt_verify jwt_sign ACCESS_TOKEN_SECRET
     REFRESH_TOKEN_SECRET ACCESS_TOKEN_EXPIRY REFRESH_TOKEN_EXPIRY
     (Some token) w).1 = Ok not_found /\
  (refresh sha256hex jwt_verify jwt_sign ACCESS_TOKEN_SECRET
     REFRESH_TOKEN_SECRET ACCESS_TOKEN_EXPIRY REFRESH_TOKEN_EXPIRY
     (Some token) (updateRefreshTokenLastUsed sha256hex token w).2).1
  = Ok {| status := 200; body := Success;
          set_cookie := [("accessToken", newAccess);
                         ("refreshToken", newRefresh)] |}.
Proof.
  intros Hw Hne Hnone Hv Ha Hr.
  destruct w as [t f c u]; cbn in Hw; subst f. cbn [clock table] in *.
  split.
  - rewrite (refresh_eq sha256hex jwt_verify jwt_sign ACCESS_TOKEN_SECRET
               REFRESH_TOKEN_SECRET ACCESS_TOKEN_EXPIRY REFRESH_TOKEN_EXPIRY
               token _ Hne).
    simpl_world. rewrite Hv. cbn [classify valid negb]. by rewrite Hnone.
  - rewrite updateRefreshTokenLastUsed_eq. simpl_world.
    rewrite (refresh_eq sha256hex jwt_verify jwt_sign ACCESS_TOKEN_SECRET
               REFRESH_TOKEN_SECRET ACCESS_TOKEN_EXPIRY REFRESH_TOKEN_EXPIRY
               token _ Hne).
    simpl_world. rewrite Hv. cbn [classify valid negb payload].
    rewrite lookup_insert_eq, Hnone.
    cbn [row_set_last_used_at row_revoked truthy row_expires_at before].
    rewrite revokeRefreshToken_eq, refresh_issue_eq. simpl_world.
    cbv zeta. rewrite Ha, Hr. reflexivity.
Qed.

End Unissued.

Lemma refresh_accepts_touched_token_witness :
  let w := Demo.world ∅ [] 5000 in
  (Demo.refresh (Some Demo.rt) w).1 = Ok not_found /\
  (Demo.refresh (Some Demo.rt)
     (updateRefreshTokenLastUsed Demo.digest Demo.rt w).2).1
  = Ok {| status := 200; body := Success;
          set_cookie := [("accessToken", "access.u1.5");
                         ("refreshToken", "refresh.u1.5")] |}.
Proof.
  apply (refresh_accepts_touched_token Demo.digest Demo.verify Demo.sign
           "access" "refresh" "15m" "7d" Demo.rt (Demo.world ∅ [] 5000)
           Demo.alice "access.u1.5" "refresh.u1.5").
  - reflexivity.
  - vm_compute. discriminate.
  - reflexivity.
  - vm_compute. reflexivity.
  - vm_compute. reflexivity.
  - vm_compute. reflexivity.
Defined.

(** ** The users table *)

Lemma send_users_eq {A}
  (command : gmap string Account.attrs
             -> Result A * gmap string Account.attrs) s :
  send_users command s =
  if rejects (store s) then (Failed (Raised StoreError), after_site_call s)
  else ((command (users s)).1,
        with_users (command (users s)).2 (after_site_call s)).
Proof.
  destruct s as [u sl [t f c n]].
  unfold send_users, rejects, after_site_call, after_call; simpl.
  destruct f as [|[] fs]; simpl; try reflexivity;
    destruct (command u) as [r u']; reflexivity.
Qed.

Lemma after_site_call_healthy s : faults (store s) = [] -> after_site_call s = s.
Proof. destruct s as [u sl [t f c n]]; simpl; intros ->; reflexivity. Qed.

Lemma elem_of_email_entries email u x :
  x ∈ omap (email_entry email) (map_to_list u) <->
  u !! Account.id x = Some (Account.fields x) /\
  Account.email (Account.fields x) = email.
Proof.
  rewrite list_elem_of_omap. split.
  - intros ([k a] & Hin & He). apply elem_of_map_to_list in Hin.
    unfold email_entry in He; cbn in He. case_decide; [|discriminate].
    injection He as <-. by cbn.
  - intros [Hl He]. exists (Account.id x, Account.fields x).
    split; [by apply elem_of_map_to_list|].
    unfold email_entry; cbn. rewrite decide_True by done. by destruct x.
Qed.

Lemma user_by_email_Some email u x :
  user_by_email email u = Some x ->
  u !! Account.id x = Some (Account.fields x) /\
  Account.email (Account.fields x) = email.
Proof.
  unfold user_by_email. intros H. apply elem_of_email_entries.
  destruct (omap _ _) as [|y l]; [discriminate|].
  injection H as ->. apply elem_of_cons. by left.
Qed.

Lemma user_by_email_None email u :
  user_by_email email u = None <->
  forall id a, u !! id = Some a -> Account.email a <> email.
Proof.
  unfold user_by_email. split.
  - intros H id a Hl He.
    assert (Account.mk id a ∈ omap (email_entry email) (map_to_list u)) as Hin
      by (by apply elem_of_email_entries).
    destruct (omap _ _); [by apply elem_of_nil in Hin | discriminate].
  - intros H. destruct (omap _ _) as [|x l] eqn:Ho; [reflexivity|].
    assert (x ∈ omap (email_entry email) (map_to_list u)) as Hin
      by (rewrite Ho; apply elem_of_cons; by left).
    apply elem_of_email_entries in Hin as [Hl He]. by destruct (H _ _ Hl).
Qed.

Lemma user_by_email_unique email u id a :
  u !! id = Some a -> Account.email a = email ->
  (forall id' a', u !! id' = Some a' -> Account.email a' = email -> id' = id) ->
  user_by_email email u = Some (Account.mk id a).
Proof.
  intros Hl He Hu. destruct (user_by_email email u) as [x|] eqn:Hx.
  - apply user_by_email_Some in Hx as [Hl' He'].
    pose proof (Hu _ _ Hl' He') as Hid. destruct x as [i f]; cbn in *.
    subst i. congruence.
  - by destruct (proj1 (user_by_email_None email u) Hx _ _ Hl).
Qed.

Lemma getUserByEmail_eq email s :
  getUserByEmail email s =
  if rejects (store s) then (Failed (Raised StoreError), after_site_call s)
  else (Done (user_by_email email (users s)), after_site_call s).
Proof.
  unfold getUserByEmail, act_catch, act_bind, act_rethrow, act_throw, act_ret.
  rewrite send_users_eq. destruct (rejects (store s)); [reflexivity|].
  unfold QueryUserByEmail, user_by_email; cbn [fst snd].
  replace (with_users (users s) (after_site_call s)) with (after_site_call s)
    by (by destruct s).
  by destruct (omap _ _).
Qed.

Lemma getUserById_eq id s :
  getUserById id s =
  if rejects (store s) then (Failed (Raised StoreError), after_site_call s)
  else (Done (Account.mk id <$> users s !! id), after_site_call s).
Proof.
  unfold getUserById, act_catch, act_rethrow, act_throw.
  rewrite send_users_eq. destruct (rejects (store s)); [reflexivity|].
  unfold GetUser; cbn [fst snd].
  replace (with_users (users s) (after_site_call s)) with (after_site_call s)
    by (by destruct s).
  reflexivity.
Qed.

Lemma deleteUser_eq id s :
  deleteUser id s =
  if rejects (store s) then (Failed (Raised StoreError), after_site_call s)
  else (Done true, with_users (delete id (users s)) (after_site_call s)).
Proof.
  unfold deleteUser, act_catch, act_bind, act_rethrow, act_throw, act_ret.
  rewrite send_users_eq. destruct (rejects (store s)); reflexivity.
Qed.

Section AccountFacts.

Variable bcrypt_hash : string -> nat -> string -> string.

Lemma createUser_eq userData s :
  let id := uuid_text (next_uuid (store s)) in
  let s1 := {| users := users s; salts := tail (salts s);
               store := after_call (after_uuid (store s)) |} in
  createUser bcrypt_hash userData s =
  if rejects (store s) then (Failed (Raised StoreError), s1)
  else match users s !! id with
       | Some _ => (Failed ConditionalCheckFailed, s1)
       | None =>
           (Done (Account.without_password
                    (Account.mk id (new_attrs bcrypt_hash userData s))),
            with_users (<[id := new_attrs bcrypt_hash userData s]> (users s))
                       s1)
       end.
Proof.
  destruct s as [u sl [t f c n]]. cbv zeta.
  unfold createUser, act_catch, act_bind, act_rethrow, act_throw, act_ret,
    in_store, randomUUID, now, hash_password, new_attrs.
  cbn [store salts users with_store clock next_uuid].
  destruct sl as [|salt rest]; cbn [head tail default];
    rewrite send_users_eq; unfold rejects, after_site_call, after_call,
      after_uuid, PutNewUser;
    cbn [store salts users with_store with_users faults with_faults table
         clock next_uuid Account.id Account.fields fst snd];
    destruct f as [|[] fs]; cbn [tail]; try reflexivity;
    destruct (u !! uuid_text n); reflexivity.
Qed.

End AccountFacts.

Ltac simpl_site :=
  cbn [users salts store with_store with_users after_site_call rejects
       after_call after_uuid with_table with_faults faults table clock
       next_uuid tail fst snd].

Section UserRepository.

Variable bcrypt_hash : string -> nat -> string -> string.

(** X11: a created user can be read back.  On a healthy store, when the
    identifier drawn is not in use, createUser returns the new item
    without its password; getUserById then returns the item, whose
    password attribute is the bcrypt hash and whose two timestamps are the
    instant of creation; getUserByEmail returns a user with that address,
    the new one when the address was not in use before.  The users that
    were stored stay as they were, and the refresh-token table is not
    touched. *)
Theorem createUser_round_trip (userData : NewUser) (s : Site) :
  faults (store s) = [] ->
  users s !! uuid_text (next_uuid (store s)) = None ->
  let id := uuid_text (next_uuid (store s)) in
  let item := Account.mk id (new_attrs bcrypt_hash userData s) in
  exists s1,
    createUser bcrypt_hash userData s
    = (Done (Account.without_password item), s1) /\
    (getUserById id s1).1 = Done (Some item) /\
    (exists found,
       (getUserByEmail (new_email userData) s1).1 = Done (Some found) /\
       Account.email (Account.fields found) = new_email userData /\
       ((forall i a, users s !! i = Some a ->
                     Account.email a <> new_email userData) ->
        found = item)) /\
    (forall i a, users s !! i = Some a -> users s1 !! i = Some a) /\
    table (store s1) = table (store s).
Proof.
  intros Hf Hfresh. cbv zeta.
  destruct s as [u sl [t f c n]]; cbn in Hf, Hfresh; subst f.
  rewrite createUser_eq. simpl_site. rewrite Hfresh.
  eexists. split; [reflexivity|].
  set (a := new_attrs bcrypt_hash userData _).
  rewrite getUserById_eq, getUserByEmail_eq. simpl_site.
  split; [by rewrite lookup_insert_eq|]. split; [|split; [|reflexivity]].
  - destruct (user_by_email (new_email userData) (<[uuid_text n:=a]> u))
      as [found|] eqn:Hfound.
    + exists found. split; [reflexivity|].
      apply user_by_email_Some in Hfound as [Hl He]. split; [exact He|].
      intros Hfree. destruct found as [i fs]; cbn in *.
      destruct (decide (i = uuid_text n)) as [->|Hne].
      * rewrite lookup_insert_eq in Hl. congruence.
      * rewrite lookup_insert_ne in Hl by done. by destruct (Hfree _ _ Hl).
    + exfalso.
      apply (proj1 (user_by_email_None _ _) Hfound (uuid_text n) a).
      * by rewrite lookup_insert_eq.
      * reflexivity.
  - intros i a' Hi. rewrite lookup_insert_ne; [done|]. congruence.
Qed.

(** X12: createUser never changes a stored user.  Whatever the store
    does, every user that was stored is stored unchanged afterwards; when
    the identifier drawn is already in use and the store accepts the
    call, the conditional put fails and createUser throws
    ConditionalCheckFailed. *)
Theorem createUser_never_overwrites
  (userData : NewUser) (s : Site) (i : string) (a : Account.attrs) :
  users s !! i = Some a ->
  users (createUser bcrypt_hash userData s).2 !! i = Some a /\
  (i = uuid_text (next_uuid (store s)) ->
   rejects (store s) = false ->
   (createUser bcrypt_hash userData s).1 = Failed ConditionalCheckFailed).
Proof.
  intros Hi. rewrite createUser_eq. split.
  - destruct (rejects (store s)); [exact Hi|].
    destruct (users s !! uuid_text (next_uuid (store s))) eqn:Hid;
      [exact Hi|].
    cbn [snd users with_users]. rewrite lookup_insert_ne; [done|]. congruence.
  - intros -> ->. by rewrite Hi.
Qed.

(** X13: a deleted user cannot be read any more.  On a healthy store
    deleteUser returns true, whether or not the user existed; afterwards
    getUserById finds nothing under the identifier and getUserByEmail
    never returns it; the other users and the refresh-token table are as
    before. *)
Theorem deleteUser_then_read (id : string) (s : Site) :
  faults (store s) = [] ->
  exists s1,
    deleteUser id s = (Done true, s1) /\
    (getUserById id s1).1 = Done None /\
    (forall address found,
       (getUserByEmail address s1).1 = Done (Some found) ->
       Account.id found <> id) /\
    (forall i, i <> id -> users s1 !! i = users s !! i) /\
    table (store s1) = table (store s).
Proof.
  intros Hf. destruct s as [u sl [t f c n]]; cbn in Hf; subst f.
  rewrite deleteUser_eq. simpl_site. eexists. split; [reflexivity|].
  rewrite getUserById_eq. simpl_site.
  split; [by rewrite lookup_delete_eq|]. split; [|split; [|reflexivity]].
  - intros address found. rewrite getUserByEmail_eq. simpl_site.
    intros [= Hfound]. apply user_by_email_Some in Hfound as [Hl _].
    intros Heq. rewrite Heq, lookup_delete_eq in Hl. discriminate.
  - intros i Hi. by rewrite lookup_delete_ne.
Qed.

End UserRepository.

Lemma createUser_round_trip_witness :
  exists s1,
    (getUserById "7" s1).1
    = Done (Some (Account.mk "7"
              (new_attrs DemoSite.hash DemoSite.ann
                 (DemoSite.site {[ "u0" := DemoSite.bob ]} ∅ [])))).
Proof.
  assert (users (DemoSite.site {[ "u0" := DemoSite.bob ]} ∅ []) !! "7" = None)
    as Hfresh by (vm_compute; reflexivity).
  destruct (createUser_round_trip DemoSite.hash DemoSite.ann
              (DemoSite.site {[ "u0" := DemoSite.bob ]} ∅ [])
              eq_refl Hfresh) as (s1 & _ & H & _).
  exists s1. exact H.
Defined.

Lemma createUser_never_overwrites_witness :
  users (createUser DemoSite.hash DemoSite.ann
           (DemoSite.site {[ "7" := DemoSite.bob ]} ∅ [])).2 !! "7"
  = Some DemoSite.bob.
Proof.
  assert (users (DemoSite.site {[ "7" := DemoSite.bob ]} ∅ []) !! "7"
          = Some DemoSite.bob) as Hstored by (vm_compute; reflexivity).
  exact (proj1 (createUser_never_overwrites DemoSite.hash DemoSite.ann
                  (DemoSite.site {[ "7" := DemoSite.bob ]} ∅ [])
                  "7" DemoSite.bob Hstored)).
Defined.

Lemma deleteUser_then_read_witness :
  exists s1,
    deleteUser "u0" (DemoSite.site {[ "u0" := DemoSite.bob ]} ∅ [])
    = (Done true, s1) /\
    (getUserById "u0" s1).1 = Done None.
Proof.
  destruct (deleteUser_then_read "u0"
              (DemoSite.site {[ "u0" := DemoSite.bob ]} ∅ []) eq_refl)
    as (s1 & H1 & H2 & _).
  exists s1. split; [exact H1 | exact H2].
Defined.

(** ** POST /auth/login *)

Lemma revokeAllUserTokens_healthy userId w :
  faults w = [] ->
  revokeAllUserTokens userId w =
  (Ok (length (records_of userId (table w))),
   with_table
     (revoke_keys
        (map token_hash
           (filter (fun token => negb (revoked (attrs token)))
                   (records_of userId (table w))))
        (table w)) w).
Proof.
  intros Hw. destruct w as [t f c u]; cbn in Hw; subst f.
  pose proof (revokeAllUserTokens_eq userId (mkWorld t [] c u)) as Heq.
  cbv zeta in Heq. rewrite Heq. clear Heq. simpl_world.
  rewrite (after_call_healthy (mkWorld t [] c u) eq_refl).
  rewrite (after_calls_healthy _ (mkWorld t [] c u) eq_refl).
  unfold rejected_among. simpl_world. rewrite take_nil. cbn [existsb].
  by rewrite revoke_accepted_all by (by rewrite take_nil).
Qed.

(** ** GET /api/protected-test *)

Lemma cookieToAuthHeader_idem req :
  cookieToAuthHeader (cookieToAuthHeader req) = cookieToAuthHeader req.
Proof.
  unfold cookieToAuthHeader.
  destruct (nonempty (accessToken (cookies req))) as [token|] eqn:Hn.
  - cbn [cookies headers Authorization]. by rewrite Hn.
  - by rewrite Hn.
Qed.

Ltac not_granted :=
  let r := fresh "r" in
  let Hr := fresh "Hr" in
  intros r [= <-] Hr; cbn in Hr; discriminate Hr.

Section Protected.

Variable jwt_verify : string -> string -> Z -> JwtVerify.
Variable ACCESS_TOKEN_SECRET : string.

(** X18: the protected route answers 200 only to a verified token of a
    stored user.  With [hs] the headers after cookieToAuthHeader, GET
    /api/protected-test changes neither table; a 200 reply means that the
    authorization header starts with "Bearer ", that [jwt.verify] returned
    claims for the rest of it, and that a stored user has the claims'
    address, whose address and name the body carries.  When [jwt.verify]
    throws an exception of none of the three jsonwebtoken classes, the
    TypeError of authenticateRequest is thrown outside the route's
    try/catch: the route sends no reply of its own. *)
Theorem protectedTest_grants_verified (req : Request) (s : Site) :
  let hs := headers (cookieToAuthHeader req) in
  let outcome := protectedTest jwt_verify ACCESS_TOKEN_SECRET req s in
  users outcome.2 = users s /\
  table (store outcome.2) = table (store s) /\
  (forall r, outcome.1 = Done r -> code r = 200 ->
     exists header claims i a,
       or_else (authorization hs) (Authorization hs) = Some header /\
       String.prefix "Bearer " header = true /\
       jwt_verify (substring_from 7 header) ACCESS_TOKEN_SECRET
                  (clock (store s)) = Decoded claims /\
       users s !! i = Some a /\ Account.email a = email claims /\
       json r = JsonProtected (clock (store s))
                  {| info_email := email claims;
                     info_name := Account.name a |}) /\
  (forall header name,
     or_else (authorization hs) (Authorization hs) = Some header ->
     String.prefix "Bearer " header = true ->
     jwt_verify (substring_from 7 header) ACCESS_TOKEN_SECRET
                (clock (store s)) = Thrown (ForeignError name) ->
     outcome.1 = Failed (Raised TypeError)).
Proof.
  cbv zeta. unfold protectedTest. rewrite cookieToAuthHeader_idem.
  set (hs := headers (cookieToAuthHeader req)).
  destruct s as [u sl [t f c k]].
  unfold act_bind, in_store. cbn [store clock users].
  destruct (or_else (authorization hs) (Authorization hs)) as [header|]
    eqn:Hh.
  2: { unfold authenticateRequest. rewrite Hh. cbn.
       repeat split; [not_granted | intros; congruence]. }
  destruct (String.prefix "Bearer " header) eqn:Hp.
  2: { unfold authenticateRequest. rewrite Hh. cbn [startsWith]. rewrite Hp.
       cbn. repeat split; [not_granted | intros; congruence]. }
  rewrite (authenticateRequest_eq jwt_verify ACCESS_TOKEN_SECRET hs header
             (mkWorld t f c k) Hh Hp).
  cbn [clock].
  destruct (jwt_verify _ _ _) as [claims|[m i|m|m d|n]] eqn:Hv;
    cbn [classify valid error payload present andb negb with_store
         users salts store fst snd].
  - unfold act_catch, act_bind, act_ret, unknown_error.
    rewrite getUserByEmail_eq. cbn [store users with_store salts].
    destruct (rejects (mkWorld t f c k)).
    { cbn. repeat split; [not_granted | intros; congruence]. }
    destruct (user_by_email (email claims) u) as [[i a]|] eqn:Hfound.
    2: { cbn. repeat split; [not_granted | intros; congruence]. }
    apply user_by_email_Some in Hfound as [Hl He]; cbn in Hl, He.
    unfold now. cbn. repeat split; [|intros; congruence].
    intros r [= <-] _. exists header, claims, i, a.
    repeat split; try done. unfold extractUserInfo; cbn. congruence.
  - cbn. repeat split; [not_granted | intros; congruence].
  - cbn. repeat split; [not_granted | intros; congruence].
  - cbn. repeat split; [not_granted | intros; congruence].
  - cbn. repeat split. discriminate.
Qed.

End Protected.

(** ** The Lambda handler *)

Lemma nonempty_Some a s : nonempty a = Some s <-> a = Some s /\ s <> "".
Proof.
  destruct a as [x|]; cbn; [|by split; [|intros []]].
  destruct (String.eqb_spec x ""); split.
  - discriminate.
  - intros [[= ->] ?]; congruence.
  - intros [= ->]. by split.
  - by intros [-> _].
Qed.

Section LambdaHandler.

Variable sha256hex : string -> string.
Variable jwt_sign : Payload -> string -> string -> Z -> Outcome string.
Variable ACCESS_TOKEN_SECRET REFRESH_TOKEN_SECRET : string.
Variable JSON_parse : string -> option Lambda.parsed.
Variable createCookieHeader : string -> string -> Z -> string.

(** X20: the Lambda handler always answers, and grants on equality with
    the stored password attribute.  Whatever the body, the store and the
    signing library do, the handler returns a response with status 200,
    400, 401 or 500 and leaves the users table as it was; a 200 response
    means that the body parsed to a non-empty address and password, that a
    stored user has the address and that the user's stored [password]
    attribute is the submitted string itself; its body carries that user
    without the password. *)
Theorem handler_replies (event_body : option string) (s : Site) :
  exists r s1,
    Lambda.handler sha256hex jwt_sign ACCESS_TOKEN_SECRET
                   REFRESH_TOKEN_SECRET JSON_parse createCookieHeader
                   event_body s
    = (Done r, s1) /\
    (Lambda.statusCode r = 200 \/ Lambda.statusCode r = 400 \/
     Lambda.statusCode r = 401 \/ Lambda.statusCode r = 500) /\
    users s1 = users s /\
    (Lambda.statusCode r = 200 ->
     exists address submitted i a access,
       JSON_parse (default "{}" (nonempty event_body))
       = Some (Lambda.JsonValue (Some address) (Some submitted)) /\
       address <> "" /\ submitted <> "" /\
       users s !! i = Some a /\ Account.email a = address /\
       Account.password a = submitted /\
       Lambda.body r
       = Lambda.LoginSuccessful access
           (Account.without_password (Account.mk i a))).
Proof.
  unfold Lambda.handler, act_catch, act_bind, act_ret, act_throw.
  destruct (JSON_parse _) as [[|e p]|] eqn:Hparse; cbn [fst snd].
  1, 3: do 2 eexists; (split; [reflexivity|]); cbn;
        (split; [auto|]); (split; [reflexivity | discriminate]).
  destruct (nonempty e) as [address|] eqn:He.
  2: { do 2 eexists; (split; [reflexivity|]); cbn;
       (split; [auto|]); (split; [reflexivity | discriminate]). }
  destruct (nonempty p) as [submitted|] eqn:Hp.
  2: { do 2 eexists; (split; [reflexivity|]); cbn;
       (split; [auto|]); (split; [reflexivity | discriminate]). }
  apply nonempty_Some in He as [-> He], Hp as [-> Hp].
  rewrite getUserByEmail_eq.
  destruct (rejects (store s)).
  { do 2 eexists. split; [reflexivity|]. cbn.
    split; [auto|]. split; [by destruct s|discriminate]. }
  destruct (user_by_email address (users s)) as [[i a]|] eqn:Hfound.
  2: { do 2 eexists. split; [reflexivity|]. cbn.
       split; [auto|]. split; [by destruct s|discriminate]. }
  apply user_by_email_Some in Hfound as [Hl Hm]; cbn in Hl, Hm.
  cbn [Account.fields Account.id].
  destruct (String.eqb_spec (Account.password a) submitted) as [Heq|Hne];
    cbn [negb].
  2: { do 2 eexists. split; [reflexivity|]. cbn.
       split; [auto|]. split; [by destruct s|discriminate]. }
  unfold in_store.
  repeat match goal with
         | |- context [match ?m (store ?x) with _ => _ end] =>
             destruct (m (store x)) as [[?|?] ?]
         end;
    do 2 eexists; (split; [reflexivity|]); cbn;
    (split; [auto|]); (split; [by destruct s|]);
    try discriminate.
  intros _. exists address, submitted, i, a. eexists. by repeat split.
Qed.

Variable bcrypt_hash : string -> nat -> string -> string.

(** X21: the Lambda handler does not accept the password of a user that
    createUser stored.  createUser stores the bcrypt hash, and the handler
    compares the submitted string with the stored attribute: on a healthy
    store, for a user just created under a new address and identifier,
    the handler answers 401 'Invalid credentials' to every password other
    than the stored hash, the user's own password included unless bcrypt
    returned it unchanged; whoever submits the stored hash is answered
    200 with the two cookies, when the library signs the tokens. *)
Theorem handler_after_createUser
  (userData : NewUser) (text submitted access fresh : string) (s : Site) :
  faults (store s) = [] ->
  users s !! uuid_text (next_uuid (store s)) = None ->
  (forall i a, users s !! i = Some a ->
               Account.email a <> new_email userData) ->
  text <> "" -> new_email userData <> "" -> submitted <> "" ->
  JSON_parse text
  = Some (Lambda.JsonValue (Some (new_email userData)) (Some submitted)) ->
  jwt_sign {| sub := uuid_text (next_uuid (store s));
              email := new_email userData |}
           ACCESS_TOKEN_SECRET Lambda.ACCESS_TOKEN_EXPIRY (clock (store s))
  = Ok access ->
  jwt_sign {| sub := uuid_text (next_uuid (store s));
              email := new_email userData |}
           REFRESH_TOKEN_SECRET Lambda.REFRESH_TOKEN_EXPIRY (clock (store s))
  = Ok fresh ->
  let created := (createUser bcrypt_hash userData s).2 in
  let item := Account.mk (uuid_text (next_uuid (store s)))
                         (new_attrs bcrypt_hash userData s) in
  (submitted <> Account.password (Account.fields item) ->
   Lambda.handler sha256hex jwt_sign ACCESS_TOKEN_SECRET
                  REFRESH_TOKEN_SECRET JSON_parse createCookieHeader
                  (Some text) created
   = (Done (Lambda.plain 401 (Lambda.Error "Invalid credentials")),
      created)) /\
  (submitted = Account.password (Account.fields item) ->
   (Lambda.handler sha256hex jwt_sign ACCESS_TOKEN_SECRET
                   REFRESH_TOKEN_SECRET JSON_parse createCookieHeader
                   (Some text) created).1
   = Done {| Lambda.statusCode := 200;
             Lambda.set_cookie_header :=
               Some (createCookieHeader "accessToken" access (15 * 60)
                     ++ ", "
                     ++ createCookieHeader "refreshToken" fresh
                          (7 * 24 * 60 * 60));
             Lambda.body :=
               Lambda.LoginSuccessful access
                 (Account.without_password item) |}).
Proof.
  intros Hf Hfresh Hfree Htext Haddr Hsub Hparse Ha Hr.
  destruct s as [u sl [t f c n]]; cbn in Hf, Hfresh, Hfree, Ha, Hr; subst f.
  set (s := mkSite u sl (mkWorld t [] c n)) in *.
  set (a := new_attrs bcrypt_hash userData s) in *.
  cbv zeta. cbn [store next_uuid Account.fields].
  assert ((createUser bcrypt_hash userData s).2
          = mkSite (<[uuid_text n := a]> u) (tail sl)
                   (mkWorld t [] c (N.succ n))) as ->.
  { rewrite createUser_eq. subst s. simpl_site. by rewrite Hfresh. }
  assert (user_by_email (new_email userData) (<[uuid_text n := a]> u)
          = Some (Account.mk (uuid_text n) a)) as Hfound.
  { apply user_by_email_unique; [by rewrite lookup_insert_eq | reflexivity |].
    intros i a' Hi He. destruct (decide (i = uuid_text n)) as [|Hne]; [done|].
    rewrite lookup_insert_ne in Hi by done. by destruct (Hfree _ _ Hi). }
  assert (nonempty (Some text) = Some text) as Hn1
    by (by apply nonempty_Some).
  assert (nonempty (Some (new_email userData)) = Some (new_email userData))
    as Hn2 by (by apply nonempty_Some).
  assert (nonempty (Some submitted) = Some submitted) as Hn3
    by (by apply nonempty_Some).
  unfold Lambda.handler, act_catch, act_bind, act_ret, act_throw.
  rewrite Hn1. change (default "{}" (Some text)) with text.
  rewrite Hparse. cbn [fst snd].
  rewrite Hn2, Hn3.
  rewrite getUserByEmail_eq, after_site_call_healthy by reflexivity.
  simpl_site. rewrite Hfound.
  cbn [Account.fields Account.id]. split.
  - intros Hne.
    destruct (String.eqb_spec (Account.password a) submitted) as [Heq|_];
      [by destruct Hne | reflexivity].
  - intros ->. rewrite String.eqb_refl. cbn [negb].
    unfold in_store at 1. simpl_site.
    rewrite (revokeAllUserTokens_healthy (uuid_text n)
               (mkWorld t [] c (N.succ n)) eq_refl).
    simpl_site.
    unfold in_store, generateAccessToken, generateRefreshToken, bind, now,
      ret.
    simpl_site. cbn [User.id User.email].
    change (Account.email a) with (new_email userData).
    rewrite Ha. simpl_site. rewrite Hr. simpl_site.
    rewrite createRefreshToken_eq. simpl_site. reflexivity.
Qed.

End LambdaHandler.

Lemma handler_after_createUser_witness :
  let created :=
    (createUser DemoSite.hash DemoSite.ann
       (DemoSite.site {[ "u0" := DemoSite.bob ]} ∅ [])).2 in
  Lambda.handler Demo.digest Demo.sign "access" "refresh" DemoSite.parse
                 DemoSite.cookie (Some "ann") created
  = (Done (Lambda.plain 401 (Lambda.Error "Invalid credentials")), created).
Proof.
  assert (users (DemoSite.site {[ "u0" := DemoSite.bob ]} ∅ []) !! "7" = None)
    as Hfresh by (vm_compute; reflexivity).
  refine (proj1 (handler_after_createUser Demo.digest Demo.sign "access"
                   "refresh" DemoSite.parse DemoSite.cookie DemoSite.hash
                   DemoSite.ann "ann" "correct horse"
                   (Demo.mint "access" "7" 1) (Demo.mint "refresh" "7" 1)
                   (DemoSite.site {[ "u0" := DemoSite.bob ]} ∅ [])
                   eq_refl Hfresh _ _ _ _ eq_refl eq_refl eq_refl) _).
  - intros i a Hi. cbn in Hi.
    apply lookup_singleton_Some in Hi as [_ <-]. discriminate.
  - discriminate.
  - discriminate.
  - discriminate.
  - discriminate.
Defined.

(** ** cleanExpiredTokens *)

Lemma send_delete_eq k w :
  send (DeleteCommand k) w =
  if rejects w then (Throw StoreError, after_call w)
  else (Ok tt, with_table (delete k (table w)) (after_call w)).
Proof. rewrite send_eq. destruct (rejects w); reflexivity. Qed.

Lemma promise_all_cons_snd {A} (p : M A) (ps : list (M A)) w :
  (promise_all (p :: ps) w).2 = (promise_all ps (p w).2).2.
Proof.
  cbn [promise_all]. destruct (p w) as [r w1]. cbn [snd].
  by destruct (promise_all ps w1) as [rs w2].
Qed.

Lemma promise_all_delete_safe (items : list Item) w :
  let out :=
    promise_all (map (fun token => send (DeleteCommand (item_hash token)))
                     items) w in
  clock out.2 = clock w /\
  forall k, table out.2 !! k = table w !! k \/
            (table out.2 !! k = None /\ k ∈ map item_hash items).
Proof.
  cbv zeta. revert w. induction items as [|it items IH]; intros w.
  - cbn. split; [reflexivity|]. intros k. by left.
  - cbn [map]. rewrite promise_all_cons_snd, send_delete_eq.
    destruct (rejects w); cbn [snd].
    + destruct (IH (after_call w)) as [Hc Ht].
      split; [by rewrite Hc; destruct w|].
      intros k. destruct (Ht k) as [->|[Hn Hin]].
      * left. by destruct w.
      * right. split; [exact Hn|]. apply elem_of_cons. by right.
    + destruct (IH (with_table (delete (item_hash it) (table w))
                               (after_call w))) as [Hc Ht].
      split; [by rewrite Hc; destruct w|].
      intros k. destruct (Ht k) as [Hk|[Hn Hin]].
      * replace (table (with_table (delete (item_hash it) (table w))
                                   (after_call w)))
          with (delete (item_hash it) (table w)) in Hk by (by destruct w).
        destruct (decide (k = item_hash it)) as [->|Hne].
        -- right. rewrite Hk, lookup_delete_eq. split; [reflexivity|].
           apply elem_of_cons. by left.
        -- left. by rewrite Hk, lookup_delete_ne.
      * right. split; [exact Hn|]. apply elem_of_cons. by right.
Qed.

Lemma lookup_delete_keys ks t k :
  delete_keys ks t !! k = if decide (k ∈ ks) then None else t !! k.
Proof.
  unfold delete_keys. revert t. induction ks as [|x ks IH]; intros t.
  - cbn. by rewrite decide_False by apply not_elem_of_nil.
  - cbn [foldl]. rewrite IH.
    destruct (decide (k ∈ ks)) as [Hin|Hnin].
    + rewrite decide_True; [done|]. apply elem_of_cons. by right.
    + destruct (decide (k = x)) as [->|Hne].
      * rewrite lookup_delete_eq. rewrite decide_True; [done|].
        apply elem_of_cons. by left.
      * rewrite lookup_delete_ne by done. rewrite decide_False; [done|].
        intros [?|?]%elem_of_cons; congruence.
Qed.

Lemma promise_all_delete_healthy (items : list Item) w :
  faults w = [] ->
  exists done_,
    promise_all (map (fun token => send (DeleteCommand (item_hash token)))
                     items) w
    = (Ok done_, with_table (delete_keys (map item_hash items) (table w)) w).
Proof.
  intros Hw. destruct w as [t f c u]; cbn in Hw; subst f.
  revert t. induction items as [|it items IH]; intros t.
  - exists []. reflexivity.
  - cbn [map promise_all]. rewrite send_delete_eq.
    rewrite (after_call_healthy (mkWorld t [] c u) eq_refl). simpl_world.
    unfold with_table at 1. simpl_world.
    destruct (IH (delete (item_hash it) t)) as [rest ->].
    exists (tt :: rest). reflexivity.
Qed.

Section CleaningFacts.

Variable toISOString : Z -> string.
Variable scan_page : gmap string Row -> option string
                     -> list string * option string.

Lemma elem_of_scanned today t (keys : list string) it :
  it ∈ omap (scanned toISOString today t) keys ->
  t !! item_hash it = Some (item_row it) /\
  expired_at toISOString today (item_row it) = true.
Proof.
  intros (k & _ & Hs)%list_elem_of_omap. unfold scanned in Hs.
  destruct (t !! k) as [r|] eqn:Hk; [|discriminate].
  destruct (expired_at toISOString today r) eqn:He; [|discriminate].
  injection Hs as <-. by cbn.
Qed.

Lemma clean_pages_step rounds today count start w :
  clean_pages toISOString scan_page (S rounds) today count start w =
  if rejects w then (Throw StoreError, after_call w)
  else
    let items :=
      omap (scanned toISOString today (table w)) (scan_page (table w) start).1 in
    match promise_all
            (map (fun token => send (DeleteCommand (item_hash token))) items)
            (after_call w) with
    | (Ok _, w2) =>
        match (scan_page (table w) start).2 with
        | Some key =>
            clean_pages toISOString scan_page rounds today (count + length items)%nat
                        (Some key) w2
        | None => (Ok (Some (count + length items)%nat), w2)
        end
    | (Throw e, w2) => (Throw e, w2)
    end.
Proof.
  cbn [clean_pages]. unfold bind at 1. rewrite send_eq.
  destruct (rejects w); [reflexivity|].
  unfold ScanCommand; cbn [fst snd Items LastEvaluatedKey].
  replace (with_table (table w) (after_call w)) with (after_call w)
    by (by destruct w).
  cbv zeta. unfold bind.
  destruct (promise_all _ (after_call w)) as [[done_|e] w2]; [|reflexivity].
  by destruct (scan_page (table w) start).2.
Qed.

Lemma clean_pages_safe rounds today count start w (t0 : gmap string Row) :
  (forall k, table w !! k = t0 !! k \/
             (table w !! k = None /\
              exists r, t0 !! k = Some r /\ expired_at toISOString today r = true)) ->
  let w' := (clean_pages toISOString scan_page rounds today count start w).2 in
  forall k, table w' !! k = t0 !! k \/
            (table w' !! k = None /\
             exists r, t0 !! k = Some r /\ expired_at toISOString today r = true).
Proof.
  cbv zeta. revert count start w.
  induction rounds as [|rounds IH]; intros count start w Hinv; [exact Hinv|].
  rewrite clean_pages_step.
  destruct (rejects w).
  { cbn [snd]. by replace (table (after_call w)) with (table w)
      by (by destruct w). }
  cbv zeta.
  set (items := omap (scanned toISOString today (table w)) (scan_page (table w) start).1).
  pose proof (promise_all_delete_safe items (after_call w)) as [_ Hdel].
  cbv zeta in Hdel.
  destruct (promise_all _ (after_call w)) as [[done_|e] w2] eqn:Hp;
    cbn [snd] in Hdel.
  all: assert (forall k, table w2 !! k = t0 !! k \/
                 (table w2 !! k = None /\
                  exists r, t0 !! k = Some r /\ expired_at toISOString today r = true))
         as Hinv2
         by (intros k; destruct (Hdel k) as [Hk|[Hn Hin]];
             [ rewrite Hk; replace (table (after_call w)) with (table w)
                 by (by destruct w); apply Hinv
             | apply list_elem_of_fmap in Hin as (it & -> & Hit);
               apply elem_of_scanned in Hit as [Hl He];
               destruct (Hinv (item_hash it)) as [Hsame|[Hnone _]];
               [ right; split; [exact Hn|]; exists (item_row it);
                 split; [congruence | exact He]
               | congruence ] ]).
  - destruct (scan_page (table w) start).2 as [key|]; [|exact Hinv2].
    by apply IH.
  - exact Hinv2.
Qed.

(** X22: cleanExpiredTokens removes nothing but the rows its filter
    matches.  Whatever pages the Scan returns, whatever calls the store
    rejects and however many rounds the loop makes, every row of the
    table is afterwards as it was or gone, and a row that is gone had an
    [expires_at] whose ISO string sorts before the ISO string of the
    instant the clean-up started; no row is added or changed.  The rows
    that an update created without [expires_at] are never removed.  On a
    range of instants whose ISO strings sort in chronological order (the
    years of four digits), a row that has not expired stays. *)
Theorem cleanExpiredTokens_removes_only_expired
  (rounds : nat) (w : World) (k : string) :
  let w' := (cleanExpiredTokens toISOString scan_page rounds w).2 in
  (table w' !! k = table w !! k \/
   (table w' !! k = None /\
    exists r e, table w !! k = Some r /\ row_expires_at r = Some e /\
                String.ltb (toISOString e) (toISOString (clock w)) = true)) /\
  (forall rv lu, table w !! k = Some (Sparse rv lu) ->
                 table w' !! k = Some (Sparse rv lu)) /\
  (forall lo hi r e,
     (forall a b, lo <= a <= hi -> lo <= b <= hi ->
                  String.ltb (toISOString a) (toISOString b) = true ->
                  a < b) ->
     lo <= clock w <= hi ->
     table w !! k = Some r -> row_expires_at r = Some e ->
     lo <= e <= hi -> clock w <= e ->
     table w' !! k = Some r).
Proof.
  cbv zeta.
  assert (table (cleanExpiredTokens toISOString scan_page rounds w).2 !! k
          = table w !! k \/
          (table (cleanExpiredTokens toISOString scan_page rounds w).2 !! k
           = None /\
           exists r, table w !! k = Some r /\
                     expired_at toISOString (clock w) r = true)) as H.
  { unfold cleanExpiredTokens, try_catch, bind, now, rethrow, throw.
    pose proof (clean_pages_safe rounds (clock w) 0%nat None w (table w)
                  (fun k => or_introl eq_refl) k) as Hsafe.
    cbv zeta in Hsafe.
    by destruct (clean_pages toISOString scan_page rounds (clock w) 0 None w)
      as [[n|e] w']. }
  split; [|split].
  - destruct H as [H|[Hn (r & Hr & He)]]; [by left|]. right.
    split; [exact Hn|]. exists r. unfold expired_at in He.
    destruct (row_expires_at r) as [e|]; [|discriminate].
    by exists e.
  - intros rv lu Hs. destruct H as [H|[_ (r & Hr & He)]]; [congruence|].
    rewrite Hs in Hr. injection Hr as <-. discriminate.
  - intros lo hi r e Hchron Hc Hr He Hrange Hlive.
    destruct H as [H|[_ (r' & Hr' & Hexp)]]; [congruence|].
    rewrite Hr in Hr'. injection Hr' as <-.
    unfold expired_at in Hexp. rewrite He in Hexp.
    pose proof (Hchron _ _ Hrange Hc Hexp). lia.
Qed.

(** X23: on a healthy store and a table that the Scan returns in one
    page, cleanExpiredTokens removes every row its filter matches and
    counts them.  When the single page evaluates every key of the table
    once, the function returns the number of rows whose [expires_at], as
    an ISO string, sorts before the ISO string of the instant of the
    call, and the table afterwards holds exactly the other rows. *)
Theorem cleanExpiredTokens_one_page
  (rounds : nat) (keys : list string) (w : World) :
  faults w = [] ->
  scan_page (table w) None = (keys, None) ->
  NoDup keys ->
  (forall k, is_Some (table w !! k) -> k ∈ keys) ->
  exists w',
    cleanExpiredTokens toISOString scan_page (S rounds) w
    = (Ok (Some (length (expired_rows toISOString (clock w) (table w)))), w') /\
    forall k,
      table w' !! k
      = match table w !! k with
        | Some r => if expired_at toISOString (clock w) r then None else Some r
        | None => None
        end.
Proof.
  intros Hw Hscan Hnd Hall.
  destruct w as [t f c u]; cbn in Hw, Hscan, Hall; subst f.
  unfold cleanExpiredTokens, try_catch, bind, now. cbn [clock].
  rewrite clean_pages_step. simpl_world. cbv zeta.
  rewrite (after_call_healthy (mkWorld t [] c u) eq_refl).
  rewrite Hscan. cbn [fst snd].
  destruct (promise_all_delete_healthy (omap (scanned toISOString c t) keys)
              (mkWorld t [] c u) eq_refl) as [done_ Hp].
  rewrite Hp. eexists. split.
  - f_equal. f_equal. f_equal. cbn [Nat.add].
    apply Permutation_length, NoDup_Permutation.
    + apply (NoDup_fmap_1 item_hash).
      apply (NoDup_omap_keys (scanned toISOString c t) (fun x : string => x)
               item_hash).
      * intros x y Hs. unfold scanned in Hs.
        destruct (t !! x); [|discriminate].
        destruct (expired_at toISOString c r); [|discriminate]. by injection Hs as <-.
      * by rewrite map_id.
    + apply (NoDup_fmap_1 item_hash).
      apply (NoDup_omap_keys _ fst item_hash).
      * intros [x r] y Hs. cbn in Hs.
        destruct (expired_at toISOString c r); [|discriminate]. by injection Hs as <-.
      * apply NoDup_fst_map_to_list.
    + intros it. unfold expired_rows. rewrite !list_elem_of_omap. split.
      * intros (x & Hx & Hs). unfold scanned in Hs.
        destruct (t !! x) as [r|] eqn:Hl; [|discriminate].
        destruct (expired_at toISOString c r) eqn:He; [|discriminate].
        injection Hs as <-. exists (x, r).
        split; [by apply elem_of_map_to_list|]. cbn. by rewrite He.
      * intros ([x r] & Hx & Hs). cbn in Hs.
        apply elem_of_map_to_list in Hx.
        destruct (expired_at toISOString c r) eqn:He; [|discriminate].
        injection Hs as <-. exists x.
        split; [apply Hall; by rewrite Hx|].
        unfold scanned. by rewrite Hx, He.
  - intros k. simpl_world. rewrite lookup_delete_keys.
    destruct (t !! k) as [r|] eqn:Hl.
    + destruct (expired_at toISOString c r) eqn:He.
      * rewrite decide_True; [done|].
        apply list_elem_of_fmap. exists (mkItem k r). split; [done|].
        apply list_elem_of_omap. exists k.
        split; [apply Hall; by rewrite Hl|].
        unfold scanned. by rewrite Hl, He.
      * rewrite decide_False; [done|].
        intros (it & -> & Hit)%list_elem_of_fmap.
        apply elem_of_scanned in Hit as [Hl' He']. congruence.
    + by destruct (decide _).
Qed.

(** *** Which calls cleanExpiredTokens makes, and when it throws *)

Lemma existsb_take_add (a b : nat) (l : list bool) :
  existsb (fun x => x) (take (a + b) l)
  = existsb (fun x => x) (take a l)
    || existsb (fun x => x) (take b (drop a l)).
Proof.
  revert l. induction a as [|a IH]; intros l; [reflexivity|].
  destruct l as [|x l]; cbn; [by destruct b|].
  by rewrite IH, orb_assoc.
Qed.

Lemma faults_after_call w : faults (after_call w) = drop 1 (faults w).
Proof. destruct w as [t [|x f] c u]; reflexivity. Qed.

Lemma promise_all_delete_outcome (items : list Item) w :
  exists done_ w',
    promise_all (map (fun token => send (DeleteCommand (item_hash token)))
                     items) w
    = (if rejected_among (length items) w then Throw StoreError
       else Ok done_, w') /\
    faults w' = drop (length items) (faults w).
Proof.
  revert w. induction items as [|it items IH]; intros w.
  - exists [], w. split; [reflexivity|]. by rewrite drop_0.
  - cbn [map promise_all length]. rewrite send_delete_eq, rejected_among_S.
    destruct (rejects w).
    + destruct (IH (after_call w)) as (rest & w' & -> & Hf).
      exists [], w'. split; [reflexivity|].
      rewrite Hf, faults_after_call, drop_drop. reflexivity.
    + destruct (IH (with_table (delete (item_hash it) (table w))
                               (after_call w))) as (rest & w' & -> & Hf).
      exists (tt :: rest), w'. split.
      * cbn [orb].
        replace (rejected_among (length items)
                   (with_table (delete (item_hash it) (table w))
                               (after_call w)))
          with (rejected_among (length items) (after_call w))
          by reflexivity.
        by destruct (rejected_among (length items) (after_call w)).
      * rewrite Hf.
        replace (faults (with_table (delete (item_hash it) (table w))
                                    (after_call w)))
          with (faults (after_call w)) by reflexivity.
        rewrite faults_after_call, drop_drop. reflexivity.
Qed.

Lemma clean_pages_outcome rounds today count start w :
  let out := clean_pages toISOString scan_page rounds today count start w in
  exists calls,
    faults out.2 = drop calls (faults w) /\
    ((out.1 = Throw StoreError /\ rejected_among calls w = true) \/
     (exists v, out.1 = Ok v /\ rejected_among calls w = false)).
Proof.
  cbv zeta. revert count start w.
  induction rounds as [|rounds IH]; intros count start w.
  { exists 0%nat. split; [by rewrite drop_0|]. right. by exists None. }
  rewrite clean_pages_step. destruct (rejects w) eqn:Hrej.
  { exists 1%nat. split; [apply faults_after_call|]. left.
    split; [reflexivity|]. by rewrite rejected_among_1. }
  cbv zeta.
  set (items := omap (scanned toISOString today (table w))
                     (scan_page (table w) start).1).
  destruct (promise_all_delete_outcome items (after_call w))
    as (done_ & w2 & -> & Hf2).
  assert (faults w2 = drop (S (length items)) (faults w)) as Hf.
  { rewrite Hf2, faults_after_call, drop_drop. reflexivity. }
  assert (rejected_among (S (length items)) w
          = rejected_among (length items) (after_call w)) as Hsplit.
  { by rewrite rejected_among_S, Hrej. }
  destruct (rejected_among (length items) (after_call w)) eqn:Hk.
  { exists (S (length items)). split; [exact Hf|]. left. by split. }
  destruct (scan_page (table w) start).2 as [key|].
  2: { exists (S (length items)). split; [exact Hf|]. right.
       eexists. by split. }
  destruct (IH (count + length items)%nat (Some key) w2)
    as (calls & Hfc & Hout).
  exists (S (length items) + calls)%nat. split.
  { rewrite Hfc, Hf, drop_drop. reflexivity. }
  assert (rejected_among (S (length items) + calls) w
          = rejected_among calls w2) as Hcalls.
  { unfold rejected_among in *. rewrite existsb_take_add, Hsplit.
    by rewrite Hf. }
  rewrite Hcalls. exact Hout.
Qed.

Lemma throws_store_error {A} (cond : bool) (a : A) (w1 w2 : World) e :
  (if cond then (Throw StoreError, w1) else (Ok a, w2)).1 = Throw e
  <-> e = StoreError /\ cond = true.
Proof.
  destruct cond; cbn; split.
  - by intros [= <-].
  - by intros [-> _].
  - discriminate.
  - by intros [_ ?].
Qed.

Lemma bulk_throws {A} (first rest : bool) (a : A) (w1 w2 : World) e :
  (if first then (Throw StoreError, w1)
   else (if rest then Throw StoreError else Ok a, w2)).1 = Throw e
  <-> e = StoreError /\ first || rest = true.
Proof.
  destruct first, rest; cbn; split;
    try discriminate; try (by intros [= <-]); try (by intros [-> _]);
    by intros [_ ?].
Qed.

(** C8, as the code has it: createRefreshToken, getRefreshToken,
    updateRefreshTokenLastUsed, getUserTokens, revokeAllUserTokens,
    limitUserTokens and cleanExpiredTokens throw exactly when the store
    rejects one of the calls they make (for the bulk operations, the query
    or any one of the updates; for cleanExpiredTokens, any of the scans
    and deletions it gets to), and what they throw is the store's
    failure, nothing else.  revokeRefreshToken is the one operation that
    swallows the failure: it never throws and answers [false] exactly
    when its call was rejected.  updateRefreshTokenLastUsed does not fail
    silently. *)
Theorem store_failures_thrown_except_by_revoke
  (sha256hex : string -> string) (userId token : string) (maxTokens : Z)
  (rounds : nat) (w : World) :
  let live := filter (fun it => negb (revoked (attrs it)))
                     (records_of userId (table w)) in
  let sorted := js_sort newest_first (active_of userId (table w)) in
  let updates :=
    if Z.of_nat (length sorted) >=? maxTokens
    then length (js_slice sorted (maxTokens - 1)) else 0%nat in
  (forall e, (createRefreshToken sha256hex userId token w).1 = Throw e
             <-> e = StoreError /\ rejects w = true) /\
  (forall e, (getRefreshToken sha256hex token w).1 = Throw e
             <-> e = StoreError /\ rejects w = true) /\
  (forall e, (updateRefreshTokenLastUsed sha256hex token w).1 = Throw e
             <-> e = StoreError /\ rejects w = true) /\
  (forall e, (getUserTokens userId w).1 = Throw e
             <-> e = StoreError /\ rejects w = true) /\
  (forall e, (revokeAllUserTokens userId w).1 = Throw e
             <-> e = StoreError /\ rejected_among (S (length live)) w = true)
  /\
  (forall e, (limitUserTokens userId maxTokens w).1 = Throw e
             <-> e = StoreError /\ rejected_among (S updates) w = true) /\
  (exists calls,
     faults (cleanExpiredTokens toISOString scan_page rounds w).2
     = drop calls (faults w) /\
     forall e, (cleanExpiredTokens toISOString scan_page rounds w).1 = Throw e
               <-> e = StoreError /\ rejected_among calls w = true) /\
  ((revokeRefreshToken sha256hex token w).1 = Ok false
   <-> rejects w = true) /\
  (forall e, (revokeRefreshToken sha256hex token w).1 <> Throw e).
Proof.
  cbv zeta.
  rewrite createRefreshToken_eq, getRefreshToken_eq,
    updateRefreshTokenLastUsed_eq, revokeRefreshToken_eq, getUserTokens_eq.
  pose proof (revokeAllUserTokens_eq userId w) as Hall.
  pose proof (limitUserTokens_eq userId maxTokens w) as Hlim.
  cbv zeta in Hall, Hlim. rewrite Hall, Hlim. clear Hall Hlim.
  rewrite !rejected_among_S.
  split; [intros e; apply throws_store_error|].
  split; [intros e; apply throws_store_error|].
  split; [intros e; apply throws_store_error|].
  split; [intros e; apply throws_store_error|].
  split; [intros e; apply bulk_throws|].
  split.
  { intros e. destruct (rejects w); cbn [orb fst].
    - split; [by intros [= <-] | by intros [-> _]].
    - destruct (Z.of_nat _ >=? maxTokens); cbn [fst].
      + destruct (rejected_among _ _); cbn;
          split; try discriminate; try (by intros [= <-]);
          try (by intros [-> _]); by intros [_ ?].
      + rewrite rejected_among_0. split; [discriminate | by intros [_ ?]]. }
  split.
  { unfold cleanExpiredTokens, try_catch, bind, now, rethrow, throw.
    destruct (clean_pages_outcome rounds (clock w) 0%nat None w)
      as (calls & Hf & Hout).
    cbv zeta in Hf, Hout. exists calls.
    destruct (clean_pages toISOString scan_page rounds (clock w) 0 None w)
      as [[v|e'] w'].
    - split; [exact Hf|]. intros e. cbn [fst snd] in *.
      destruct Hout as [[? _]|(v' & _ & ->)]; [discriminate|].
      split; [discriminate | by intros [_ ?]].
    - split; [exact Hf|]. intros e. cbn [fst snd] in *.
      destruct Hout as [[[= ->] ->]|(v' & ? & _)]; [|discriminate].
      split; [by intros [= <-] | by intros [-> _]]. }
  split; [destruct (rejects w); cbn; split; congruence|].
  intros e. destruct (rejects w); discriminate.
Qed.

End CleaningFacts.

Lemma cleanExpiredTokens_one_page_witness :
  exists w',
    cleanExpiredTokens DemoSite.toISOString DemoSite.one_page 1
                       Demo.expired_session
    = (Ok (Some (length (expired_rows DemoSite.toISOString
                           (clock Demo.expired_session)
                           (table Demo.expired_session)))), w').
Proof.
  destruct (cleanExpiredTokens_one_page DemoSite.toISOString
              DemoSite.one_page 0
              (map_to_list (table Demo.expired_session)).*1
              Demo.expired_session eq_refl eq_refl) as (w' & H & _).
  - apply NoDup_fst_map_to_list.
  - intros k [r Hr]. apply list_elem_of_fmap. exists (k, r).
    split; [reflexivity|]. by apply elem_of_map_to_list.
  - exists w'. exact H.
Defined.

(** The session of the example, a second after its expiry, is removed
    and counted. *)
Example cleanExpiredTokens_expired_session :
  cleanExpiredTokens DemoSite.toISOString DemoSite.one_page 1
                     Demo.expired_session
  = (Ok (Some 1%nat), Demo.world ∅ [] (350 + Demo.week + 1000)).
Proof. vm_compute. reflexivity. Qed.

(** String order is not chronological beyond the year 9999: on 2
    November 2024 a record that expires on 1 January 10000, whose ISO
    string starts with "+010000", is removed and counted as expired. *)
Example cleanExpiredTokens_removes_year_10000 :
  let w := Demo.world DemoSite.far_session [] 1730505600000 in
  before (Some 253402300800000) (clock w) = false /\
  cleanExpiredTokens DemoSite.toISOString DemoSite.one_page 1 w
  = (Ok (Some 1%nat), Demo.world ∅ [] 1730505600000).
Proof. vm_compute. split; reflexivity. Qed.

(** ** The routes behind their validation *)

Lemma failing_nil ok path msg : failing ok path msg = [] <-> ok = true.
Proof. destruct ok; cbn; split; congruence. Qed.

Lemma isLength_min_notEmpty n s :
  isLength (S n) None s = true -> s <> "".
Proof. intros H ->. discriminate H. Qed.

Section Routes.

Variable sha256hex : string -> string.
Variable jwt_verify : string -> string -> Z -> JwtVerify.
Variable jwt_sign : Payload -> string -> string -> Z -> Outcome string.
Variable ACCESS_TOKEN_SECRET REFRESH_TOKEN_SECRET : string.
Variable ACCESS_TOKEN_EXPIRY REFRESH_TOKEN_EXPIRY : string.
Variable bcrypt_hash : string -> nat -> string -> string.
Variable bcrypt_compare : string -> string -> bool.
Variable trim : string -> string.
Variable isEmail : string -> bool.
Variable normalizeEmail : string -> option string.

Lemma loginValidation_passes email password :
  (loginValidation trim isEmail normalizeEmail email password).1 = []
  <-> isEmail (trim email) = true /\ password <> "".
Proof.
  unfold loginValidation, validate_email, notEmpty; cbn [fst].
  destruct (isEmail (trim email)); cbn;
    destruct (String.eqb_spec password ""); cbn; split;
    try discriminate; try (by intros [? ?]); by intros _.
Qed.

Lemma registerValidation_passes body :
  (registerValidation trim isEmail normalizeEmail body).1 = []
  <-> isEmail (trim (new_email body)) = true /\
      isLength 8 None (new_password body) = true /\
      matches_password (new_password body) = true /\
      notEmpty (trim (new_name body)) = true /\
      isLength 2 (Some 100%nat) (trim (new_name body)) = true.
Proof.
  unfold registerValidation, validate_email; cbn [fst].
  destruct (isEmail _), (isLength 8 None _), (matches_password _),
    (notEmpty _), (isLength 2 _ _); cbn; split;
    try discriminate; try (by intros (? & ? & ? & ? & ?)); by intros _.
Qed.

(** A route is the 400 of handleValidationErrors, or its callback on the
    sanitized body. *)
Lemma login_route email password s :
  login sha256hex jwt_sign ACCESS_TOKEN_SECRET REFRESH_TOKEN_SECRET
        ACCESS_TOKEN_EXPIRY REFRESH_TOKEN_EXPIRY bcrypt_compare
        trim isEmail normalizeEmail email password s =
  match (loginValidation trim isEmail normalizeEmail email password).1 with
  | [] =>
      login_handler sha256hex jwt_sign ACCESS_TOKEN_SECRET
        REFRESH_TOKEN_SECRET ACCESS_TOKEN_EXPIRY REFRESH_TOKEN_EXPIRY
        bcrypt_compare
        {| body_email := normalizeEmail (trim email);
           body_password := password; body_name := "" |} s
  | e :: l => (Done (answer 400 (JsonErrors (e :: l))), s)
  end.
Proof.
  unfold login, loginValidation, validate_email; cbn [fst snd].
  by destruct (_ ++ _)%list.
Qed.

Lemma register_route body s :
  register bcrypt_hash trim isEmail normalizeEmail body s =
  match (registerValidation trim isEmail normalizeEmail body).1 with
  | [] =>
      register_handler bcrypt_hash
        {| body_email := normalizeEmail (trim (new_email body));
           body_password := new_password body;
           body_name := trim (new_name body) |} s
  | e :: l => (Done (answer 400 (JsonErrors (e :: l))), s)
  end.
Proof.
  unfold register, registerValidation, validate_email; cbn [fst snd].
  by destruct (_ ++ _)%list.
Qed.

Lemma login_handler_accepts address password name id a access fresh s :
  faults (store s) = [] ->
  user_by_email address (users s) = Some (Account.mk id a) ->
  bcrypt_compare password (Account.password a) = true ->
  jwt_sign {| sub := id; email := Account.email a |}
           ACCESS_TOKEN_SECRET ACCESS_TOKEN_EXPIRY (clock (store s))
  = Ok access ->
  jwt_sign {| sub := id; email := Account.email a |}
           REFRESH_TOKEN_SECRET REFRESH_TOKEN_EXPIRY (clock (store s))
  = Ok fresh ->
  login_handler sha256hex jwt_sign ACCESS_TOKEN_SECRET REFRESH_TOKEN_SECRET
        ACCESS_TOKEN_EXPIRY REFRESH_TOKEN_EXPIRY bcrypt_compare
        {| body_email := Some address; body_password := password;
           body_name := name |} s
  = (Done {| code := 200;
             json := JsonLogin access (extractUserInfo (Account.mk id a));
             setCookie := [("accessToken", access);
                           ("refreshToken", fresh)] |},
     with_store
       (with_table
          (<[sha256hex fresh := Complete (fresh_attrs id (store s))]>
             (revoke_keys
                (map token_hash
                   (filter (fun token => negb (revoked (attrs token)))
                           (records_of id (table (store s)))))
                (table (store s))))
          (after_uuid (store s)))
       s).
Proof.
  intros Hf Hu Hc Ha Hr.
  destruct s as [u sl [t f c n]]; cbn in Hf, Hu, Ha, Hr; subst f.
  unfold login_handler, act_catch, act_bind.
  cbn [body_email body_password].
  rewrite getUserByEmail_eq, after_site_call_healthy by reflexivity.
  simpl_site. rewrite Hu.
  cbn [Account.fields Account.id]. rewrite Hc. cbn [negb].
  unfold in_store at 1. simpl_site.
  rewrite (revokeAllUserTokens_healthy id (mkWorld t [] c n) eq_refl).
  simpl_site.
  unfold in_store, generateAccessToken, generateRefreshToken, bind, now, ret.
  simpl_site. cbn [User.id User.email]. rewrite Ha. simpl_site.
  rewrite Hr. simpl_site.
  rewrite createRefreshToken_eq. simpl_site. reflexivity.
Qed.

Lemma login_handler_refuses address password name s :
  rejects (store s) = false ->
  (forall i a, users s !! i = Some a -> Account.email a = address ->
               bcrypt_compare password (Account.password a) = false) ->
  login_handler sha256hex jwt_sign ACCESS_TOKEN_SECRET REFRESH_TOKEN_SECRET
        ACCESS_TOKEN_EXPIRY REFRESH_TOKEN_EXPIRY bcrypt_compare
        {| body_email := Some address; body_password := password;
           body_name := name |} s
  = (Done (answer 401 (JsonError "Invalid credentials")),
     after_site_call s).
Proof.
  intros Hrej Hno.
  unfold login_handler, act_catch, act_bind.
  cbn [body_email body_password]. rewrite getUserByEmail_eq, Hrej.
  destruct (user_by_email address (users s)) as [found|] eqn:Hfound;
    [|reflexivity].
  apply user_by_email_Some in Hfound as [Hl He].
  by rewrite (Hno _ _ Hl He).
Qed.

Lemma register_handler_creates address password name s :
  faults (store s) = [] ->
  users s !! uuid_text (next_uuid (store s)) = None ->
  (forall i a, users s !! i = Some a -> Account.email a <> address) ->
  let sanitized := {| new_email := address; new_password := password;
                      new_name := name |} in
  register_handler bcrypt_hash
    {| body_email := Some address; body_password := password;
       body_name := name |} s
  = (Done (answer 200 (JsonUser {| info_email := address;
                                   info_name := name |})),
     {| users := <[uuid_text (next_uuid (store s))
                   := new_attrs bcrypt_hash sanitized s]> (users s);
        salts := tail (salts s);
        store := after_uuid (store s) |}).
Proof.
  intros Hf Hfresh Hfree.
  destruct s as [u sl [t f c n]]; cbn in Hf, Hfresh, Hfree; subst f.
  cbv zeta. unfold register_handler, act_catch, act_bind.
  cbn [body_email body_password body_name].
  rewrite getUserByEmail_eq. simpl_site.
  rewrite (proj2 (user_by_email_None _ _) Hfree).
  rewrite createUser_eq. simpl_site. by rewrite Hfresh.
Qed.

(** X14: an address registers once, and only from a valid body.  A body
    that fails registerValidation is answered 400 with the errors and
    nothing is read or written.  On a healthy store, for a body that
    passes, whose address normalizes to one not in use, and a new
    identifier, POST /auth/register answers 200 with the normalized
    address and the trimmed name, and stores them with the bcrypt hash of
    the password; any later registration whose address normalizes to the
    same one is answered 400 and stores nothing. *)
Theorem register_once (body again : NewUser) (address : string) (s : Site) :
  faults (store s) = [] ->
  users s !! uuid_text (next_uuid (store s)) = None ->
  (registerValidation trim isEmail normalizeEmail body).1 = [] ->
  normalizeEmail (trim (new_email body)) = Some address ->
  (forall i a, users s !! i = Some a -> Account.email a <> address) ->
  normalizeEmail (trim (new_email again)) = Some address ->
  let stored :=
    new_attrs bcrypt_hash
      {| new_email := address; new_password := new_password body;
         new_name := trim (new_name body) |} s in
  (exists s1,
     register bcrypt_hash trim isEmail normalizeEmail body s
     = (Done (answer 200 (JsonUser {| info_email := address;
                                      info_name := trim (new_name body) |})),
        s1) /\
     users s1 = <[uuid_text (next_uuid (store s)) := stored]> (users s) /\
     exists r,
       register bcrypt_hash trim isEmail normalizeEmail again s1
       = (Done r, s1) /\
       code r = 400) /\
  (forall (invalid : NewUser) (s' : Site) e l,
     (registerValidation trim isEmail normalizeEmail invalid).1 = e :: l ->
     register bcrypt_hash trim isEmail normalizeEmail invalid s'
     = (Done (answer 400 (JsonErrors (e :: l))), s')).
Proof.
  intros Hf Hfresh Hvalid Haddr Hfree Hagain. cbv zeta. split.
  - rewrite register_route, Hvalid, Haddr.
    rewrite (register_handler_creates address _ _ s Hf Hfresh Hfree).
    cbv zeta. eexists. split; [reflexivity|]. split; [reflexivity|].
    rewrite register_route.
    destruct (registerValidation trim isEmail normalizeEmail again).1
      as [|e l]; [|by eexists].
    rewrite Hagain.
    destruct s as [u sl [t f c n]]; cbn in Hf; subst f.
    unfold register_handler, act_catch, act_bind. cbn [body_email].
    rewrite getUserByEmail_eq. simpl_site.
    destruct (user_by_email _ _) as [found|] eqn:Hfound; [by eexists|].
    exfalso.
    eapply (proj1 (user_by_email_None _ _) Hfound (uuid_text n)).
    + by rewrite lookup_insert_eq.
    + reflexivity.
  - intros invalid s' e l He. by rewrite register_route, He.
Qed.

(** X15: the two refusals of a login cannot be told apart.  For a body
    that passes loginValidation, when the store accepts the look-up and
    no stored user with the normalized address has a password hash that
    matches, POST /auth/login answers 401 'Invalid credentials' with no
    cookie, whether the address is unknown or the password wrong, and
    neither table changes. *)
Theorem login_refusal_uniform
  (mail password address : string) (s : Site) :
  rejects (store s) = false ->
  (loginValidation trim isEmail normalizeEmail mail password).1 = [] ->
  normalizeEmail (trim mail) = Some address ->
  (forall i a, users s !! i = Some a -> Account.email a = address ->
               bcrypt_compare password (Account.password a) = false) ->
  exists s1,
    login sha256hex jwt_sign ACCESS_TOKEN_SECRET REFRESH_TOKEN_SECRET
          ACCESS_TOKEN_EXPIRY REFRESH_TOKEN_EXPIRY bcrypt_compare
          trim isEmail normalizeEmail mail password s
    = (Done (answer 401 (JsonError "Invalid credentials")), s1) /\
    users s1 = users s /\
    table (store s1) = table (store s).
Proof.
  intros Hrej Hvalid Haddr Hno. exists (after_site_call s).
  split; [|by destruct s as [u sl [t f c n]]].
  rewrite login_route, Hvalid, Haddr.
  by apply login_handler_refuses.
Qed.

(** X16: a login leaves the user with one session.  On a healthy store,
    for a body that passes loginValidation, the only user with the
    normalized address, a matching password and tokens that the library
    signs, POST /auth/login answers 200 with the access token, the user's
    address and name and the two cookies; afterwards the user's only
    active record is the one of the new refresh token, which
    getRefreshToken finds; the users table is unchanged, and so is every
    row that is neither one of the user's records nor under the new
    hash. *)
Theorem login_single_session
  (mail password address id : string) (a : Account.attrs)
  (access fresh : string) (s : Site) :
  faults (store s) = [] ->
  (loginValidation trim isEmail normalizeEmail mail password).1 = [] ->
  normalizeEmail (trim mail) = Some address ->
  users s !! id = Some a ->
  Account.email a = address ->
  (forall i a', users s !! i = Some a' -> Account.email a' = address ->
                i = id) ->
  bcrypt_compare password (Account.password a) = true ->
  jwt_sign {| sub := id; email := address |}
           ACCESS_TOKEN_SECRET ACCESS_TOKEN_EXPIRY (clock (store s))
  = Ok access ->
  jwt_sign {| sub := id; email := address |}
           REFRESH_TOKEN_SECRET REFRESH_TOKEN_EXPIRY (clock (store s))
  = Ok fresh ->
  exists s1,
    login sha256hex jwt_sign ACCESS_TOKEN_SECRET REFRESH_TOKEN_SECRET
          ACCESS_TOKEN_EXPIRY REFRESH_TOKEN_EXPIRY bcrypt_compare
          trim isEmail normalizeEmail mail password s
    = (Done {| code := 200;
               json := JsonLogin access {| info_email := address;
                                           info_name := Account.name a |};
               setCookie := [("accessToken", access);
                             ("refreshToken", fresh)] |}, s1) /\
    active_of id (table (store s1))
    = [mkRecord (sha256hex fresh) (fresh_attrs id (store s))] /\
    (getRefreshToken sha256hex fresh (store s1)).1
    = Ok (Some (mkItem (sha256hex fresh)
                  (Complete (fresh_attrs id (store s))))) /\
    users s1 = users s /\
    (forall k, k <> sha256hex fresh ->
               k ∉ map token_hash (records_of id (table (store s))) ->
               table (store s1) !! k = table (store s) !! k).
Proof.
  intros Hf Hvalid Haddr Hl He Hu Hc Ha Hr. subst address.
  pose proof (user_by_email_unique _ _ _ _ Hl eq_refl Hu) as Hfound.
  eexists. split.
  { rewrite login_route, Hvalid, Haddr.
    rewrite (login_handler_accepts _ _ _ id a access fresh s Hf Hfound Hc
               Ha Hr).
    reflexivity. }
  destruct s as [u sl [t f c n]]; cbn in Hf; subst f. simpl_site.
  destruct (revoke_live_records id t) as (_ & Hnone & Hother).
  cbv zeta in Hnone, Hother.
  split; [|split; [|split; [reflexivity|]]].
  - apply Permutation_singleton_r.
    rewrite active_of_insert by reflexivity.
    by rewrite Hnone.
  - rewrite getRefreshToken_eq. simpl_site. by rewrite lookup_insert_eq.
  - intros k Hk Hnot. rewrite lookup_insert_ne by done.
    apply Hother. intros Hin. apply Hnot.
    apply list_elem_of_fmap in Hin as (it & -> & Hit).
    apply list_elem_of_fmap. exists it. split; [reflexivity|].
    by apply list_elem_of_filter in Hit as [_ Hit].
Qed.

(** X17: POST /auth/login always answers, and grants only a valid body
    on a matching hash.  Whatever the body, the store and the signing
    library do, the route returns a reply with status 200, 400, 401 or
    500 and leaves the users table as it was.  The status is 400 exactly
    when loginValidation reports an error, and the body is then the list
    of errors and no store call is made.  A 200 reply means that the body
    passed loginValidation, that a stored user with the normalized
    address has a password hash that [bcrypt.compare] accepts for the
    password, and its body carries that user's address and name. *)
Theorem login_replies (mail password : string) (s : Site) :
  exists r s1,
    login sha256hex jwt_sign ACCESS_TOKEN_SECRET REFRESH_TOKEN_SECRET
          ACCESS_TOKEN_EXPIRY REFRESH_TOKEN_EXPIRY bcrypt_compare
          trim isEmail normalizeEmail mail password s
    = (Done r, s1) /\
    (code r = 200 \/ code r = 400 \/ code r = 401 \/ code r = 500) /\
    users s1 = users s /\
    (code r = 400 <->
     (loginValidation trim isEmail normalizeEmail mail password).1 <> [])
    /\
    (code r = 400 ->
     s1 = s /\
     json r = JsonErrors
                (loginValidation trim isEmail normalizeEmail
                                 mail password).1) /\
    (code r = 200 ->
     exists address i a access,
       (loginValidation trim isEmail normalizeEmail mail password).1 = []
       /\
       normalizeEmail (trim mail) = Some address /\
       users s !! i = Some a /\ Account.email a = address /\
       bcrypt_compare password (Account.password a) = true /\
       json r = JsonLogin access {| info_email := address;
                                    info_name := Account.name a |}).
Proof.
  rewrite login_route.
  destruct (loginValidation trim isEmail normalizeEmail mail password).1
    as [|e l] eqn:Hvalid.
  2: { do 2 eexists. split; [reflexivity|]. cbn.
       repeat split; try done; try discriminate. auto. }
  assert (forall (r : Reply) (s1 : Site),
            code r <> 400 -> users s1 = users s ->
            (code r = 200 \/ code r = 401 \/ code r = 500) ->
            (code r = 200 ->
             exists address i a access,
               normalizeEmail (trim mail) = Some address /\
               users s !! i = Some a /\ Account.email a = address /\
               bcrypt_compare password (Account.password a) = true /\
               json r = JsonLogin access {| info_email := address;
                                            info_name := Account.name a |})
            ->
            (code r = 200 \/ code r = 400 \/ code r = 401 \/ code r = 500) /\
            users s1 = users s /\
            (code r = 400 <-> @nil ValidationError <> []) /\
            (code r = 400 -> s1 = s /\ json r = JsonErrors []) /\
            (code r = 200 ->
             exists address i a access,
               @nil ValidationError = [] /\
               normalizeEmail (trim mail) = Some address /\
               users s !! i = Some a /\ Account.email a = address /\
               bcrypt_compare password (Account.password a) = true /\
               json r = JsonLogin access {| info_email := address;
                                            info_name := Account.name a |}))
    as Hwrap.
  { intros r s1 H400 Hus Hcode H200.
    split; [tauto|]. split; [exact Hus|]. split; [split; [done | done]|].
    split; [done|]. intros Hr. destruct (H200 Hr) as (ad & i & a & ac & H).
    exists ad, i, a, ac. by split. }
  unfold login_handler, act_catch, act_bind, unknown_error, act_ret,
    act_rethrow, act_throw.
  cbn [body_email body_password].
  destruct (normalizeEmail (trim mail)) as [address|] eqn:Haddr.
  2: { rewrite send_users_eq. unfold QueryMistyped. cbn [fst snd].
       destruct (rejects (store s)); do 2 eexists;
         (split; [reflexivity|]); apply Hwrap; cbn;
         try discriminate; try (by destruct s); auto. }
  rewrite getUserByEmail_eq.
  destruct (rejects (store s)).
  { do 2 eexists. split; [reflexivity|]. apply Hwrap; cbn;
      try discriminate; try (by destruct s); auto. }
  destruct (user_by_email address (users s)) as [[i a]|] eqn:Hfound.
  2: { do 2 eexists. split; [reflexivity|]. apply Hwrap; cbn;
         try discriminate; try (by destruct s); auto. }
  apply user_by_email_Some in Hfound as [Hl He]; cbn in Hl, He.
  cbn [Account.fields Account.id].
  destruct (bcrypt_compare password (Account.password a)) eqn:Hc; cbn [negb].
  2: { do 2 eexists. split; [reflexivity|]. apply Hwrap; cbn;
         try discriminate; try (by destruct s); auto. }
  unfold in_store.
  repeat match goal with
         | |- context [match ?m (store ?x) with _ => _ end] =>
             destruct (m (store x)) as [[?|?] ?]
         end;
    do 2 eexists; (split; [reflexivity|]); apply Hwrap; cbn;
    try discriminate; try (by destruct s); auto.
  intros _. exists address, i, a. eexists. subst address. by repeat split.
Qed.

(** X19: a registered user can log in with the registered password, and
    with no password that [bcrypt.compare] rejects.  On a healthy store,
    for a body that passes registerValidation, whose address normalizes
    to one not in use, a new identifier, and a [bcrypt] whose [compare]
    accepts the password for the hash that is stored: after POST
    /auth/register, POST /auth/login with the same address and password
    passes loginValidation and answers 200 with the normalized address
    and the trimmed name, provided the library signs the two tokens; with
    a non-empty password that [bcrypt.compare] rejects for the stored
    hash it answers 401 'Invalid credentials'. *)
Theorem register_then_login
  (body : NewUser) (address access fresh : string) (s : Site) :
  faults (store s) = [] ->
  users s !! uuid_text (next_uuid (store s)) = None ->
  (registerValidation trim isEmail normalizeEmail body).1 = [] ->
  normalizeEmail (trim (new_email body)) = Some address ->
  (forall i a, users s !! i = Some a -> Account.email a <> address) ->
  bcrypt_compare (new_password body)
    (Account.password (new_attrs bcrypt_hash body s)) = true ->
  jwt_sign {| sub := uuid_text (next_uuid (store s)); email := address |}
           ACCESS_TOKEN_SECRET ACCESS_TOKEN_EXPIRY (clock (store s))
  = Ok access ->
  jwt_sign {| sub := uuid_text (next_uuid (store s)); email := address |}
           REFRESH_TOKEN_SECRET REFRESH_TOKEN_EXPIRY (clock (store s))
  = Ok fresh ->
  let registered :=
    (register bcrypt_hash trim isEmail normalizeEmail body s).2 in
  (login sha256hex jwt_sign ACCESS_TOKEN_SECRET REFRESH_TOKEN_SECRET
         ACCESS_TOKEN_EXPIRY REFRESH_TOKEN_EXPIRY bcrypt_compare
         trim isEmail normalizeEmail
         (new_email body) (new_password body) registered).1
  = Done {| code := 200;
            json := JsonLogin access
                      {| info_email := address;
                         info_name := trim (new_name body) |};
            setCookie := [("accessToken", access);
                          ("refreshToken", fresh)] |} /\
  (forall other,
     other <> "" ->
     bcrypt_compare other (Account.password (new_attrs bcrypt_hash body s))
     = false ->
     login sha256hex jwt_sign ACCESS_TOKEN_SECRET REFRESH_TOKEN_SECRET
           ACCESS_TOKEN_EXPIRY REFRESH_TOKEN_EXPIRY bcrypt_compare
           trim isEmail normalizeEmail (new_email body) other registered
     = (Done (answer 401 (JsonError "Invalid credentials")), registered)).
Proof.
  intros Hf Hfresh Hvalid Haddr Hfree Hc Ha Hr.
  pose proof (proj1 (registerValidation_passes body) Hvalid)
    as (Hmail & Hlen & _).
  assert (forall password, password <> "" ->
            (loginValidation trim isEmail normalizeEmail
                             (new_email body) password).1 = []) as Hlogin.
  { intros password Hne. by apply loginValidation_passes. }
  rewrite register_route, Hvalid, Haddr.
  rewrite (register_handler_creates address _ _ s Hf Hfresh Hfree).
  cbv zeta. cbn [snd].
  destruct s as [u sl [t f c n]]; cbn in Hf, Hfresh, Hfree, Ha, Hr; subst f.
  unfold after_uuid. simpl_site.
  set (a := new_attrs bcrypt_hash
              {| new_email := address; new_password := new_password body;
                 new_name := trim (new_name body) |}
              (mkSite u sl (mkWorld t [] c n))).
  change (Account.password (new_attrs bcrypt_hash body
            (mkSite u sl (mkWorld t [] c n))))
    with (Account.password a) in *.
  assert (user_by_email address (<[uuid_text n := a]> u)
          = Some (Account.mk (uuid_text n) a)) as Hfound.
  { apply user_by_email_unique; [by rewrite lookup_insert_eq | reflexivity |].
    intros i a' Hi He. destruct (decide (i = uuid_text n)) as [|Hne]; [done|].
    rewrite lookup_insert_ne in Hi by done. by destruct (Hfree _ _ Hi). }
  split.
  - rewrite login_route, (Hlogin _ (isLength_min_notEmpty _ _ Hlen)), Haddr.
    by rewrite (login_handler_accepts address _ "" (uuid_text n) a
                  access fresh
                  (mkSite (<[uuid_text n := a]> u) (tail sl)
                          (mkWorld t [] c (N.succ n)))
                  eq_refl Hfound Hc Ha Hr).
  - intros other Hne Hno. rewrite login_route, (Hlogin _ Hne), Haddr.
    unfold login_handler, act_catch, act_bind.
    cbn [body_email body_password].
    rewrite getUserByEmail_eq. simpl_site. rewrite Hfound.
    cbn [Account.fields]. by rewrite Hno.
Qed.

(** X24: the refresh token of a login can be exchanged once the clock
    has moved on, and the user still has one session.  On a healthy
    store, after a successful POST /auth/login with a body that passes
    loginValidation, POST /auth/refresh with the cookie of that login, at
    an instant no later than the stored expiry at which the library
    verifies the token and signs a new one under another hash, answers
    200 with the new cookies; afterwards the user's only active record is
    the one of the new token, and getRefreshToken no longer finds the
    token of the login. *)
Theorem login_then_refresh
  (mail password address id : string) (a : Account.attrs)
  (access fresh access' fresh' : string) (later : Z) (s : Site) :
  faults (store s) = [] ->
  (loginValidation trim isEmail normalizeEmail mail password).1 = [] ->
  normalizeEmail (trim mail) = Some address ->
  users s !! id = Some a ->
  Account.email a = address ->
  (forall i a', users s !! i = Some a' -> Account.email a' = address ->
                i = id) ->
  bcrypt_compare password (Account.password a) = true ->
  jwt_sign {| sub := id; email := address |}
           ACCESS_TOKEN_SECRET ACCESS_TOKEN_EXPIRY (clock (store s))
  = Ok access ->
  jwt_sign {| sub := id; email := address |}
           REFRESH_TOKEN_SECRET REFRESH_TOKEN_EXPIRY (clock (store s))
  = Ok fresh ->
  fresh <> "" ->
  later <= clock (store s) + 7 * 24 * 60 * 60 * 1000 ->
  jwt_verify fresh REFRESH_TOKEN_SECRET later
  = Decoded {| sub := id; email := address |} ->
  jwt_sign {| sub := id; email := address |}
           ACCESS_TOKEN_SECRET ACCESS_TOKEN_EXPIRY later = Ok access' ->
  jwt_sign {| sub := id; email := address |}
           REFRESH_TOKEN_SECRET REFRESH_TOKEN_EXPIRY later = Ok fresh' ->
  sha256hex fresh' <> sha256hex fresh ->
  let logged_in :=
    (login sha256hex jwt_sign ACCESS_TOKEN_SECRET REFRESH_TOKEN_SECRET
           ACCESS_TOKEN_EXPIRY REFRESH_TOKEN_EXPIRY bcrypt_compare
           trim isEmail normalizeEmail mail password s).2 in
  let w := with_clock later (store logged_in) in
  exists w',
    refresh sha256hex jwt_verify jwt_sign ACCESS_TOKEN_SECRET
            REFRESH_TOKEN_SECRET ACCESS_TOKEN_EXPIRY REFRESH_TOKEN_EXPIRY
            (Some fresh) w
    = (Ok {| status := 200; body := Success;
             set_cookie := [("accessToken", access');
                            ("refreshToken", fresh')] |}, w') /\
    active_of id (table w')
    = [mkRecord (sha256hex fresh') (fresh_attrs id w)] /\
    (getRefreshToken sha256hex fresh w').1 = Ok None.
Proof.
  intros Hf Hvalid Haddr Hl He Hu Hc Ha Hr Hne Hlater Hv Ha' Hr' Hh.
  subst address.
  pose proof (user_by_email_unique _ _ _ _ Hl eq_refl Hu) as Hfound.
  rewrite login_route, Hvalid, Haddr.
  rewrite (login_handler_accepts _ _ _ id a access fresh s Hf Hfound Hc
             Ha Hr).
  destruct s as [u sl [t f c n]]; cbn in Hf, Hlater; subst f.
  cbv zeta. simpl_site. unfold with_clock. simpl_site.
  destruct (revoke_live_records id t) as (_ & Hnone & _).
  cbv zeta in Hnone.
  set (t0 := revoke_keys _ t) in *.
  set (fa := fresh_attrs id (mkWorld t [] c n)).
  set (h := sha256hex fresh). fold h in Hh.
  set (w := mkWorld (<[h := Complete fa]> t0) [] later (N.succ n)).
  assert (active_of id (<[h := Complete fa]> t0) = [mkRecord h fa]) as Hone.
  { apply Permutation_singleton_r.
    rewrite active_of_insert by reflexivity. by rewrite Hnone. }
  rewrite (refresh_eq sha256hex jwt_verify jwt_sign ACCESS_TOKEN_SECRET
             REFRESH_TOKEN_SECRET ACCESS_TOKEN_EXPIRY REFRESH_TOKEN_EXPIRY
             fresh w Hne).
  subst w. simpl_world. rewrite Hv. cbn [classify valid negb payload].
  fold h. rewrite lookup_insert_eq.
  cbn [row_revoked revoked fa fresh_attrs truthy row_expires_at expires_at
       before].
  simpl_world.
  destruct (Z.ltb_spec (c + 7 * 24 * 60 * 60 * 1000) later) as [Hlt|_];
    [lia|].
  rewrite (after_call_healthy (mkWorld (<[h := Complete fa]> t0) [] later
                                       (N.succ n)) eq_refl).
  rewrite revokeRefreshToken_eq. simpl_world.
  rewrite refresh_issue_eq. cbv zeta. cbn [sub email]. simpl_world.
  rewrite Ha', Hr'. simpl_world.
  eexists. split; [reflexivity|]. simpl_world.
  fold h. unfold revoke_key. rewrite lookup_insert_eq.
  cbn [row_set_revoked].
  pose proof (active_after_revoking id (<[h := Complete fa]> t0) []
                [mkRecord h fa]) as Hrev.
  rewrite Hone in Hrev. specialize (Hrev (Permutation_refl _)).
  cbv zeta in Hrev. destruct Hrev as [_ Hrev].
  cbn [map revoke_keys foldl token_hash] in Hrev.
  unfold revoke_key in Hrev. rewrite lookup_insert_eq in Hrev.
  cbn [row_set_revoked] in Hrev.
  apply Permutation_nil_r in Hrev.
  split.
  - apply Permutation_singleton_r.
    rewrite active_of_insert by reflexivity. by rewrite Hrev.
  - rewrite getRefreshToken_eq. simpl_world. fold h.
    rewrite lookup_insert_ne by done. rewrite lookup_insert_eq.
    reflexivity.
Qed.

End Routes.

Lemma register_once_witness :
  exists s1,
    register DemoSite.hash DemoSite.trim DemoSite.isEmail
             DemoSite.normalizeEmail DemoSite.carol
             (DemoSite.site {[ "u0" := DemoSite.bob ]} ∅ [])
    = (Done (answer 200 (JsonUser {| info_email := "carol@x.com";
                                     info_name := "Carol" |})), s1).
Proof.
  assert (users (DemoSite.site {[ "u0" := DemoSite.bob ]} ∅ []) !! "7" = None)
    as Hfresh by (vm_compute; reflexivity).
  destruct (register_once DemoSite.hash DemoSite.trim DemoSite.isEmail
              DemoSite.normalizeEmail DemoSite.carol
              {| new_email := "CAROL@x.com"; new_password := "x";
                 new_name := "" |}
              "carol@x.com"
              (DemoSite.site {[ "u0" := DemoSite.bob ]} ∅ [])
              eq_refl Hfresh eq_refl eq_refl) as [(s1 & H & _) _].
  - intros i a Hi. cbn in Hi.
    apply lookup_singleton_Some in Hi as [_ <-]. discriminate.
  - reflexivity.
  - exists s1. exact H.
Defined.

Lemma login_refusal_uniform_witness :
  exists s1,
    login Demo.digest Demo.sign "access" "refresh" "15m" "7d" DemoSite.compare
          DemoSite.trim DemoSite.isEmail DemoSite.normalizeEmail
          "B@x.com" "hunter3" (DemoSite.site {[ "u0" := DemoSite.bob ]} ∅ [])
    = (Done (answer 401 (JsonError "Invalid credentials")), s1).
Proof.
  destruct (login_refusal_uniform Demo.digest Demo.sign "access" "refresh"
              "15m" "7d" DemoSite.compare DemoSite.trim DemoSite.isEmail
              DemoSite.normalizeEmail "B@x.com" "hunter3" "b@x.com"
              (DemoSite.site {[ "u0" := DemoSite.bob ]} ∅ [])
              eq_refl eq_refl eq_refl)
    as (s1 & H & _).
  - intros i a Hi. cbn in Hi.
    apply lookup_singleton_Some in Hi as [_ <-]. reflexivity.
  - exists s1. exact H.
Defined.

Lemma login_single_session_witness :
  exists s1,
    active_of "u0" (table (store s1))
    = [mkRecord (Demo.digest (Demo.mint "refresh" "u0" 1))
         (fresh_attrs "u0"
            (store (DemoSite.site {[ "u0" := DemoSite.bob ]}
                      {[ Demo.digest "old" := Demo.row_of "u0" 10 false ]}
                      [])))].
Proof.
  assert (users (DemoSite.site {[ "u0" := DemoSite.bob ]}
                   {[ Demo.digest "old" := Demo.row_of "u0" 10 false ]} [])
          !! "u0" = Some DemoSite.bob) as Hstored
    by (vm_compute; reflexivity).
  destruct (login_single_session Demo.digest Demo.sign "access" "refresh"
              "15m" "7d" DemoSite.compare DemoSite.trim DemoSite.isEmail
              DemoSite.normalizeEmail " B@x.com" "hunter2" "b@x.com" "u0"
              DemoSite.bob (Demo.mint "access" "u0" 1)
              (Demo.mint "refresh" "u0" 1)
              (DemoSite.site {[ "u0" := DemoSite.bob ]}
                 {[ Demo.digest "old" := Demo.row_of "u0" 10 false ]} [])
              eq_refl eq_refl eq_refl Hstored eq_refl)
    as (s1 & _ & H & _).
  - intros i a Hi _. cbn in Hi.
    by apply lookup_singleton_Some in Hi as [-> _].
  - reflexivity.
  - reflexivity.
  - reflexivity.
  - exists s1. exact H.
Defined.

Lemma register_then_login_witness :
  (login Demo.digest Demo.sign "access" "refresh" "15m" "7d" DemoSite.compare
         DemoSite.trim DemoSite.isEmail DemoSite.normalizeEmail
         " Carol@x.com " "Correct horse 1"
         (register DemoSite.hash DemoSite.trim DemoSite.isEmail
                   DemoSite.normalizeEmail DemoSite.carol
                   (DemoSite.site {[ "u0" := DemoSite.bob ]} ∅ [])).2).1
  = Done {| code := 200;
            json := JsonLogin (Demo.mint "access" "7" 1)
                      {| info_email := "carol@x.com";
                         info_name := "Carol" |};
            setCookie := [("accessToken", Demo.mint "access" "7" 1);
                          ("refreshToken", Demo.mint "refresh" "7" 1)] |}.
Proof.
  assert (users (DemoSite.site {[ "u0" := DemoSite.bob ]} ∅ []) !! "7" = None)
    as Hfresh by (vm_compute; reflexivity).
  refine (proj1 (register_then_login Demo.digest Demo.sign "access" "refresh"
                   "15m" "7d" DemoSite.hash DemoSite.compare DemoSite.trim
                   DemoSite.isEmail DemoSite.normalizeEmail DemoSite.carol
                   "carol@x.com"
                   (Demo.mint "access" "7" 1) (Demo.mint "refresh" "7" 1)
                   (DemoSite.site {[ "u0" := DemoSite.bob ]} ∅ [])
                   eq_refl Hfresh eq_refl eq_refl _ eq_refl eq_refl eq_refl)).
  intros i a Hi. cbn in Hi.
  apply lookup_singleton_Some in Hi as [_ <-]. discriminate.
Defined.

Lemma login_then_refresh_witness :
  let s := DemoSite.site {[ "u0" := DemoSite.bob ]}
             {[ Demo.digest "old" := Demo.row_of "u0" 10 false ]} [] in
  let logged_in :=
    (login Demo.digest Demo.sign "access" "refresh" "15m" "7d"
           DemoSite.compare DemoSite.trim DemoSite.isEmail
           DemoSite.normalizeEmail "b@x.com" "hunter2" s).2 in
  exists w',
    refresh Demo.digest DemoSite.verify Demo.sign "access" "refresh" "15m"
            "7d" (Some (Demo.mint "refresh" "u0" 1))
            (with_clock 5000 (store logged_in))
    = (Ok {| status := 200; body := Success;
             set_cookie := [("accessToken", Demo.mint "access" "u0" 5);
                            ("refreshToken", Demo.mint "refresh" "u0" 5)] |},
       w').
Proof.
  assert (users (DemoSite.site {[ "u0" := DemoSite.bob ]}
                   {[ Demo.digest "old" := Demo.row_of "u0" 10 false ]} [])
          !! "u0" = Some DemoSite.bob) as Hstored
    by (vm_compute; reflexivity).
  destruct (login_then_refresh Demo.digest DemoSite.verify Demo.sign
              "access" "refresh" "15m" "7d" DemoSite.compare
              DemoSite.trim DemoSite.isEmail DemoSite.normalizeEmail
              "b@x.com" "hunter2" "b@x.com" "u0" DemoSite.bob
              (Demo.mint "access" "u0" 1) (Demo.mint "refresh" "u0" 1)
              (Demo.mint "access" "u0" 5) (Demo.mint "refresh" "u0" 5)
              5000
              (DemoSite.site {[ "u0" := DemoSite.bob ]}
                 {[ Demo.digest "old" := Demo.row_of "u0" 10 false ]} [])
              eq_refl eq_refl eq_refl Hstored eq_refl)
    as (w' & H & _).
  - intros i a Hi _. cbn in Hi.
    by apply lookup_singleton_Some in Hi as [-> _].
  - reflexivity.
  - reflexivity.
  - reflexivity.
  - discriminate.
  - cbn. lia.
  - reflexivity.
  - reflexivity.
  - reflexivity.
  - discriminate.
  - exists w'. exact H.
Defined.
